(** * Galactic Roof AI: the analytics data processor

    A shallow embedding of the analytics module (the data processor that
    exports [processLeadData], [processProjectData], [processCustomerData],
    [processWeatherEventData], [generatePrediction],
    [generateTimeBasedAggregates] and [processAllData]) together with the
    tables of [database/init.js] and [analytics/schema.js] it reads and
    writes.

    Conventions of the embedding.
    - A JavaScript number that may be fractional is a rational [Q], the
      exact value of the expression that computes it; an integer-valued one
      is a [Z].  The code computes in IEEE doubles, which round: the
      expressions whose rounding shows in a stored value are given a second
      time in the module [Double], over the kernel's binary64 floats, and
      every bound stated of a fractional value leaves room for the rounding.
      A nullable column is an [option]; for a numeric column [None] also
      stands for [NaN], which SQLite stores as NULL.
    - Strings are [string], the UTF-8 bytes of the text.
    - The store is a record of tables, each table a list of rows in rowid
      order.  Every statement sent to the store is one step of a fault
      schedule: the callback of the [n]-th statement receives an error when
      [faults n] holds.
    - [Math.random()] and [new Date()] read the next element of a stream.
    - Statements sent together, without waiting for one another, are served
      in an order the store chooses and their callbacks fire in an order of
      their own; both orders are parameters of a run.
    - A promise is a computation [World -> outcome A * World]. *)

From Stdlib Require Import ZArith QArith Qround Qfield List String Ascii Bool.
From Stdlib Require Import Lia Lqa.
From Stdlib Require Import Sorted Permutation.
From Stdlib Require Floats Uint63.
Import ListNotations.
Import PrimFloat.

Set Warnings "-inexact-float".

Set Implicit Arguments.

Open Scope Z_scope.
Open Scope string_scope.

(* ================================================================= *)
(** ** Strings *)

Definition lower_ascii (c : ascii) : ascii :=
  let n := nat_of_ascii c in
  if ((65 <=? n) && (n <=? 90))%nat then ascii_of_nat (n + 32) else c.

(** SQLite compares names without regard to the case of the ASCII
    letters. *)
Fixpoint nocase (s : string) : string :=
  match s with
  | EmptyString => EmptyString
  | String c r => String (lower_ascii c) (nocase r)
  end.

(** [s.toLowerCase()].  It lowers the ASCII capitals and, of the code points
    outside ASCII, the two whose lower case holds an ASCII letter: the
    Kelvin sign U+212A (bytes 226 132 170) becomes k, and the capital I with
    a dot above U+0130 (bytes 196 176) becomes i followed by the combining
    dot U+0307 (bytes 204 135).  The lower case of every other code point
    lies outside ASCII, as the code point does; the processor compares
    lower-cased text with ASCII words only, which no byte of such a code
    point can be part of, and they are left as they are. *)
Fixpoint toLowerCase (s : string) : string :=
  match s with
  | EmptyString => EmptyString
  | String "226" (String "132" (String "170" r)) => String "k" (toLowerCase r)
  | String "196" (String "176" r) =>
      String "i" (String "204" (String "135" (toLowerCase r)))
  | String c r => String (lower_ascii c) (toLowerCase r)
  end.

(** [includes s sub] is [s.includes(sub)]. *)
Fixpoint includes (s sub : string) : bool :=
  String.prefix sub s
  || match s with
     | EmptyString => false
     | String _ r => includes r sub
     end.

(** Truthiness of a nullable text column: [null] and the empty string are
    falsy. *)
Definition truthy (o : option string) : bool :=
  match o with
  | Some s => negb (String.eqb s "")
  | None => false
  end.

(** [a || b] on nullable text. *)
Definition or_else (a b : option string) : option string :=
  if truthy a then a else b.

(** Order of SQLite on a nullable text column: NULL first, then bytewise. *)
Definition compare_text (a b : option string) : comparison :=
  match a, b with
  | None, None => Eq
  | None, Some _ => Lt
  | Some _, None => Gt
  | Some x, Some y => String.compare x y
  end.

(* ================================================================= *)
(** ** Numbers *)

Definition Qltb (a b : Q) : bool := negb (Qle_bool b a).

(** [null] coerced to a number by an arithmetic operator. *)
Definition num (o : option Q) : Q :=
  match o with Some q => q | None => 0%Q end.

(** JavaScript division where the divisor can vanish.  At every use below
    the dividend vanishes with the divisor, and [0/0] is [NaN]. *)
Definition js_div (a b : Q) : option Q :=
  if Qeq_bool b 0 then None else Some (a / b)%Q.

Definition msPerDay : Z := 1000 * 60 * 60 * 24.

(** [Math.ceil (ms / msPerDay)] and [Math.floor (ms / msPerDay)] on integer
    milliseconds. *)
Definition ceil_days (ms : Z) : Z := Qceiling (inject_Z ms / inject_Z msPerDay).
Definition floor_days (ms : Z) : Z := Qfloor (inject_Z ms / inject_Z msPerDay).

(** The room left for rounding in the bounds of fractional values. *)
Definition tolerance : Q := 1 # 1000000000.

(* ================================================================= *)
(** ** The arithmetic in doubles *)

(** The expressions of the processor whose rounding shows in a stored
    value, computed as the code computes them. *)
Module Double.

(** An integer from 0 to 2^53 as a double. *)
Definition of_Z (n : Z) : float := of_uint63 (Uint63.of_Z n).

Definition Math_max (a b : float) : float := if ltb a b then b else a.

Definition tolerance : float := 0.000000001%float.

(** [lo - tolerance <= x <= hi + tolerance] *)
Definition within (lo hi x : float) : bool :=
  leb (lo - tolerance)%float x && leb x (hi + tolerance)%float.

(** The largest double below 1, the largest [Math.random()] can return. *)
Definition largest_draw : float := 0x1.fffffffffffffp-1%float.

(** [processProjectData]: the costs, the variance and the margin, from the
    draw [r] and the contract amount. *)
Definition estimatedCost (contract_amount : float) : float :=
  (contract_amount * 0.6)%float.

Definition actualCost (r contract_amount : float) : float :=
  (estimatedCost contract_amount * (r * 0.3 + 0.85))%float.

Definition costVariancePercent (r contract_amount : float) : float :=
  (((actualCost r contract_amount - estimatedCost contract_amount)
    / estimatedCost contract_amount) * 100)%float.

Definition profitMargin (r contract_amount : float) : float :=
  ((contract_amount - actualCost r contract_amount) / contract_amount)%float.

(** [processCustomerData]: the lifetime value from the contract amounts of
    the customer's projects, and the churn probability from the retention
    score. *)
Definition totalProjectValue (amounts : list float) : float :=
  fold_left (fun total amount => (total + amount)%float) amounts 0%float.

Definition averageProjectValue (amounts : list float) : float :=
  if (0 <? Z.of_nat (List.length amounts))%Z
  then (totalProjectValue amounts / of_Z (Z.of_nat (List.length amounts)))%float
  else 0%float.

Definition repeatBusinessFactor : float := 0.3%float.

Definition lifetimeValue (amounts : list float) : float :=
  (averageProjectValue amounts * of_Z (Z.of_nat (List.length amounts))
   * (1 + repeatBusinessFactor))%float.

Definition churnProbability (retentionScore : Z) : float :=
  Math_max 0%float (1 - (of_Z retentionScore / 100) * 0.9)%float.

End Double.


(* ================================================================= *)
(** ** Rows of the entity store ([database/init.js]) *)

Module Lead.
Record t := {
  id : Z;
  source : option string;
  service_interest : option string;
  created_at : option string
}.
End Lead.

Module Project.
Record t := {
  id : Z;
  customer_id : option Z;
  project_type : option string;
  start_date : option string;
  end_date : option string;
  contract_amount : option Q;
  created_at : option string
}.
End Project.

Module Customer.
Record t := { id : Z; name : string }.
End Customer.

Module WeatherEvent.
Record t := {
  id : Z;
  event_type : option string;
  severity : option Q;
  zip : option string;
  event_date : option string
}.
End WeatherEvent.

Module BusinessMetric.
Record t := {
  id : Z;
  metric_name : string;
  metric_value : option Q;
  start_date : option string;
  end_date : option string
}.
End BusinessMetric.

(* ================================================================= *)
(** ** Rows of the analytics store ([analytics/schema.js]) *)

Module LeadAnalytics.
Record t := {
  id : Z;
  lead_id : Z;
  acquisition_source : option string;
  acquisition_cost : option Q;
  lead_score : option Z;
  conversion_probability : option Q;
  days_to_conversion : option Z;
  converted_to_customer : bool;
  conversion_date : option string
}.
End LeadAnalytics.

Module ProjectAnalytics.
Record t := {
  id : Z;
  project_id : Z;
  estimated_cost : option Q;
  actual_cost : option Q;
  cost_variance_percent : option Q;
  estimated_duration : option Z;
  actual_duration : option Z;
  duration_variance_percent : option Q;
  profit_margin : option Q;
  weather_impact_score : option Q;
  customer_satisfaction_score : option Q;
  created_at : option string
}.
End ProjectAnalytics.

Module CustomerAnalytics.
Record t := {
  id : Z;
  customer_id : Z;
  lifetime_value : option Q;
  acquisition_cost : option Q;
  retention_score : option Z;
  churn_probability : option Q;
  referral_count : option Z;
  project_count : option Z;
  average_project_value : option Q;
  last_interaction_date : option string
}.
End CustomerAnalytics.

Module WeatherImpactAnalytics.
Record t := {
  id : Z;
  weather_event_id : Z;
  leads_generated : option Z;
  projects_created : option Z;
  revenue_impact : option Q;
  affected_zip_codes : option string;
  impact_start_date : option string;
  impact_end_date : option string
}.
End WeatherImpactAnalytics.

Module Prediction.
Record t := {
  id : Z;
  model_name : string;
  entity_type : string;
  entity_id : Z;
  prediction_type : string;
  prediction_value : option Q;
  confidence_score : Q;
  features_used : list (string * Z);
  prediction_date : string;
  expiration_date : string
}.
End Prediction.

Module Aggregate.
Record t := {
  id : Z;
  metric_name : string;
  aggregation_level : string;
  period_start : string;
  period_end : string;
  value : option Q;
  dimension : option string;
  dimension_value : option string
}.
End Aggregate.

(* ================================================================= *)
(** ** The store *)

Record DB := {
  leads : list Lead.t;
  projects : list Project.t;
  customers : list Customer.t;
  weather_events : list WeatherEvent.t;
  business_metrics : list BusinessMetric.t;
  lead_analytics : list LeadAnalytics.t;
  project_analytics : list ProjectAnalytics.t;
  customer_analytics : list CustomerAnalytics.t;
  weather_impact_analytics : list WeatherImpactAnalytics.t;
  predictive_model_results : list Prediction.t;
  time_based_aggregates : list Aggregate.t;
  (** ids of the rows of the remaining tables (users, properties, ...),
      [None] for a name that is no table *)
  other_tables : string -> option (list Z)
}.

Definition set_lead_analytics (t : list LeadAnalytics.t) (d : DB) : DB :=
  {| leads := leads d; projects := projects d; customers := customers d;
     weather_events := weather_events d; business_metrics := business_metrics d;
     lead_analytics := t;
     project_analytics := project_analytics d;
     customer_analytics := customer_analytics d;
     weather_impact_analytics := weather_impact_analytics d;
     predictive_model_results := predictive_model_results d;
     time_based_aggregates := time_based_aggregates d;
     other_tables := other_tables d |}.

Definition set_project_analytics (t : list ProjectAnalytics.t) (d : DB) : DB :=
  {| leads := leads d; projects := projects d; customers := customers d;
     weather_events := weather_events d; business_metrics := business_metrics d;
     lead_analytics := lead_analytics d;
     project_analytics := t;
     customer_analytics := customer_analytics d;
     weather_impact_analytics := weather_impact_analytics d;
     predictive_model_results := predictive_model_results d;
     time_based_aggregates := time_based_aggregates d;
     other_tables := other_tables d |}.

Definition set_customer_analytics (t : list CustomerAnalytics.t) (d : DB) : DB :=
  {| leads := leads d; projects := projects d; customers := customers d;
     weather_events := weather_events d; business_metrics := business_metrics d;
     lead_analytics := lead_analytics d;
     project_analytics := project_analytics d;
     customer_analytics := t;
     weather_impact_analytics := weather_impact_analytics d;
     predictive_model_results := predictive_model_results d;
     time_based_aggregates := time_based_aggregates d;
     other_tables := other_tables d |}.

Definition set_weather_impact_analytics
    (t : list WeatherImpactAnalytics.t) (d : DB) : DB :=
  {| leads := leads d; projects := projects d; customers := customers d;
     weather_events := weather_events d; business_metrics := business_metrics d;
     lead_analytics := lead_analytics d;
     project_analytics := project_analytics d;
     customer_analytics := customer_analytics d;
     weather_impact_analytics := t;
     predictive_model_results := predictive_model_results d;
     time_based_aggregates := time_based_aggregates d;
     other_tables := other_tables d |}.

Definition set_predictive_model_results (t : list Prediction.t) (d : DB) : DB :=
  {| leads := leads d; projects := projects d; customers := customers d;
     weather_events := weather_events d; business_metrics := business_metrics d;
     lead_analytics := lead_analytics d;
     project_analytics := project_analytics d;
     customer_analytics := customer_analytics d;
     weather_impact_analytics := weather_impact_analytics d;
     predictive_model_results := t;
     time_based_aggregates := time_based_aggregates d;
     other_tables := other_tables d |}.

Definition set_time_based_aggregates (t : list Aggregate.t) (d : DB) : DB :=
  {| leads := leads d; projects := projects d; customers := customers d;
     weather_events := weather_events d; business_metrics := business_metrics d;
     lead_analytics := lead_analytics d;
     project_analytics := project_analytics d;
     customer_analytics := customer_analytics d;
     weather_impact_analytics := weather_impact_analytics d;
     predictive_model_results := predictive_model_results d;
     time_based_aggregates := t;
     other_tables := other_tables d |}.

(** [this.lastID] of an insert into a table with an AUTOINCREMENT key none
    of whose rows was ever deleted: one more than the largest id. *)
Definition lastID (ids : list Z) : Z := 1 + fold_right Z.max 0 ids.

(* ================================================================= *)
(** ** Promises over the store *)

Inductive error :=
| StoreError (statement : nat)
| NotFound (entityType : string) (entityId : Z)
| InvalidAggregationLevel (aggregationLevel : string)
| UnsupportedMetric (metricName : string)
| RangeError.

(** The three error kinds of the design. *)
Inductive error_kind := ValidationError | NotFoundError | StoreFailure | Uncaught.

Definition kind_of (e : error) : error_kind :=
  match e with
  | StoreError _ => StoreFailure
  | NotFound _ _ => NotFoundError
  | InvalidAggregationLevel _ => ValidationError
  | UnsupportedMetric _ => ValidationError
  | RangeError => Uncaught
  end.

(** A promise resolves, rejects, or never settles because its callback
    threw. *)
Inductive outcome (A : Type) :=
| Resolved (a : A)
| Rejected (e : error)
| Threw (e : error).

Arguments Rejected {A} e.
Arguments Threw {A} e.

Definition is_resolved {A} (o : outcome A) : bool :=
  match o with Resolved _ => true | _ => false end.

Definition is_rejected {A} (o : outcome A) : bool :=
  match o with Rejected _ => true | _ => false end.

Record World := {
  store : DB;
  ops : nat;     (** statements sent to the store so far *)
  draws : nat;   (** calls of [Math.random] so far *)
  ticks : nat    (** readings of the clock so far *)
}.

Definition M (A : Type) : Type := World -> outcome A * World.

Definition ret {A} (a : A) : M A := fun w => (Resolved a, w).
Definition reject {A} (e : error) : M A := fun w => (Rejected e, w).
Definition throw {A} (e : error) : M A := fun w => (Threw e, w).

Definition bind {A B} (m : M A) (k : A -> M B) : M B :=
  fun w =>
    match m w with
    | (Resolved a, w') => k a w'
    | (Rejected e, w') => (Rejected e, w')
    | (Threw e, w') => (Threw e, w')
    end.

Notation "x <- m ;; k" := (bind m (fun x => k))
  (at level 61, m at next level, right associativity).
Notation "m ;;; k" := (bind m (fun _ => k))
  (at level 61, right associativity).

(** [for (const x of xs) await f x]. *)
Fixpoint for_each {A B} (f : A -> M B) (xs : list A) : M unit :=
  match xs with
  | [] => ret tt
  | x :: r => f x ;;; for_each f r
  end.

(** A concrete reading of [new Date(s).getTime()] for the date-only ISO form
    [YYYY-MM-DD] (taken as UTC midnight); used to run the model on examples.
    The processor itself is stated over an arbitrary [Date_parse]. *)
Definition digit (c : ascii) : option Z :=
  let n := Z.of_nat (nat_of_ascii c) in
  if ((48 <=? n) && (n <=? 57))%Z then Some (n - 48) else None.

Fixpoint digits (acc : Z) (s : string) : option Z :=
  match s with
  | EmptyString => Some acc
  | String c r =>
      match digit c with
      | Some d => digits (10 * acc + d) r
      | None => None
      end
  end.

Definition days_from_civil (y m d : Z) : Z :=
  let y' := if (m <=? 2)%Z then y - 1 else y in
  let era := y' / 400 in
  let yoe := y' - era * 400 in
  let mp := (m + 9) mod 12 in
  let doy := (153 * mp + 2) / 5 + d - 1 in
  let doe := yoe * 365 + yoe / 4 - yoe / 100 + doy in
  era * 146097 + doe - 719468.

Definition iso_date_parse (s : string) : option Z :=
  if ((String.length s =? 10)%nat
      && String.eqb (substring 4 1 s) "-"
      && String.eqb (substring 7 1 s) "-")%bool
  then
    match digits 0 (substring 0 4 s),
          digits 0 (substring 5 2 s),
          digits 0 (substring 8 2 s) with
    | Some y, Some m, Some d =>
        if ((1 <=? m) && (m <=? 12) && (1 <=? d) && (d <=? 31))%Z
        then Some (days_from_civil y m d * msPerDay)
        else None
    | _, _, _ => None
    end
  else None.

(** A concrete reading of SQLite's [strftime] on ISO date text for the
    formats [%Y-%m-%d], [%Y-%m] and [%Y]; NULL otherwise.  Used on examples
    only. *)
Definition iso_strftime (format : string) (date : option string)
  : option string :=
  match date with
  | None => None
  | Some s =>
      match iso_date_parse (substring 0 10 s) with
      | None => None
      | Some _ =>
          if String.eqb format "%Y-%m-%d" then Some (substring 0 10 s)
          else if String.eqb format "%Y-%m" then Some (substring 0 7 s)
          else if String.eqb format "%Y" then Some (substring 0 4 s)
          else None
      end
  end.

(** Concrete readings of [toISOString], of SQLite's CURRENT_TIMESTAMP and of
    [setDate(getDate() + n)] for a host on UTC, years 0000 to 9999; used on
    examples only. *)
Definition digit_char (d : Z) : ascii := ascii_of_nat (48 + Z.to_nat d).

Fixpoint decimal (width : nat) (n : Z) : string :=
  match width with
  | O => ""
  | S k => decimal k (n / 10) ++ String (digit_char (n mod 10)) ""
  end.

Definition civil_from_days (z : Z) : Z * Z * Z :=
  let z := z + 719468 in
  let era := z / 146097 in
  let doe := z - era * 146097 in
  let yoe := (doe - doe / 1460 + doe / 36524 - doe / 146096) / 365 in
  let doy := doe - (365 * yoe + yoe / 4 - yoe / 100) in
  let mp := (5 * doy + 2) / 153 in
  let d := doy - (153 * mp + 2) / 5 + 1 in
  let m := if (mp <? 10)%Z then mp + 3 else mp - 9 in
  let y := yoe + era * 400 in
  (if (m <=? 2)%Z then y + 1 else y, m, d).

Definition utc_date (ms : Z) : string :=
  let '(y, m, d) := civil_from_days (ms / msPerDay) in
  decimal 4 y ++ "-" ++ decimal 2 m ++ "-" ++ decimal 2 d.

Definition utc_time (ms : Z) : string :=
  let rest := ms mod msPerDay in
  decimal 2 (rest / 3600000) ++ ":" ++ decimal 2 (rest / 60000 mod 60)
  ++ ":" ++ decimal 2 (rest / 1000 mod 60).

Definition utc_toISOString (ms : Z) : string :=
  utc_date ms ++ "T" ++ utc_time ms ++ "." ++ decimal 3 (ms mod 1000) ++ "Z".

Definition utc_current_timestamp (ms : Z) : string :=
  utc_date ms ++ " " ++ utc_time ms.

Definition utc_addDays (ms n : Z) : Z := ms + n * msPerDay.

(* ================================================================= *)
(** ** Statements sent together *)

(** The handle of the store is not serialized: of the statements sent
    together the store serves whichever it will first.  An order is a list
    of picks: [shuffle picks l] takes the element of [l] at position
    [pick mod length l] first and goes on with the next pick and the rest;
    when the picks are used up the rest keeps the order it has.  Every
    order of [l] is that of some picks. *)
Fixpoint extract {A} (n : nat) (l : list A) : option (A * list A) :=
  match l with
  | [] => None
  | x :: rest =>
      match n with
      | O => Some (x, rest)
      | S n' =>
          match extract n' rest with
          | Some (y, rest') => Some (y, x :: rest')
          | None => None
          end
      end
  end.

Fixpoint shuffle {A} (picks : list nat) (l : list A) : list A :=
  match picks with
  | [] => l
  | pick :: later =>
      match extract (pick mod List.length l) l with
      | Some (x, rest) => x :: shuffle later rest
      | None => l
      end
  end.


Section Processor.

Set Default Proof Using "Type".

(** The environment of a run. *)
Variable faults : nat -> bool.          (** the [n]-th statement fails *)
Variable random : nat -> Q.             (** the [n]-th [Math.random()] *)
Variable now : nat -> Z.                (** the [n]-th clock reading, in ms *)

(** Built-ins of the host. *)
Variable Date_parse : string -> option Z.       (** [None]: Invalid Date *)
Variable toISOString : Z -> string.
Variable addDays : Z -> Z -> Z.                 (** [setDate(getDate() + n)] *)
Variable CURRENT_TIMESTAMP : Z -> string.
Variable strftime : string -> option string -> option string.

(** The orders taken by the statements sent together once [n] statements
    have been sent: that of their service by the store and that of their
    callbacks. *)
Variable arrival : nat -> list nat.
Variable completion : nat -> list nat.

(** One statement sent to the store.  [stmt] is [None] when the store itself
    refuses the statement (no such table, a violated constraint); the
    callback receives either an error or the result. *)
Definition db_call {A} (stmt : DB -> option (A * DB)) : M (error + A) :=
  fun w =>
    let n := ops w in
    let failed :=
      (Resolved (inl (StoreError n)),
       {| store := store w; ops := S n; draws := draws w; ticks := ticks w |}) in
    if faults n then failed
    else match stmt (store w) with
         | None => failed
         | Some (a, d) =>
             (Resolved (inr a),
              {| store := d; ops := S n; draws := draws w; ticks := ticks w |})
         end.

Definition reading {A} (q : DB -> A) (d : DB) : option (A * DB) :=
  Some (q d, d).

Definition writing (u : DB -> DB) (d : DB) : option (unit * DB) :=
  Some (tt, u d).

(** [if (err) { reject(err); return; }] *)
Definition settle {A} (r : error + A) : M A :=
  match r with
  | inl e => reject e
  | inr a => ret a
  end.

Definition Math_random : M Q :=
  fun w =>
    (Resolved (random (draws w)),
     {| store := store w; ops := ops w; draws := S (draws w); ticks := ticks w |}).

Definition new_Date : M Z :=
  fun w =>
    (Resolved (now (ticks w)),
     {| store := store w; ops := ops w; draws := draws w; ticks := S (ticks w) |}).

Definition text (o : option string) : string :=
  match o with Some s => s | None => "" end.

(* ================================================================= *)
(** ** processLeadData *)

Definition sourceBonus (source : option string) : Z :=
  if truthy source then
    let s := toLowerCase (text source) in
    if s =? "referral" then 20
    else if s =? "website" then 15
    else if s =? "google" then 10
    else if s =? "facebook" then 5
    else 0
  else 0.

Definition interestBonus (service_interest : option string) : Z :=
  if truthy service_interest then
    let s := toLowerCase (text service_interest) in
    if includes s "roof replacement" then 15
    else if includes s "repair" then 10
    else if includes s "inspection" then 5
    else 0
  else 0.

Definition leadScore (lead : Lead.t) : Z :=
  Z.min 100
    (50 + sourceBonus (Lead.source lead)
        + interestBonus (Lead.service_interest lead)).

Definition conversionProbability (lead : Lead.t) : Q :=
  (inject_Z (leadScore lead) / 100 * 0.8)%Q.

Definition acquisitionSource (lead : Lead.t) : string :=
  if truthy (Lead.source lead) then text (Lead.source lead) else "Unknown".

Definition acquisitionCost (lead : Lead.t) : Q :=
  let s := toLowerCase (acquisitionSource lead) in
  if s =? "google" then 75%Q
  else if s =? "facebook" then 50%Q
  else if s =? "website" then 25%Q
  else if s =? "referral" then 100%Q
  else 40%Q.

(** The object [leadAnalytics]; its [id] is 0 until an insert assigns one. *)
Definition leadAnalytics (lead : Lead.t) : LeadAnalytics.t :=
  {| LeadAnalytics.id := 0;
     LeadAnalytics.lead_id := Lead.id lead;
     LeadAnalytics.acquisition_source := Some (acquisitionSource lead);
     LeadAnalytics.acquisition_cost := Some (acquisitionCost lead);
     LeadAnalytics.lead_score := Some (leadScore lead);
     LeadAnalytics.conversion_probability := Some (conversionProbability lead);
     LeadAnalytics.days_to_conversion := None;
     LeadAnalytics.converted_to_customer := false;
     LeadAnalytics.conversion_date := None |}.

(** [SELECT id FROM lead_analytics WHERE lead_id = ?] *)
Definition select_lead_analytics (lead_id : Z) (d : DB)
  : option LeadAnalytics.t :=
  find (fun r => (LeadAnalytics.lead_id r =? lead_id)%Z) (lead_analytics d).

(** [UPDATE lead_analytics SET acquisition_source, acquisition_cost,
    lead_score, conversion_probability WHERE lead_id = ?] *)
Definition update_lead_row (a r : LeadAnalytics.t) : LeadAnalytics.t :=
  {| LeadAnalytics.id := LeadAnalytics.id r;
     LeadAnalytics.lead_id := LeadAnalytics.lead_id r;
     LeadAnalytics.acquisition_source := LeadAnalytics.acquisition_source a;
     LeadAnalytics.acquisition_cost := LeadAnalytics.acquisition_cost a;
     LeadAnalytics.lead_score := LeadAnalytics.lead_score a;
     LeadAnalytics.conversion_probability :=
       LeadAnalytics.conversion_probability a;
     LeadAnalytics.days_to_conversion := LeadAnalytics.days_to_conversion r;
     LeadAnalytics.converted_to_customer :=
       LeadAnalytics.converted_to_customer r;
     LeadAnalytics.conversion_date := LeadAnalytics.conversion_date r |}.

Definition update_lead_analytics (a : LeadAnalytics.t) (lead_id : Z) (d : DB)
  : DB :=
  set_lead_analytics
    (map (fun r => if (LeadAnalytics.lead_id r =? lead_id)%Z
                   then update_lead_row a r else r)
         (lead_analytics d)) d.

Definition lead_with_id (i : Z) (a : LeadAnalytics.t) : LeadAnalytics.t :=
  {| LeadAnalytics.id := i;
     LeadAnalytics.lead_id := LeadAnalytics.lead_id a;
     LeadAnalytics.acquisition_source := LeadAnalytics.acquisition_source a;
     LeadAnalytics.acquisition_cost := LeadAnalytics.acquisition_cost a;
     LeadAnalytics.lead_score := LeadAnalytics.lead_score a;
     LeadAnalytics.conversion_probability :=
       LeadAnalytics.conversion_probability a;
     LeadAnalytics.days_to_conversion := LeadAnalytics.days_to_conversion a;
     LeadAnalytics.converted_to_customer :=
       LeadAnalytics.converted_to_customer a;
     LeadAnalytics.conversion_date := LeadAnalytics.conversion_date a |}.

(** [INSERT INTO lead_analytics (...) VALUES (...)] *)
Definition insert_lead_analytics (a : LeadAnalytics.t) (d : DB)
  : option (Z * DB) :=
  let i := lastID (map LeadAnalytics.id (lead_analytics d)) in
  Some (i, set_lead_analytics (lead_analytics d ++ [lead_with_id i a]) d).

Definition processLeadData (lead : Lead.t) : M LeadAnalytics.t :=
  r <- db_call (reading (select_lead_analytics (Lead.id lead))) ;;
  row <- settle r ;;
  let a := leadAnalytics lead in
  match row with
  | Some _ =>
      r <- db_call (writing (update_lead_analytics a (Lead.id lead))) ;;
      _ <- settle r ;;
      ret a
  | None =>
      r <- db_call (insert_lead_analytics a) ;;
      i <- settle r ;;
      ret (lead_with_id i a)
  end.

(* ================================================================= *)
(** ** processProjectData *)

Definition estimatedCost (project : Project.t) : Q :=
  (num (Project.contract_amount project) * 0.6)%Q.

(** [r] is the value of [Math.random()].  The costs, the variance and the
    margin are the exact values of the code's expressions; [Double] has
    them as the doubles the code computes. *)
Definition actualCost (r : Q) (project : Project.t) : Q :=
  (estimatedCost project * (r * 0.3 + 0.85))%Q.

Definition costVariancePercent (r : Q) (project : Project.t) : option Q :=
  option_map (fun v => (v * 100)%Q)
    (js_div (actualCost r project - estimatedCost project)
            (estimatedCost project)).

Definition estimatedDuration (project : Project.t) : Z :=
  if truthy (Project.project_type project) then
    let s := toLowerCase (text (Project.project_type project)) in
    if includes s "replacement" then 21
    else if includes s "repair" then 7
    else 14
  else 14.

(** [None] is [NaN]: one of the two dates does not parse. *)
Definition actualDuration (project : Project.t) : option Z :=
  if truthy (Project.start_date project) && truthy (Project.end_date project)
  then
    match Date_parse (text (Project.start_date project)),
          Date_parse (text (Project.end_date project)) with
    | Some startDate, Some endDate =>
        let diffTime := Z.abs (endDate - startDate) in
        Some (ceil_days diffTime)
    | _, _ => None
    end
  else Some (estimatedDuration project).

Definition durationVariancePercent (project : Project.t) : option Q :=
  option_map
    (fun a => ((inject_Z a - inject_Z (estimatedDuration project))
               / inject_Z (estimatedDuration project) * 100)%Q)
    (actualDuration project).

Definition profitMargin (r : Q) (project : Project.t) : option Q :=
  js_div (num (Project.contract_amount project) - actualCost r project)
         (num (Project.contract_amount project)).

(** The object [projectAnalytics], from the two random draws. *)
Definition projectAnalytics (r1 r2 : Q) (project : Project.t)
  : ProjectAnalytics.t :=
  {| ProjectAnalytics.id := 0;
     ProjectAnalytics.project_id := Project.id project;
     ProjectAnalytics.estimated_cost := Some (estimatedCost project);
     ProjectAnalytics.actual_cost := Some (actualCost r1 project);
     ProjectAnalytics.cost_variance_percent := costVariancePercent r1 project;
     ProjectAnalytics.estimated_duration := Some (estimatedDuration project);
     ProjectAnalytics.actual_duration := actualDuration project;
     ProjectAnalytics.duration_variance_percent :=
       durationVariancePercent project;
     ProjectAnalytics.profit_margin := profitMargin r1 project;
     ProjectAnalytics.weather_impact_score := Some 0%Q;
     ProjectAnalytics.customer_satisfaction_score := Some (r2 * 2 + 3)%Q;
     ProjectAnalytics.created_at := None |}.

Definition select_project_analytics (project_id : Z) (d : DB)
  : option ProjectAnalytics.t :=
  find (fun r => (ProjectAnalytics.project_id r =? project_id)%Z)
       (project_analytics d).

Definition update_project_row (a r : ProjectAnalytics.t) : ProjectAnalytics.t :=
  {| ProjectAnalytics.id := ProjectAnalytics.id r;
     ProjectAnalytics.project_id := ProjectAnalytics.project_id r;
     ProjectAnalytics.estimated_cost := ProjectAnalytics.estimated_cost a;
     ProjectAnalytics.actual_cost := ProjectAnalytics.actual_cost a;
     ProjectAnalytics.cost_variance_percent :=
       ProjectAnalytics.cost_variance_percent a;
     ProjectAnalytics.estimated_duration :=
       ProjectAnalytics.estimated_duration a;
     ProjectAnalytics.actual_duration := ProjectAnalytics.actual_duration a;
     ProjectAnalytics.duration_variance_percent :=
       ProjectAnalytics.duration_variance_percent a;
     ProjectAnalytics.profit_margin := ProjectAnalytics.profit_margin a;
     ProjectAnalytics.weather_impact_score :=
       ProjectAnalytics.weather_impact_score r;
     ProjectAnalytics.customer_satisfaction_score :=
       ProjectAnalytics.customer_satisfaction_score a;
     ProjectAnalytics.created_at := ProjectAnalytics.created_at r |}.

Definition update_project_analytics
    (a : ProjectAnalytics.t) (project_id : Z) (d : DB) : DB :=
  set_project_analytics
    (map (fun r => if (ProjectAnalytics.project_id r =? project_id)%Z
                   then update_project_row a r else r)
         (project_analytics d)) d.

(** The inserted row: [created_at] takes its default, the current time. *)
Definition project_with_id (i : Z) (created : option string)
    (a : ProjectAnalytics.t) : ProjectAnalytics.t :=
  {| ProjectAnalytics.id := i;
     ProjectAnalytics.project_id := ProjectAnalytics.project_id a;
     ProjectAnalytics.estimated_cost := ProjectAnalytics.estimated_cost a;
     ProjectAnalytics.actual_cost := ProjectAnalytics.actual_cost a;
     ProjectAnalytics.cost_variance_percent :=
       ProjectAnalytics.cost_variance_percent a;
     ProjectAnalytics.estimated_duration :=
       ProjectAnalytics.estimated_duration a;
     ProjectAnalytics.actual_duration := ProjectAnalytics.actual_duration a;
     ProjectAnalytics.duration_variance_percent :=
       ProjectAnalytics.duration_variance_percent a;
     ProjectAnalytics.profit_margin := ProjectAnalytics.profit_margin a;
     ProjectAnalytics.weather_impact_score :=
       ProjectAnalytics.weather_impact_score a;
     ProjectAnalytics.customer_satisfaction_score :=
       ProjectAnalytics.customer_satisfaction_score a;
     ProjectAnalytics.created_at := created |}.

Definition insert_project_analytics (t : Z) (a : ProjectAnalytics.t) (d : DB)
  : option (Z * DB) :=
  let i := lastID (map ProjectAnalytics.id (project_analytics d)) in
  Some (i, set_project_analytics
             (project_analytics d
              ++ [project_with_id i (Some (CURRENT_TIMESTAMP t)) a]) d).

Definition processProjectData (project : Project.t) : M ProjectAnalytics.t :=
  r <- db_call (reading (select_project_analytics (Project.id project))) ;;
  row <- settle r ;;
  r1 <- Math_random ;;
  r2 <- Math_random ;;
  let a := projectAnalytics r1 r2 project in
  match row with
  | Some _ =>
      r <- db_call (writing (update_project_analytics a (Project.id project))) ;;
      _ <- settle r ;;
      ret a
  | None =>
      t <- new_Date ;;
      r <- db_call (insert_project_analytics t a) ;;
      i <- settle r ;;
      ret (project_with_id i None a)
  end.

(* ================================================================= *)
(** ** processCustomerData *)

Definition Math_max (a b : Q) : Q := if Qle_bool a b then b else a.

(** [SELECT * FROM projects WHERE customer_id = ?] *)
Definition select_customer_projects (customer_id : Z) (d : DB)
  : list Project.t :=
  filter (fun p => match Project.customer_id p with
                   | Some c => (c =? customer_id)%Z
                   | None => false
                   end) (projects d).

Definition totalProjectValue (ps : list Project.t) : Q :=
  fold_left (fun total p => (total + num (Project.contract_amount p))%Q) ps 0%Q.

Definition averageProjectValue (ps : list Project.t) : Q :=
  if (0 <? Z.of_nat (List.length ps))%Z
  then (totalProjectValue ps / inject_Z (Z.of_nat (List.length ps)))%Q
  else 0%Q.

Definition repeatBusinessFactor : Q := 0.3%Q.

(** The exact value; in doubles [average * count] need not give back the
    total ([Double.lifetimeValue]). *)
Definition lifetimeValue (ps : list Project.t) : Q :=
  (averageProjectValue ps * inject_Z (Z.of_nat (List.length ps))
   * (1 + repeatBusinessFactor))%Q.

Definition projectDate (p : Project.t) : option string :=
  or_else (Project.end_date p) (Project.start_date p).

(** The callback of [projects.reduce(..., {})]; [None] is the initial [{}]. *)
Definition later (latest : option Project.t) (project : Project.t)
  : option Project.t :=
  let latestDate :=
    match latest with Some l => projectDate l | None => None end in
  if negb (truthy latestDate) then Some project
  else if negb (truthy (projectDate project)) then latest
  else match Date_parse (text (projectDate project)),
             Date_parse (text latestDate) with
       | Some a, Some b => if (b <? a)%Z then Some project else latest
       | _, _ => latest
       end.

Definition lastProject (ps : list Project.t) : option Project.t :=
  fold_left later ps None.

Definition lastProjectDate (ps : list Project.t) : option string :=
  match lastProject ps with
  | Some l => projectDate l
  | None => None
  end.

(** Adjustment for the recency of the last project; [clock] is the reading of
    [new Date()], [None] days is [NaN]. *)
Definition daysSinceLastProject (clock : Z) (date : string) : option Z :=
  option_map (fun t => floor_days (clock - t)) (Date_parse date).

Definition recencyBonus (days : option Z) : Z :=
  match days with
  | Some d =>
      if (d <? 90)%Z then 20
      else if (d <? 180)%Z then 10
      else if (365 <? d)%Z then -10
      else 0
  | None => 0
  end.

Definition countBonus (projectCount : Z) : Z :=
  if (3 <? projectCount)%Z then 30
  else if (1 <? projectCount)%Z then 15
  else 0.

(** [retentionScore] after the cap; [days] is [None] when no recency
    adjustment applies. *)
Definition retentionScore (ps : list Project.t) (days : option Z) : Z :=
  Z.min 100 (Z.max 0 (50 + countBonus (Z.of_nat (List.length ps)) + recencyBonus days)).

(** The exact value; [Double.churnProbability] is the double the code
    stores. *)
Definition churnProbability (retention : Z) : Q :=
  Math_max 0 (1 - (inject_Z retention / 100) * 0.9)%Q.

Definition customerAnalytics (customer : Customer.t) (ps : list Project.t)
    (r1 r2 : Q) (days : option Z) (stamp : Z) : CustomerAnalytics.t :=
  {| CustomerAnalytics.id := 0;
     CustomerAnalytics.customer_id := Customer.id customer;
     CustomerAnalytics.lifetime_value := Some (lifetimeValue ps);
     CustomerAnalytics.acquisition_cost :=
       Some (inject_Z (Qfloor (r1 * 300) + 100));
     CustomerAnalytics.retention_score := Some (retentionScore ps days);
     CustomerAnalytics.churn_probability :=
       Some (churnProbability (retentionScore ps days));
     CustomerAnalytics.referral_count := Some (Qfloor (r2 * 3));
     CustomerAnalytics.project_count := Some (Z.of_nat (List.length ps));
     CustomerAnalytics.average_project_value := Some (averageProjectValue ps);
     CustomerAnalytics.last_interaction_date := Some (toISOString stamp) |}.

Definition select_customer_analytics (customer_id : Z) (d : DB)
  : option CustomerAnalytics.t :=
  find (fun r => (CustomerAnalytics.customer_id r =? customer_id)%Z)
       (customer_analytics d).

Definition customer_with_id (i : Z) (a : CustomerAnalytics.t)
  : CustomerAnalytics.t :=
  {| CustomerAnalytics.id := i;
     CustomerAnalytics.customer_id := CustomerAnalytics.customer_id a;
     CustomerAnalytics.lifetime_value := CustomerAnalytics.lifetime_value a;
     CustomerAnalytics.acquisition_cost := CustomerAnalytics.acquisition_cost a;
     CustomerAnalytics.retention_score := CustomerAnalytics.retention_score a;
     CustomerAnalytics.churn_probability :=
       CustomerAnalytics.churn_probability a;
     CustomerAnalytics.referral_count := CustomerAnalytics.referral_count a;
     CustomerAnalytics.project_count := CustomerAnalytics.project_count a;
     CustomerAnalytics.average_project_value :=
       CustomerAnalytics.average_project_value a;
     CustomerAnalytics.last_interaction_date :=
       CustomerAnalytics.last_interaction_date a |}.

(** The UPDATE sets every column but the keys. *)
Definition update_customer_row (a r : CustomerAnalytics.t)
  : CustomerAnalytics.t :=
  {| CustomerAnalytics.id := CustomerAnalytics.id r;
     CustomerAnalytics.customer_id := CustomerAnalytics.customer_id r;
     CustomerAnalytics.lifetime_value := CustomerAnalytics.lifetime_value a;
     CustomerAnalytics.acquisition_cost := CustomerAnalytics.acquisition_cost a;
     CustomerAnalytics.retention_score := CustomerAnalytics.retention_score a;
     CustomerAnalytics.churn_probability :=
       CustomerAnalytics.churn_probability a;
     CustomerAnalytics.referral_count := CustomerAnalytics.referral_count a;
     CustomerAnalytics.project_count := CustomerAnalytics.project_count a;
     CustomerAnalytics.average_project_value :=
       CustomerAnalytics.average_project_value a;
     CustomerAnalytics.last_interaction_date :=
       CustomerAnalytics.last_interaction_date a |}.

Definition update_customer_analytics
    (a : CustomerAnalytics.t) (customer_id : Z) (d : DB) : DB :=
  set_customer_analytics
    (map (fun r => if (CustomerAnalytics.customer_id r =? customer_id)%Z
                   then update_customer_row a r else r)
         (customer_analytics d)) d.

Definition insert_customer_analytics (a : CustomerAnalytics.t) (d : DB)
  : option (Z * DB) :=
  let i := lastID (map CustomerAnalytics.id (customer_analytics d)) in
  Some (i, set_customer_analytics
             (customer_analytics d ++ [customer_with_id i a]) d).

Definition processCustomerData (customer : Customer.t) : M CustomerAnalytics.t :=
  r <- db_call (reading (select_customer_projects (Customer.id customer))) ;;
  ps <- settle r ;;
  r1 <- Math_random ;;
  days <- (if truthy (lastProjectDate ps)
           then clock <- new_Date ;;
                ret (daysSinceLastProject clock (text (lastProjectDate ps)))
           else ret None) ;;
  r2 <- Math_random ;;
  stamp <- new_Date ;;
  let a := customerAnalytics customer ps r1 r2 days stamp in
  r <- db_call (reading (select_customer_analytics (Customer.id customer))) ;;
  row <- settle r ;;
  match row with
  | Some _ =>
      r <- db_call (writing (update_customer_analytics a (Customer.id customer))) ;;
      _ <- settle r ;;
      ret a
  | None =>
      r <- db_call (insert_customer_analytics a) ;;
      i <- settle r ;;
      ret (customer_with_id i a)
  end.

(* ================================================================= *)
(** ** processWeatherEventData *)

Definition typeMultiplier (event_type : option string) : Q :=
  match option_map toLowerCase event_type with
  | Some s =>
      if s =? "hail storm" then 5%Q
      else if s =? "tornado" then 8%Q
      else if s =? "hurricane" then 10%Q
      else if s =? "wind storm" then 4%Q
      else if s =? "heavy rain" then 2%Q
      else 3%Q
  | None => 3%Q
  end.

Definition leadsGenerated (e : WeatherEvent.t) : Z :=
  Qfloor (num (WeatherEvent.severity e)
          * typeMultiplier (WeatherEvent.event_type e)).

Definition projectsCreated (e : WeatherEvent.t) : Z :=
  Qfloor (inject_Z (leadsGenerated e) * 0.4).

Definition avgProjectValue : Q := 8500%Q.

Definition revenueImpact (e : WeatherEvent.t) : Q :=
  (inject_Z (projectsCreated e) * avgProjectValue)%Q.

(** [weatherEvent.zip ? [weatherEvent.zip] : []], joined with commas. *)
Definition affectedZipCodes (e : WeatherEvent.t) : string :=
  if truthy (WeatherEvent.zip e) then text (WeatherEvent.zip e) else "".

(** [new Date(weatherEvent.event_date)]: [null] is the epoch. *)
Definition eventDate (e : WeatherEvent.t) : option Z :=
  match WeatherEvent.event_date e with
  | None => Some 0
  | Some s => Date_parse s
  end.

Definition maxTime : Z := 8640000000000000.

(** [date.toISOString()], which throws on an invalid date. *)
Definition to_iso (t : option Z) : M string :=
  match t with
  | Some ms => if (Z.abs ms <=? maxTime)%Z then ret (toISOString ms)
               else throw RangeError
  | None => throw RangeError
  end.

Definition weatherImpactAnalytics (e : WeatherEvent.t)
    (impactStartDate impactEndDate : string) : WeatherImpactAnalytics.t :=
  {| WeatherImpactAnalytics.id := 0;
     WeatherImpactAnalytics.weather_event_id := WeatherEvent.id e;
     WeatherImpactAnalytics.leads_generated := Some (leadsGenerated e);
     WeatherImpactAnalytics.projects_created := Some (projectsCreated e);
     WeatherImpactAnalytics.revenue_impact := Some (revenueImpact e);
     WeatherImpactAnalytics.affected_zip_codes := Some (affectedZipCodes e);
     WeatherImpactAnalytics.impact_start_date := Some impactStartDate;
     WeatherImpactAnalytics.impact_end_date := Some impactEndDate |}.

Definition select_weather_impact_analytics (weather_event_id : Z) (d : DB)
  : option WeatherImpactAnalytics.t :=
  find (fun r => (WeatherImpactAnalytics.weather_event_id r =? weather_event_id)%Z)
       (weather_impact_analytics d).

Definition weather_with_id (i : Z) (a : WeatherImpactAnalytics.t)
  : WeatherImpactAnalytics.t :=
  {| WeatherImpactAnalytics.id := i;
     WeatherImpactAnalytics.weather_event_id :=
       WeatherImpactAnalytics.weather_event_id a;
     WeatherImpactAnalytics.leads_generated :=
       WeatherImpactAnalytics.leads_generated a;
     WeatherImpactAnalytics.projects_created :=
       WeatherImpactAnalytics.projects_created a;
     WeatherImpactAnalytics.revenue_impact :=
       WeatherImpactAnalytics.revenue_impact a;
     WeatherImpactAnalytics.affected_zip_codes :=
       WeatherImpactAnalytics.affected_zip_codes a;
     WeatherImpactAnalytics.impact_start_date :=
       WeatherImpactAnalytics.impact_start_date a;
     WeatherImpactAnalytics.impact_end_date :=
       WeatherImpactAnalytics.impact_end_date a |}.

Definition update_weather_row (a r : WeatherImpactAnalytics.t)
  : WeatherImpactAnalytics.t :=
  {| WeatherImpactAnalytics.id := WeatherImpactAnalytics.id r;
     WeatherImpactAnalytics.weather_event_id :=
       WeatherImpactAnalytics.weather_event_id r;
     WeatherImpactAnalytics.leads_generated :=
       WeatherImpactAnalytics.leads_generated a;
     WeatherImpactAnalytics.projects_created :=
       WeatherImpactAnalytics.projects_created a;
     WeatherImpactAnalytics.revenue_impact :=
       WeatherImpactAnalytics.revenue_impact a;
     WeatherImpactAnalytics.affected_zip_codes :=
       WeatherImpactAnalytics.affected_zip_codes a;
     WeatherImpactAnalytics.impact_start_date :=
       WeatherImpactAnalytics.impact_start_date a;
     WeatherImpactAnalytics.impact_end_date :=
       WeatherImpactAnalytics.impact_end_date a |}.

Definition update_weather_impact_analytics
    (a : WeatherImpactAnalytics.t) (weather_event_id : Z) (d : DB) : DB :=
  set_weather_impact_analytics
    (map (fun r =>
            if (WeatherImpactAnalytics.weather_event_id r =? weather_event_id)%Z
            then update_weather_row a r else r)
         (weather_impact_analytics d)) d.

Definition insert_weather_impact_analytics
    (a : WeatherImpactAnalytics.t) (d : DB) : option (Z * DB) :=
  let i := lastID (map WeatherImpactAnalytics.id (weather_impact_analytics d)) in
  Some (i, set_weather_impact_analytics
             (weather_impact_analytics d ++ [weather_with_id i a]) d).

Definition processWeatherEventData (weatherEvent : WeatherEvent.t)
  : M WeatherImpactAnalytics.t :=
  r <- db_call (reading (select_weather_impact_analytics
                           (WeatherEvent.id weatherEvent))) ;;
  row <- settle r ;;
  impactStartDate <- to_iso (eventDate weatherEvent) ;;
  impactEndDate <-
    to_iso (option_map (fun t => t + 30 * 24 * 60 * 60 * 1000)
                       (eventDate weatherEvent)) ;;
  let a := weatherImpactAnalytics weatherEvent impactStartDate impactEndDate in
  match row with
  | Some _ =>
      r <- db_call (writing (update_weather_impact_analytics
                               a (WeatherEvent.id weatherEvent))) ;;
      _ <- settle r ;;
      ret a
  | None =>
      r <- db_call (insert_weather_impact_analytics a) ;;
      i <- settle r ;;
      ret (weather_with_id i a)
  end.

(* ================================================================= *)
(** ** savePrediction and generatePrediction *)

Definition same_prediction_key (modelName entityType : string) (entityId : Z)
    (predictionType : string) (r : Prediction.t) : bool :=
  (Prediction.model_name r =? modelName)
  && (Prediction.entity_type r =? entityType)
  && (Prediction.entity_id r =? entityId)%Z
  && (Prediction.prediction_type r =? predictionType).

(** [SELECT id FROM predictive_model_results WHERE model_name = ? AND
    entity_type = ? AND entity_id = ? AND prediction_type = ?] *)
Definition select_prediction (modelName entityType : string) (entityId : Z)
    (predictionType : string) (d : DB) : option Prediction.t :=
  find (same_prediction_key modelName entityType entityId predictionType)
       (predictive_model_results d).

Definition prediction_with_id (i : Z) (p : Prediction.t) : Prediction.t :=
  {| Prediction.id := i;
     Prediction.model_name := Prediction.model_name p;
     Prediction.entity_type := Prediction.entity_type p;
     Prediction.entity_id := Prediction.entity_id p;
     Prediction.prediction_type := Prediction.prediction_type p;
     Prediction.prediction_value := Prediction.prediction_value p;
     Prediction.confidence_score := Prediction.confidence_score p;
     Prediction.features_used := Prediction.features_used p;
     Prediction.prediction_date := Prediction.prediction_date p;
     Prediction.expiration_date := Prediction.expiration_date p |}.

(** [UPDATE predictive_model_results SET prediction_value, confidence_score,
    features_used, prediction_date, expiration_date WHERE id = ?] *)
Definition update_prediction_row (p r : Prediction.t) : Prediction.t :=
  {| Prediction.id := Prediction.id r;
     Prediction.model_name := Prediction.model_name r;
     Prediction.entity_type := Prediction.entity_type r;
     Prediction.entity_id := Prediction.entity_id r;
     Prediction.prediction_type := Prediction.prediction_type r;
     Prediction.prediction_value := Prediction.prediction_value p;
     Prediction.confidence_score := Prediction.confidence_score p;
     Prediction.features_used := Prediction.features_used p;
     Prediction.prediction_date := Prediction.prediction_date p;
     Prediction.expiration_date := Prediction.expiration_date p |}.

Definition update_prediction (p : Prediction.t) (id : Z) (d : DB) : DB :=
  set_predictive_model_results
    (map (fun r => if (Prediction.id r =? id)%Z
                   then update_prediction_row p r else r)
         (predictive_model_results d)) d.

Definition insert_prediction (p : Prediction.t) (d : DB) : option (Z * DB) :=
  let i := lastID (map Prediction.id (predictive_model_results d)) in
  Some (i, set_predictive_model_results
             (predictive_model_results d ++ [prediction_with_id i p]) d).

Definition savePrediction (modelName entityType : string) (entityId : Z)
    (predictionType : string) (predictionValue : option Q)
    (confidenceScore : Q) (featuresUsed : list (string * Z))
    (expirationDays : Z) : M Prediction.t :=
  today <- new_Date ;;
  let expirationDate := addDays today expirationDays in
  r <- db_call (reading (select_prediction modelName entityType entityId
                                           predictionType)) ;;
  row <- settle r ;;
  stamp <- new_Date ;;
  let prediction :=
    {| Prediction.id := 0;
       Prediction.model_name := modelName;
       Prediction.entity_type := entityType;
       Prediction.entity_id := entityId;
       Prediction.prediction_type := predictionType;
       Prediction.prediction_value := predictionValue;
       Prediction.confidence_score := confidenceScore;
       Prediction.features_used := featuresUsed;
       Prediction.prediction_date := toISOString stamp;
       Prediction.expiration_date := toISOString expirationDate |} in
  match row with
  | Some found =>
      r <- db_call (writing (update_prediction prediction (Prediction.id found))) ;;
      _ <- settle r ;;
      ret (prediction_with_id (Prediction.id found) prediction)
  | None =>
      r <- db_call (insert_prediction prediction) ;;
      i <- settle r ;;
      ret (prediction_with_id i prediction)
  end.

(** The ids of the rows of a table, by name; SQLite matches table names
    without regard to case. *)
Definition table_ids (table : string) (d : DB) : option (list Z) :=
  let t := nocase table in
  if t =? "leads" then Some (map Lead.id (leads d))
  else if t =? "projects" then Some (map Project.id (projects d))
  else if t =? "customers" then Some (map Customer.id (customers d))
  else if t =? "weather_events"
       then Some (map WeatherEvent.id (weather_events d))
  else if t =? "business_metrics"
       then Some (map BusinessMetric.id (business_metrics d))
  else if t =? "lead_analytics"
       then Some (map LeadAnalytics.id (lead_analytics d))
  else if t =? "project_analytics"
       then Some (map ProjectAnalytics.id (project_analytics d))
  else if t =? "customer_analytics"
       then Some (map CustomerAnalytics.id (customer_analytics d))
  else if t =? "weather_impact_analytics"
       then Some (map WeatherImpactAnalytics.id (weather_impact_analytics d))
  else if t =? "predictive_model_results"
       then Some (map Prediction.id (predictive_model_results d))
  else if t =? "time_based_aggregates"
       then Some (map Aggregate.id (time_based_aggregates d))
  else other_tables d t.

(** [SELECT * FROM ${entityTable} WHERE id = ?]: whether a row was found. *)
Definition select_entity (entityTable : string) (entityId : Z) (d : DB)
  : option (bool * DB) :=
  match table_ids entityTable d with
  | Some ids => Some (existsb (Z.eqb entityId) ids, d)
  | None => None
  end.

(** What a strategy hands to [savePrediction]. *)
Record Estimate := {
  predictionValue : option Q;
  confidenceScore : Q;
  featuresUsed : list (string * Z)
}.

Definition basic_estimate (scale offset confidence : Q) (feature : string)
  : M Estimate :=
  x <- Math_random ;;
  ret {| predictionValue := Some (x * scale + offset)%Q;
         confidenceScore := confidence;
         featuresUsed := [(feature, 1)] |}.

(** [if (err || !leadAnalytics) ... else ...] *)
Definition lead_conversion_estimate (r : error + option LeadAnalytics.t)
  : M Estimate :=
  match r with
  | inr (Some la) =>
      ret {| predictionValue := LeadAnalytics.conversion_probability la;
             confidenceScore := 0.8%Q;
             featuresUsed := [("lead_score", 1); ("acquisition_source", 1);
                              ("service_interest", 1)] |}
  | _ => basic_estimate 0.7 0.1 0.6 "basic_lead_info"
  end.

Definition customer_churn_estimate (r : error + option CustomerAnalytics.t)
  : M Estimate :=
  match r with
  | inr (Some ca) =>
      ret {| predictionValue := CustomerAnalytics.churn_probability ca;
             confidenceScore := 0.85%Q;
             featuresUsed := [("retention_score", 1); ("project_count", 1);
                              ("lifetime_value", 1);
                              ("last_interaction_date", 1)] |}
  | _ => basic_estimate 0.4 0.1 0.6 "basic_customer_info"
  end.

Definition project_cost_estimate (r : error + option ProjectAnalytics.t)
  : M Estimate :=
  match r with
  | inr (Some pa) =>
      ret {| predictionValue :=
               Some (match ProjectAnalytics.cost_variance_percent pa with
                     | Some v => if Qltb 0 v then 0.7%Q else 0.3%Q
                     | None => 0.3%Q
                     end);
             confidenceScore := 0.8%Q;
             featuresUsed := [("estimated_cost", 1); ("project_type", 1);
                              ("historical_variance", 1)] |}
  | _ => basic_estimate 0.5 0.2 0.7 "basic_project_info"
  end.

Definition generic_estimate : M Estimate :=
  x <- Math_random ;;
  ret {| predictionValue := Some x;
         confidenceScore := 0.5%Q;
         featuresUsed := [("generic_features", 1)] |}.

Definition expirationDays : Z := 30.

(** The strategy selected by [switch (`${modelName}_${predictionType}`)]. *)
Definition estimate (modelName predictionType : string) (entityId : Z)
  : M Estimate :=
  let key := modelName ++ "_" ++ predictionType in
  if key =? "lead_conversion_model_conversion_probability" then
    r <- db_call (reading (select_lead_analytics entityId)) ;;
    lead_conversion_estimate r
  else if key =? "customer_churn_model_churn_probability" then
    r <- db_call (reading (select_customer_analytics entityId)) ;;
    customer_churn_estimate r
  else if key =? "project_cost_model_cost_overrun_probability" then
    r <- db_call (reading (select_project_analytics entityId)) ;;
    project_cost_estimate r
  else generic_estimate.

Definition generatePrediction (modelName entityType : string) (entityId : Z)
    (predictionType : string) : M Prediction.t :=
  let entityTable := entityType ++ "s" in
  r <- db_call (select_entity entityTable entityId) ;;
  entity <- settle r ;;
  if negb entity then reject (NotFound entityType entityId)
  else
    e <- estimate modelName predictionType entityId ;;
    savePrediction modelName entityType entityId predictionType
      (predictionValue e) (confidenceScore e) (featuresUsed e) expirationDays.

(* ================================================================= *)
(** ** generateTimeBasedAggregates *)

(** The [dateFormat] of an aggregation level ([periodDays] is never read). *)
Definition dateFormat (aggregationLevel : string) : option string :=
  if aggregationLevel =? "daily" then Some "%Y-%m-%d"
  else if aggregationLevel =? "weekly" then Some "%Y-%W"
  else if aggregationLevel =? "monthly" then Some "%Y-%m"
  else if aggregationLevel =? "quarterly" then Some "%Y-Q%Q"
  else if aggregationLevel =? "yearly" then Some "%Y"
  else None.

(** A source row as the aggregate queries see it: its period, the two
    columns under MIN and MAX, the measured value, and whether it counts as
    converted. *)
Record Sample := {
  period : option string;
  low : option string;
  high : option string;
  measure : option Q;
  converted : bool
}.

(** A row of the result of an aggregate query. *)
Record Bucket := {
  bucket_period : option string;
  bucket_start : option string;
  bucket_end : option string;
  bucket_value : option Q
}.

(** GROUP BY period ORDER BY period. *)
Fixpoint add_to_group (x : Sample) (gs : list (option string * list Sample))
  : list (option string * list Sample) :=
  match gs with
  | [] => [(period x, [x])]
  | (k, xs) :: r =>
      match compare_text (period x) k with
      | Eq => (k, (xs ++ [x])%list) :: r
      | Lt => (period x, [x]) :: (k, xs) :: r
      | Gt => (k, xs) :: add_to_group x r
      end
  end.

Definition group_by_period (samples : list Sample)
  : list (option string * list Sample) :=
  fold_left (fun gs x => add_to_group x gs) samples [].

(** MIN and MAX skip NULL and are NULL on no value. *)
Definition sql_min (a b : option string) : option string :=
  match a, b with
  | None, _ => b
  | _, None => a
  | Some x, Some y => if String.leb x y then a else b
  end.

Definition sql_max (a b : option string) : option string :=
  match a, b with
  | None, _ => b
  | _, None => a
  | Some x, Some y => if String.leb x y then b else a
  end.

Definition MIN (xs : list (option string)) : option string :=
  fold_left sql_min xs None.

Definition MAX (xs : list (option string)) : option string :=
  fold_left sql_max xs None.

Definition present (xs : list (option Q)) : list Q :=
  flat_map (fun o => match o with Some q => [q] | None => [] end) xs.

Definition total (qs : list Q) : Q := fold_left Qplus qs 0%Q.

Definition SUM (xs : list (option Q)) : option Q :=
  match present xs with
  | [] => None
  | qs => Some (total qs)
  end.

Definition AVG (xs : list (option Q)) : option Q :=
  match present xs with
  | [] => None
  | qs => Some (total qs / inject_Z (Z.of_nat (List.length qs)))%Q
  end.

Definition COUNT {A} (xs : list A) : Q := inject_Z (Z.of_nat (List.length xs)).

Inductive rule := SumOfValues | CountOfRows | ConversionRate | AverageMargin.

Definition aggregate_value (how : rule) (xs : list Sample) : option Q :=
  match how with
  | SumOfValues => SUM (map measure xs)
  | CountOfRows => Some (COUNT xs)
  | ConversionRate =>
      Some (COUNT (filter converted xs) * 100 / COUNT xs)%Q
  | AverageMargin => option_map (fun a => (a * 100)%Q) (AVG (map measure xs))
  end.

Definition bucket_of (how : rule) (g : option string * list Sample) : Bucket :=
  {| bucket_period := fst g;
     bucket_start := MIN (map low (snd g));
     bucket_end := MAX (map high (snd g));
     bucket_value := aggregate_value how (snd g) |}.

Definition run_query (how : rule) (samples : list Sample) : list Bucket :=
  map (bucket_of how) (group_by_period samples).

Definition metric_samples (fmt name : string) (d : DB) : list Sample :=
  map (fun m =>
         {| period := strftime fmt (BusinessMetric.end_date m);
            low := BusinessMetric.start_date m;
            high := BusinessMetric.end_date m;
            measure := BusinessMetric.metric_value m;
            converted := false |})
      (filter (fun m => BusinessMetric.metric_name m =? name)
              (business_metrics d)).

Definition created_sample (fmt : string) (created_at : option string)
    (v : option Q) : Sample :=
  {| period := strftime fmt created_at;
     low := created_at;
     high := created_at;
     measure := v;
     converted := false |}.

Definition conversion_samples (fmt : string) (d : DB) : list Sample :=
  map (fun a =>
         {| period := strftime fmt (LeadAnalytics.conversion_date a);
            low := LeadAnalytics.conversion_date a;
            high := LeadAnalytics.conversion_date a;
            measure := None;
            converted := LeadAnalytics.converted_to_customer a |})
      (filter (fun a => match LeadAnalytics.conversion_date a with
                        | Some _ => true
                        | None => false
                        end)
              (lead_analytics d)).

(** The query of a metric, for a date format; [None] for an unsupported
    metric. *)
Definition metric_query (metricName fmt : string)
  : option (DB -> list Bucket) :=
  if metricName =? "revenue" then
    Some (fun d => run_query SumOfValues (metric_samples fmt "revenue" d))
  else if metricName =? "profit" then
    Some (fun d => run_query SumOfValues (metric_samples fmt "profit" d))
  else if metricName =? "leads" then
    Some (fun d => run_query CountOfRows
            (map (fun l => created_sample fmt (Lead.created_at l) None)
                 (leads d)))
  else if metricName =? "projects" then
    Some (fun d => run_query CountOfRows
            (map (fun p => created_sample fmt (Project.created_at p) None)
                 (projects d)))
  else if metricName =? "lead_conversion_rate" then
    Some (fun d => run_query ConversionRate (conversion_samples fmt d))
  else if metricName =? "project_profit_margin" then
    Some (fun d => run_query AverageMargin
            (map (fun a => created_sample fmt (ProjectAnalytics.created_at a)
                             (ProjectAnalytics.profit_margin a))
                 (project_analytics d)))
  else None.

(** [INSERT INTO time_based_aggregates (...)]; [period_start] and
    [period_end] are NOT NULL. *)
Definition insert_aggregate (metricName aggregationLevel : string)
    (row : Bucket) (d : DB) : option (Aggregate.t * DB) :=
  match bucket_start row, bucket_end row with
  | Some period_start, Some period_end =>
      let aggregate :=
        {| Aggregate.id :=
             lastID (map Aggregate.id (time_based_aggregates d));
           Aggregate.metric_name := metricName;
           Aggregate.aggregation_level := aggregationLevel;
           Aggregate.period_start := period_start;
           Aggregate.period_end := period_end;
           Aggregate.value := bucket_value row;
           Aggregate.dimension := None;
           Aggregate.dimension_value := None |} in
      Some (aggregate,
            set_time_based_aggregates (time_based_aggregates d ++ [aggregate]) d)
  | _, _ => None
  end.


(** [rows.map(row => new Promise(...))]: every INSERT is sent at once.
    The store serves them one after the other in the order of arrival, each
    a statement of the fault schedule, and hands each its error or the row
    it inserted. *)
Fixpoint insert_each (metricName aggregationLevel : string)
    (rows : list Bucket) : M (list (error + Aggregate.t)) :=
  match rows with
  | [] => ret []
  | row :: rest =>
      r <- db_call (insert_aggregate metricName aggregationLevel row) ;;
      rs <- insert_each metricName aggregationLevel rest ;;
      ret (r :: rs)
  end.

(** The first callback to report an error, and the rows the callbacks
    pushed onto [aggregates], in the order the callbacks fired. *)
Fixpoint first_error {A} (callbacks : list (error + A)) : option error :=
  match callbacks with
  | [] => None
  | inl e :: _ => Some e
  | inr _ :: rest => first_error rest
  end.

Fixpoint pushed {A} (callbacks : list (error + A)) : list A :=
  match callbacks with
  | [] => []
  | inl _ :: rest => pushed rest
  | inr a :: rest => a :: pushed rest
  end.

(** [Promise.all(insertPromises).then(() => resolve(aggregates))
    .catch(reject)]: the first error to be reported rejects the whole;
    without one the promise resolves with the rows in the order the
    callbacks pushed them. *)
Definition insert_all (metricName aggregationLevel : string)
    (rows : list Bucket) : M (list Aggregate.t) :=
  fun w =>
    (served <- insert_each metricName aggregationLevel
                 (shuffle (arrival (ops w)) rows) ;;
     let callbacks := shuffle (completion (ops w)) served in
     match first_error callbacks with
     | Some e => reject e
     | None => ret (pushed callbacks)
     end) w.

Definition generateTimeBasedAggregates (metricName aggregationLevel : string)
  : M (list Aggregate.t) :=
  match dateFormat aggregationLevel with
  | None => reject (InvalidAggregationLevel aggregationLevel)
  | Some fmt =>
      match metric_query metricName fmt with
      | None => reject (UnsupportedMetric metricName)
      | Some query =>
          r <- db_call (reading query) ;;
          rows <- settle r ;;
          insert_all metricName aggregationLevel rows
      end
  end.

(* ================================================================= *)
(** ** processAllData *)

Record Summary := {
  leadsProcessed : Z;
  projectsProcessed : Z;
  customersProcessed : Z;
  weatherEventsProcessed : Z;
  predictionsGenerated : Z;
  aggregatesGenerated : Z
}.

Definition processAllData : M Summary :=
  r <- db_call (reading leads) ;;
  leads <- settle r ;;
  for_each processLeadData leads ;;;
  r <- db_call (reading projects) ;;
  projects <- settle r ;;
  for_each processProjectData projects ;;;
  r <- db_call (reading customers) ;;
  customers <- settle r ;;
  for_each processCustomerData customers ;;;
  r <- db_call (reading weather_events) ;;
  weatherEvents <- settle r ;;
  for_each processWeatherEventData weatherEvents ;;;
  for_each (fun lead =>
              generatePrediction "lead_conversion_model" "lead"
                (Lead.id lead) "conversion_probability")
           (firstn 10 leads) ;;;
  for_each (fun customer =>
              generatePrediction "customer_churn_model" "customer"
                (Customer.id customer) "churn_probability")
           (firstn 5 customers) ;;;
  for_each (fun project =>
              generatePrediction "project_cost_model" "project"
                (Project.id project) "cost_overrun_probability")
           (firstn 5 projects) ;;;
  generateTimeBasedAggregates "revenue" "monthly" ;;;
  generateTimeBasedAggregates "profit" "monthly" ;;;
  generateTimeBasedAggregates "leads" "monthly" ;;;
  generateTimeBasedAggregates "projects" "monthly" ;;;
  generateTimeBasedAggregates "lead_conversion_rate" "monthly" ;;;
  generateTimeBasedAggregates "project_profit_margin" "monthly" ;;;
  ret {| leadsProcessed := Z.of_nat (List.length leads);
         projectsProcessed := Z.of_nat (List.length projects);
         customersProcessed := Z.of_nat (List.length customers);
         weatherEventsProcessed := Z.of_nat (List.length weatherEvents);
         predictionsGenerated := 10 + 5 + 5;
         aggregatesGenerated := 6 |}.

(* ================================================================= *)
(** ** The design's wording of the lead score *)

(** Base 50; source bonus by case-insensitive match, a missing source adds
    nothing; service-interest bonus by case-insensitive substring, the first
    matching clause wins; clamped to [0,100]. *)
Definition spec_source_bonus (source : option string) : Z :=
  match source with
  | None => 0
  | Some s =>
      let s := toLowerCase s in
      if s =? "referral" then 20
      else if s =? "website" then 15
      else if s =? "google" then 10
      else if s =? "facebook" then 5
      else 0
  end.

Definition spec_interest_bonus (service_interest : option string) : Z :=
  match service_interest with
  | None => 0
  | Some s =>
      let s := toLowerCase s in
      if includes s "roof replacement" then 15
      else if includes s "repair" then 10
      else if includes s "inspection" then 5
      else 0
  end.

Definition spec_lead_score (lead : Lead.t) : Z :=
  Z.max 0 (Z.min 100 (50 + spec_source_bonus (Lead.source lead)
                         + spec_interest_bonus (Lead.service_interest lead))).

(* ================================================================= *)
(** ** Facts about the lead reconciler *)

(* ================================================================= *)
(** ** Facts about the arithmetic in doubles and about orders of service *)

(** Rounding at work: with a full retention score the churn probability
    falls below 0.1, and the lifetime value of three ordinary contracts is
    not 1.3 times their total. *)
Example double_churn_at_full_retention :
  ltb (Double.churnProbability 100) 0.1%float = true
  /\ Double.within 0.1%float 0.64%float (Double.churnProbability 100) = true.
Proof. split; reflexivity. Qed.

Example double_lifetime_value_is_rounded :
  let amounts := [27049.97%float; 20970.48%float; 5438.65%float] in
  ltb (1.3 * Double.totalProjectValue amounts)%float
      (Double.lifetimeValue amounts) = true.
Proof. reflexivity. Qed.

(** The cost variance and the margin of contracts from a cent to 10^12, at
    draws from 0 to the largest below 1, as the doubles the code computes:
    all within the tolerance of [-15, 15] and of [0.31, 0.49]. *)
Example double_margins_within_tolerance :
  forallb
    (fun c =>
       forallb
         (fun r =>
            Double.within (-15)%float 15%float (Double.costVariancePercent r c)
            && Double.within 0.31%float 0.49%float (Double.profitMargin r c))
         [0%float; 0x1p-53%float; 0.001%float; 0.25%float; 0.5%float;
          0.75%float; 0.999%float; Double.largest_draw])
    [0.01%float; 1%float; 10%float; 99.99%float; 4870.5%float; 12500%float;
     1234567.89%float; 1000000000000%float]
  = true.
Proof. reflexivity. Qed.

(** The Kelvin sign is lowered to k, as [toLowerCase] of the host does. *)
Example kelvin_sign_is_lowered :
  toLowerCase
    ("FACEBOO" ++ String "226" (String "132" (String "170" EmptyString)))
  = "facebook".
Proof. reflexivity. Qed.

(** For every retention score between 40 and 100 the double the code
    stores as churn probability is within the tolerance of [0.1, 0.64]. *)
Lemma double_churn_within s :
  40 <= s <= 100 ->
  Double.within 0.1%float 0.64%float (Double.churnProbability s) = true.
Proof.
  intros H.
  assert (A : forallb
                (fun s => Double.within 0.1%float 0.64%float
                            (Double.churnProbability s))
                (map Z.of_nat (seq 40 61)) = true)
    by (vm_compute; reflexivity).
  rewrite forallb_forall in A. apply A.
  apply in_map_iff. exists (Z.to_nat s). split; [lia|]. apply in_seq. lia.
Qed.

Lemma extract_Permutation {A} n : forall (l : list A) x rest,
  extract n l = Some (x, rest) -> Permutation l (x :: rest).
Proof.
  induction n as [|n IH]; intros [|y l] x rest E; simpl in E;
    try discriminate.
  - inversion E. reflexivity.
  - destruct (extract n l) as [[z rest']|] eqn:E'; [|discriminate].
    inversion E; subst. apply IH in E'.
    rewrite E'. apply perm_swap.
Qed.

Lemma shuffle_Permutation {A} picks : forall l : list A,
  Permutation (shuffle picks l) l.
Proof.
  induction picks as [|pick later IH]; intros l; simpl; [reflexivity|].
  destruct (extract (pick mod List.length l) l) as [[x rest]|] eqn:E;
    [|reflexivity].
  apply extract_Permutation in E. rewrite E. constructor. apply IH.
Qed.

Lemma shuffle_length {A} picks (l : list A) :
  List.length (shuffle picks l) = List.length l.
Proof. apply Permutation_length, shuffle_Permutation. Qed.

Lemma extract_at {A} (l1 : list A) x l2 :
  extract (List.length l1) (l1 ++ x :: l2) = Some (x, (l1 ++ l2)%list).
Proof.
  induction l1 as [|y l1 IH]; simpl; [reflexivity|]. now rewrite IH.
Qed.

Lemma shuffle_complete {A} (l' : list A) : forall l,
  Permutation l l' -> exists picks, shuffle picks l = l'.
Proof.
  induction l' as [|x t IH]; intros l P.
  - apply Permutation_sym, Permutation_nil in P. subst l. now exists [].
  - assert (I : In x l)
      by (eapply Permutation_in; [apply Permutation_sym; exact P | now left]).
    apply in_split in I. destruct I as [l1 [l2 E]]. subst l.
    apply Permutation_sym, Permutation_cons_app_inv, Permutation_sym in P.
    destruct (IH _ P) as [picks Hp].
    exists (List.length l1 :: picks). simpl.
    rewrite Nat.mod_small by (rewrite length_app; simpl; lia).
    rewrite extract_at. now rewrite Hp.
Qed.

Lemma sourceBonus_spec source : sourceBonus source = spec_source_bonus source.
Proof.
  unfold sourceBonus, spec_source_bonus, truthy.
  destruct source as [s|]; [|reflexivity].
  destruct s; reflexivity.
Qed.

Lemma interestBonus_spec si : interestBonus si = spec_interest_bonus si.
Proof.
  unfold interestBonus, spec_interest_bonus, truthy.
  destruct si as [s|]; [|reflexivity].
  destruct s; reflexivity.
Qed.

Lemma sourceBonus_range source : 0 <= sourceBonus source <= 20.
Proof.
  unfold sourceBonus.
  repeat match goal with |- context [if ?b then _ else _] => destruct b end; lia.
Qed.

Lemma interestBonus_range si : 0 <= interestBonus si <= 15.
Proof.
  unfold interestBonus.
  repeat match goal with |- context [if ?b then _ else _] => destruct b end; lia.
Qed.

Lemma leadScore_range lead : 50 <= leadScore lead <= 85.
Proof.
  unfold leadScore.
  pose proof (sourceBonus_range (Lead.source lead)).
  pose proof (interestBonus_range (Lead.service_interest lead)).
  lia.
Qed.

Lemma leadScore_spec lead : leadScore lead = spec_lead_score lead.
Proof.
  pose proof (leadScore_range lead) as R.
  unfold spec_lead_score.
  rewrite <- sourceBonus_spec, <- interestBonus_spec.
  fold (leadScore lead). lia.
Qed.

(** How a run of [processLeadData] leaves the store: untouched when it does
    not resolve, updated in place when a row was found, one row longer
    otherwise. *)
Inductive lead_effect (lead : Lead.t) (w : World)
  : outcome LeadAnalytics.t -> World -> Prop :=
| lead_failed e w' :
    store w' = store w ->
    lead_effect lead w (Rejected e) w'
| lead_updated row w' :
    select_lead_analytics (Lead.id lead) (store w) = Some row ->
    store w' = update_lead_analytics (leadAnalytics lead) (Lead.id lead) (store w) ->
    lead_effect lead w (Resolved (leadAnalytics lead)) w'
| lead_inserted i w' :
    select_lead_analytics (Lead.id lead) (store w) = None ->
    i = lastID (map LeadAnalytics.id (lead_analytics (store w))) ->
    store w' =
      set_lead_analytics
        (lead_analytics (store w) ++ [lead_with_id i (leadAnalytics lead)])
        (store w) ->
    lead_effect lead w (Resolved (lead_with_id i (leadAnalytics lead))) w'.

Lemma processLeadData_effect lead w :
  lead_effect lead w (fst (processLeadData lead w)) (snd (processLeadData lead w)).
Proof.
  unfold processLeadData, bind, db_call, settle, reading, writing,
    insert_lead_analytics, ret, reject.
  destruct (faults (ops w)); simpl; [now constructor|].
  destruct (select_lead_analytics (Lead.id lead) (store w)) eqn:Sel; simpl.
  - destruct (faults (S (ops w))); simpl; [now constructor|].
    eapply lead_updated; eauto.
  - destruct (faults (S (ops w))); simpl; [now constructor|].
    eapply lead_inserted; eauto.
Qed.

Lemma find_some_in {A} (f : A -> bool) l :
  find f l <> None <-> exists x, In x l /\ f x = true.
Proof.
  split.
  - destruct (find f l) eqn:E; [|congruence].
    intros _. apply find_some in E. eauto.
  - intros [x [I F]] E. eapply find_none in E; eauto. congruence.
Qed.

(** Tables addressed by a key: [UPDATE ... SET ... WHERE key = k] rewrites
    the rows of the key where they stand, an INSERT adds a row at the end. *)
Section KeyedRows.

Context {T : Type} (key : T -> Z) (k : Z) (g : T -> T).

Lemma rows_after_update (P : T -> Prop) t :
  (forall r, key r = k -> P (g r)) ->
  forall row,
    In row (map (fun r => if (key r =? k)%Z then g r else r) t) ->
    key row = k -> P row.
Proof.
  intros Pg row I K. apply in_map_iff in I. destruct I as [r0 [E I]].
  destruct (Z.eqb_spec (key r0) k) as [E0|N]; subst row.
  - now apply Pg.
  - contradiction.
Qed.

Lemma row_after_update t row :
  (forall r, key (g r) = key r) ->
  find (fun r => (key r =? k)%Z) t = Some row ->
  find (fun r => (key r =? k)%Z)
       (map (fun r => if (key r =? k)%Z then g r else r) t)
  = Some (g row).
Proof.
  intros Kg. induction t as [|r t IH]; simpl; [discriminate|].
  destruct (Z.eqb_spec (key r) k) as [E|N]; simpl.
  - intros F. inversion F; subst row. rewrite Kg, E, Z.eqb_refl. reflexivity.
  - intros F. destruct (Z.eqb_spec (key r) k); [contradiction|]. now apply IH.
Qed.

Lemma rows_after_insert (P : T -> Prop) t x :
  find (fun r => (key r =? k)%Z) t = None -> P x ->
  forall row, In row (t ++ [x]) -> key row = k -> P row.
Proof.
  intros Sel Px row I K. apply in_app_or in I. destruct I as [I | [I | []]].
  - exfalso. eapply find_none in Sel; eauto.
    simpl in Sel. rewrite K, Z.eqb_refl in Sel. discriminate.
  - now subst row.
Qed.

Lemma row_after_insert t x :
  find (fun r => (key r =? k)%Z) t = None -> key x = k ->
  find (fun r => (key r =? k)%Z) (t ++ [x]) = Some x.
Proof.
  intros Sel K. induction t as [|r t IH]; simpl in *.
  - now rewrite K, Z.eqb_refl.
  - destruct (key r =? k)%Z; [discriminate | now apply IH].
Qed.

Lemma table_after_update (R : T -> T -> Prop) t :
  (forall r, key r = k -> R r (g r)) -> (forall r, key r <> k -> R r r) ->
  Forall2 R t (map (fun r => if (key r =? k)%Z then g r else r) t).
Proof.
  intros Rg Rr. induction t as [|r t IH]; simpl; constructor; auto.
  destruct (Z.eqb_spec (key r) k); auto.
Qed.

End KeyedRows.

Lemma set_lead_analytics_same d : set_lead_analytics (lead_analytics d) d = d.
Proof. now destruct d. Qed.

Lemma update_lead_row_twice a r :
  update_lead_row a (update_lead_row a r) = update_lead_row a r.
Proof. reflexivity. Qed.

Lemma update_lead_row_inserted a i :
  update_lead_row a (lead_with_id i a) = lead_with_id i a.
Proof. reflexivity. Qed.

(** What an UPDATE of the lead reconciler leaves alone in a row. *)
Definition lead_frame (r r' : LeadAnalytics.t) : Prop :=
  LeadAnalytics.id r' = LeadAnalytics.id r
  /\ LeadAnalytics.lead_id r' = LeadAnalytics.lead_id r
  /\ LeadAnalytics.days_to_conversion r' = LeadAnalytics.days_to_conversion r
  /\ LeadAnalytics.converted_to_customer r'
     = LeadAnalytics.converted_to_customer r
  /\ LeadAnalytics.conversion_date r' = LeadAnalytics.conversion_date r.

(** What it writes. *)
Definition lead_recomputed (lead : Lead.t) (r : LeadAnalytics.t) : Prop :=
  LeadAnalytics.acquisition_source r = Some (acquisitionSource lead)
  /\ LeadAnalytics.acquisition_cost r = Some (acquisitionCost lead)
  /\ LeadAnalytics.lead_score r = Some (leadScore lead)
  /\ LeadAnalytics.conversion_probability r
     = Some (inject_Z (leadScore lead) / 100 * 0.8)%Q.

Lemma update_lead_table_frame lead t :
  Forall2
    (fun r r' =>
       lead_frame r r'
       /\ (LeadAnalytics.lead_id r = Lead.id lead -> lead_recomputed lead r')
       /\ (LeadAnalytics.lead_id r <> Lead.id lead -> r' = r))
    t
    (map (fun r => if (LeadAnalytics.lead_id r =? Lead.id lead)%Z
                   then update_lead_row (leadAnalytics lead) r else r) t).
Proof.
  induction t as [|r t IH]; simpl; constructor; auto.
  destruct (Z.eqb_spec (LeadAnalytics.lead_id r) (Lead.id lead)) as [E|N].
  - split; [repeat split | split; [intros _; repeat split | intros; congruence]].
  - split; [repeat split | split; [intros; congruence | reflexivity]].
Qed.

Lemma update_lead_table_fixed lead t :
  (forall r, In r t -> LeadAnalytics.lead_id r = Lead.id lead ->
             update_lead_row (leadAnalytics lead) r = r) ->
  map (fun r => if (LeadAnalytics.lead_id r =? Lead.id lead)%Z
                then update_lead_row (leadAnalytics lead) r else r) t = t.
Proof.
  intros H. rewrite <- (map_id t) at 2. apply map_ext_in.
  intros r I. destruct (Z.eqb_spec (LeadAnalytics.lead_id r) (Lead.id lead)); auto.
Qed.

(** After a run that resolved, every row of the lead holds the recomputed
    fields, and there is such a row. *)
Lemma processLeadData_rows lead w a w' :
  processLeadData lead w = (Resolved a, w') ->
  (exists row, select_lead_analytics (Lead.id lead) (store w') = Some row)
  /\ forall row, In row (lead_analytics (store w')) ->
                 LeadAnalytics.lead_id row = Lead.id lead ->
                 lead_recomputed lead row
                 /\ update_lead_row (leadAnalytics lead) row = row.
Proof.
  intros H. pose proof (processLeadData_effect lead w) as E.
  rewrite H in E. simpl in E.
  inversion E as [| row w0 Sel St | i w0 Sel Hi St]; subst; clear E.
  - rewrite St. unfold select_lead_analytics, update_lead_analytics. simpl.
    split.
    + apply find_some in Sel. destruct Sel as [I K].
      destruct (find (fun r => (LeadAnalytics.lead_id r =? Lead.id lead)%Z)
                  (map (fun r => if (LeadAnalytics.lead_id r =? Lead.id lead)%Z
                                 then update_lead_row (leadAnalytics lead) r
                                 else r) (lead_analytics (store w)))) eqn:F;
        [eauto|].
      exfalso. eapply find_none in F.
      2:{ apply in_map_iff. exists row. split; [reflexivity | exact I]. }
      rewrite K in F. simpl in F. congruence.
    + intros r I K. apply in_map_iff in I. destruct I as [r0 [E0 I0]].
      destruct (Z.eqb_spec (LeadAnalytics.lead_id r0) (Lead.id lead)).
      * subst r. split; [repeat split | reflexivity].
      * subst r. contradiction.
  - rewrite St. unfold select_lead_analytics. simpl. split.
    + destruct (find (fun r => (LeadAnalytics.lead_id r =? Lead.id lead)%Z)
                  (lead_analytics (store w) ++
                   [lead_with_id
                      (lastID (map LeadAnalytics.id (lead_analytics (store w))))
                      (leadAnalytics lead)])) eqn:F; [eauto|].
      exfalso. eapply find_none in F.
      2:{ apply in_or_app. right. left. reflexivity. }
      simpl in F. rewrite Z.eqb_refl in F. congruence.
    + intros r I K. apply in_app_or in I. destruct I as [I | [I | []]].
      * exfalso. eapply find_none in Sel; eauto.
        simpl in Sel. rewrite K, Z.eqb_refl in Sel. congruence.
      * subst r. split; [repeat split | reflexivity].
Qed.

(** C1. For every lead the computed score is the base 50 plus the source and
    service-interest bonuses capped at 100 and lies in [0,100]; once
    [processLeadData] resolves, the returned record and every stored row of
    the lead hold that score and the conversion probability
    lead_score/100 * 0.8. *)
Theorem lead_score_and_conversion_probability lead w a w' :
  processLeadData lead w = (Resolved a, w') ->
  leadScore lead = spec_lead_score lead
  /\ 0 <= leadScore lead <= 100
  /\ LeadAnalytics.lead_score a = Some (leadScore lead)
  /\ LeadAnalytics.conversion_probability a
     = Some (inject_Z (leadScore lead) / 100 * 0.8)%Q
  /\ (exists row, select_lead_analytics (Lead.id lead) (store w') = Some row)
  /\ forall row, In row (lead_analytics (store w')) ->
                 LeadAnalytics.lead_id row = Lead.id lead ->
                 LeadAnalytics.lead_score row = Some (leadScore lead)
                 /\ LeadAnalytics.conversion_probability row
                    = Some (inject_Z (leadScore lead) / 100 * 0.8)%Q.
Proof.
  intros H.
  pose proof (leadScore_range lead) as R.
  destruct (processLeadData_rows lead w H) as [Ex All].
  split; [apply leadScore_spec|].
  split; [lia|].
  assert (LeadAnalytics.lead_score a = Some (leadScore lead)
          /\ LeadAnalytics.conversion_probability a
             = Some (inject_Z (leadScore lead) / 100 * 0.8)%Q) as [A1 A2].
  { pose proof (processLeadData_effect lead w) as E.
    rewrite H in E. simpl in E. inversion E; subst; split; reflexivity. }
  repeat split; auto.
  - apply (All row); assumption.
  - apply (All row); assumption.
Qed.

(** C6. When the lead already has an analytics row, a run of
    [processLeadData] that resolves rewrites acquisition_source,
    acquisition_cost, lead_score and conversion_probability of the lead's
    rows and nothing else: every row keeps its id, lead_id,
    days_to_conversion, converted_to_customer and conversion_date, rows of
    other leads are untouched, and no row is added.  Reconciling the same
    lead once more leaves the store exactly as it is. *)
Theorem reconciling_lead_keeps_conversion_tracking lead w a w' :
  select_lead_analytics (Lead.id lead) (store w) <> None ->
  processLeadData lead w = (Resolved a, w') ->
  Forall2
    (fun r r' =>
       lead_frame r r'
       /\ (LeadAnalytics.lead_id r = Lead.id lead -> lead_recomputed lead r')
       /\ (LeadAnalytics.lead_id r <> Lead.id lead -> r' = r))
    (lead_analytics (store w)) (lead_analytics (store w'))
  /\ forall a2 w2, processLeadData lead w' = (Resolved a2, w2) ->
                   store w2 = store w'.
Proof.
  intros Found H. split.
  - pose proof (processLeadData_effect lead w) as E.
    rewrite H in E. simpl in E.
    inversion E as [| row w0 Sel St | i w0 Sel Hi St]; subst; clear E.
    + rewrite St. simpl. apply update_lead_table_frame.
    + congruence.
  - intros a2 w2 H2.
    destruct (processLeadData_rows lead w H) as [[row Sel] All].
    pose proof (processLeadData_effect lead w') as E.
    rewrite H2 in E. simpl in E.
    inversion E as [| row' w0 Sel' St | i w0 Sel' Hi St]; subst; clear E.
    + rewrite St. unfold update_lead_analytics.
      rewrite update_lead_table_fixed.
      * apply set_lead_analytics_same.
      * intros r I K. apply (All r I K).
    + congruence.
Qed.

(* ================================================================= *)
(** ** Facts about the project reconciler *)

(** The design's wording of the duration: the signed day difference. *)
Definition spec_actual_duration (project : Project.t) : option Z :=
  match Project.start_date project, Project.end_date project with
  | Some s, Some e =>
      match Date_parse s, Date_parse e with
      | Some startDate, Some endDate => Some (ceil_days (endDate - startDate))
      | _, _ => None
      end
  | _, _ => Some (estimatedDuration project)
  end.

Inductive project_effect (project : Project.t) (w : World)
  : outcome ProjectAnalytics.t -> World -> Prop :=
| project_failed e w' :
    store w' = store w ->
    project_effect project w (Rejected e) w'
| project_updated row w' :
    select_project_analytics (Project.id project) (store w) = Some row ->
    store w' =
      update_project_analytics
        (projectAnalytics (random (draws w)) (random (S (draws w))) project)
        (Project.id project) (store w) ->
    project_effect project w
      (Resolved (projectAnalytics (random (draws w)) (random (S (draws w)))
                   project)) w'
| project_inserted i w' :
    select_project_analytics (Project.id project) (store w) = None ->
    store w' =
      set_project_analytics
        (project_analytics (store w)
         ++ [project_with_id i (Some (CURRENT_TIMESTAMP (now (ticks w))))
               (projectAnalytics (random (draws w)) (random (S (draws w)))
                  project)])
        (store w) ->
    project_effect project w
      (Resolved (project_with_id i None
                   (projectAnalytics (random (draws w)) (random (S (draws w)))
                      project))) w'.

Lemma processProjectData_effect project w :
  project_effect project w (fst (processProjectData project w))
    (snd (processProjectData project w)).
Proof.
  unfold processProjectData, bind, db_call, settle, reading, writing,
    insert_project_analytics, Math_random, new_Date, ret, reject.
  destruct (faults (ops w)); simpl; [now constructor|].
  destruct (select_project_analytics (Project.id project) (store w)) eqn:Sel;
    simpl.
  - destruct (faults (S (ops w))); simpl; [now constructor|].
    eapply project_updated; eauto.
  - destruct (faults (S (ops w))); simpl; [now constructor|].
    eapply project_inserted; eauto.
Qed.

(** The columns the project reconciler writes: a stored row [r] holds them
    as the record [a] has them. *)
Definition project_written (a r : ProjectAnalytics.t) : Prop :=
  ProjectAnalytics.estimated_cost r = ProjectAnalytics.estimated_cost a
  /\ ProjectAnalytics.actual_cost r = ProjectAnalytics.actual_cost a
  /\ ProjectAnalytics.cost_variance_percent r
     = ProjectAnalytics.cost_variance_percent a
  /\ ProjectAnalytics.estimated_duration r
     = ProjectAnalytics.estimated_duration a
  /\ ProjectAnalytics.actual_duration r = ProjectAnalytics.actual_duration a
  /\ ProjectAnalytics.duration_variance_percent r
     = ProjectAnalytics.duration_variance_percent a
  /\ ProjectAnalytics.profit_margin r = ProjectAnalytics.profit_margin a
  /\ ProjectAnalytics.customer_satisfaction_score r
     = ProjectAnalytics.customer_satisfaction_score a.

(** After a run that resolved the project has a stored row, and every stored
    row of the project holds what the returned record holds. *)
Lemma processProjectData_rows project w a w' :
  processProjectData project w = (Resolved a, w') ->
  (exists row,
     select_project_analytics (Project.id project) (store w') = Some row)
  /\ forall row, In row (project_analytics (store w')) ->
                 ProjectAnalytics.project_id row = Project.id project ->
                 project_written a row.
Proof.
  intros H. pose proof (processProjectData_effect project w) as E.
  rewrite H in E. simpl in E.
  inversion E as [| found w0 Sel St | i w0 Sel St]; subst; clear E.
  - rewrite St. unfold select_project_analytics, update_project_analytics.
    simpl. split.
    + eexists. apply row_after_update; [reflexivity | exact Sel].
    + apply rows_after_update. intros r _. repeat split.
  - rewrite St. unfold select_project_analytics. simpl. split.
    + eexists. apply row_after_insert; [exact Sel | reflexivity].
    + apply rows_after_insert; [exact Sel | repeat split].
Qed.

Lemma ceil_days_nonneg ms : 0 <= ms -> 0 <= ceil_days ms.
Proof.
  intros H. unfold ceil_days, Qceiling.
  assert (Qfloor (- (inject_Z ms / inject_Z msPerDay)) <= Qfloor 0) as F;
    [|change (Qfloor 0) with 0 in F; lia].
  apply Qfloor_resp_le.
  assert (0 <= inject_Z ms / inject_Z msPerDay)%Q; [|lra].
  apply Qle_shift_div_l; [reflexivity|].
  rewrite Qmult_0_l. change 0%Q with (inject_Z 0). now rewrite <- Zle_Qle.
Qed.








(** C9, as the code has it.  Once [processProjectData] resolves the
    project has a stored row.  When both dates are present and parse, the
    actual_duration of the returned record and of every stored row of the
    project is the ceiling of the absolute difference of the two dates in
    days, hence never negative; when either date is absent it is
    estimated_duration. *)
Theorem actual_duration_is_absolute_difference project w a w' :
  processProjectData project w = (Resolved a, w') ->
  (exists row,
     select_project_analytics (Project.id project) (store w') = Some row)
  /\ (forall startDate endDate,
        truthy (Project.start_date project) = true ->
        truthy (Project.end_date project) = true ->
        Date_parse (text (Project.start_date project)) = Some startDate ->
        Date_parse (text (Project.end_date project)) = Some endDate ->
        0 <= ceil_days (Z.abs (endDate - startDate))
        /\ ProjectAnalytics.actual_duration a
           = Some (ceil_days (Z.abs (endDate - startDate)))
        /\ forall row,
             In row (project_analytics (store w')) ->
             ProjectAnalytics.project_id row = Project.id project ->
             ProjectAnalytics.actual_duration row
             = Some (ceil_days (Z.abs (endDate - startDate))))
  /\ (truthy (Project.start_date project) = false
      \/ truthy (Project.end_date project) = false ->
      ProjectAnalytics.actual_duration a = Some (estimatedDuration project)
      /\ forall row,
           In row (project_analytics (store w')) ->
           ProjectAnalytics.project_id row = Project.id project ->
           ProjectAnalytics.actual_duration row
           = Some (estimatedDuration project)).
Proof.
  intros H.
  assert (F : ProjectAnalytics.actual_duration a = actualDuration project).
  { pose proof (processProjectData_effect project w) as Eff.
    rewrite H in Eff. simpl in Eff. inversion Eff; subst; reflexivity. }
  destruct (processProjectData_rows project w H) as [Ex Rows].
  assert (Stored : forall row,
             In row (project_analytics (store w')) ->
             ProjectAnalytics.project_id row = Project.id project ->
             ProjectAnalytics.actual_duration row = actualDuration project).
  { intros row I K. destruct (Rows row I K) as [_ [_ [_ [_ [D _]]]]].
    now rewrite D. }
  split; [exact Ex|]. split.
  - intros s e Ts Te Ps Pe.
    assert (D : actualDuration project = Some (ceil_days (Z.abs (e - s))))
      by (unfold actualDuration; rewrite Ts, Te, Ps, Pe; reflexivity).
    split; [apply ceil_days_nonneg; lia|].
    split; [now rewrite F|].
    intros row I K. now rewrite (Stored row I K).
  - intros T.
    assert (D : actualDuration project = Some (estimatedDuration project)).
    { unfold actualDuration. destruct T as [T|T]; rewrite T; simpl;
        [reflexivity|].
      now destruct (truthy (Project.start_date project)). }
    split; [now rewrite F|].
    intros row I K. now rewrite (Stored row I K).
Qed.

(* ================================================================= *)
(** ** Facts about the customer reconciler *)

Inductive customer_effect (customer : Customer.t) (w : World)
  : outcome CustomerAnalytics.t -> World -> Prop :=
| customer_failed e w' :
    store w' = store w ->
    customer_effect customer w (Rejected e) w'
| customer_updated ps r1 r2 days stamp row w' :
    select_customer_analytics (Customer.id customer) (store w) = Some row ->
    store w' =
      update_customer_analytics
        (customerAnalytics customer ps r1 r2 days stamp)
        (Customer.id customer) (store w) ->
    customer_effect customer w
      (Resolved (customerAnalytics customer ps r1 r2 days stamp)) w'
| customer_inserted ps r1 r2 days stamp i w' :
    select_customer_analytics (Customer.id customer) (store w) = None ->
    store w' =
      set_customer_analytics
        (customer_analytics (store w)
         ++ [customer_with_id i (customerAnalytics customer ps r1 r2 days stamp)])
        (store w) ->
    customer_effect customer w
      (Resolved (customer_with_id i
                   (customerAnalytics customer ps r1 r2 days stamp))) w'.

Lemma processCustomerData_effect customer w :
  customer_effect customer w (fst (processCustomerData customer w))
    (snd (processCustomerData customer w)).
Proof.
  unfold processCustomerData, bind, db_call, settle, reading, writing,
    insert_customer_analytics, Math_random, new_Date, ret, reject.
  destruct (faults (ops w)); simpl; [now constructor|].
  destruct (truthy (lastProjectDate
                      (select_customer_projects (Customer.id customer) (store w))));
    simpl.
  all: destruct (faults (S (ops w))); simpl; [now constructor|].
  all: destruct (select_customer_analytics (Customer.id customer) (store w))
         eqn:Sel; simpl.
  all: destruct (faults (S (S (ops w)))); simpl; [now constructor|].
  all: try (eapply customer_updated; eauto; fail).
  all: eapply customer_inserted; eauto.
Qed.

(** The columns the customer reconciler writes: a stored row [r] holds them
    as the record [a] has them. *)
Definition customer_written (a r : CustomerAnalytics.t) : Prop :=
  CustomerAnalytics.lifetime_value r = CustomerAnalytics.lifetime_value a
  /\ CustomerAnalytics.acquisition_cost r
     = CustomerAnalytics.acquisition_cost a
  /\ CustomerAnalytics.retention_score r = CustomerAnalytics.retention_score a
  /\ CustomerAnalytics.churn_probability r
     = CustomerAnalytics.churn_probability a
  /\ CustomerAnalytics.referral_count r = CustomerAnalytics.referral_count a
  /\ CustomerAnalytics.project_count r = CustomerAnalytics.project_count a
  /\ CustomerAnalytics.average_project_value r
     = CustomerAnalytics.average_project_value a
  /\ CustomerAnalytics.last_interaction_date r
     = CustomerAnalytics.last_interaction_date a.

(** After a run that resolved the customer has a stored row, and every
    stored row of the customer holds what the returned record holds. *)
Lemma processCustomerData_rows customer w a w' :
  processCustomerData customer w = (Resolved a, w') ->
  (exists row,
     select_customer_analytics (Customer.id customer) (store w') = Some row)
  /\ forall row, In row (customer_analytics (store w')) ->
                 CustomerAnalytics.customer_id row = Customer.id customer ->
                 customer_written a row.
Proof.
  intros H. pose proof (processCustomerData_effect customer w) as E.
  rewrite H in E. simpl in E.
  inversion E as [| ps r1 r2 days stamp found w0 Sel St
                  | ps r1 r2 days stamp i w0 Sel St]; subst; clear E.
  - rewrite St. unfold select_customer_analytics, update_customer_analytics.
    simpl. split.
    + eexists. apply row_after_update; [reflexivity | exact Sel].
    + apply rows_after_update. intros r _. repeat split.
  - rewrite St. unfold select_customer_analytics. simpl. split.
    + eexists. apply row_after_insert; [exact Sel | reflexivity].
    + apply rows_after_insert; [exact Sel | repeat split].
Qed.

Lemma recencyBonus_range days : -10 <= recencyBonus days <= 20.
Proof.
  unfold recencyBonus. destruct days; [|lia].
  repeat match goal with |- context [if ?b then _ else _] => destruct b end; lia.
Qed.

Lemma countBonus_range n : 0 <= countBonus n <= 30.
Proof.
  unfold countBonus.
  repeat match goal with |- context [if ?b then _ else _] => destruct b end; lia.
Qed.

(** The retention scores the reconciler can produce. *)
Lemma retentionScore_range ps days : 40 <= retentionScore ps days <= 100.
Proof.
  unfold retentionScore.
  pose proof (recencyBonus_range days).
  pose proof (countBonus_range (Z.of_nat (List.length ps))).
  lia.
Qed.

Lemma churnProbability_range s :
  40 <= s <= 100 ->
  (churnProbability s == 1 - inject_Z s / 100 * 0.9)%Q
  /\ (0.1 <= churnProbability s <= 0.64)%Q.
Proof.
  intros [L U].
  assert (40 <= inject_Z s)%Q as QL
    by (change 40%Q with (inject_Z 40); now rewrite <- Zle_Qle).
  assert (inject_Z s <= 100)%Q as QU
    by (change 100%Q with (inject_Z 100); now rewrite <- Zle_Qle).
  unfold churnProbability, Math_max.
  change (inject_Z s / 100)%Q with (inject_Z s * (1 # 100))%Q.
  assert (Qle_bool 0 (1 - inject_Z s * (1 # 100) * 0.9) = true) as B.
  { apply Qle_bool_iff. lra. }
  rewrite B. split; [reflexivity | lra].
Qed.

(** Off the reachable scores the bound 0.9 is lost: a retention score of 0
    would give a churn probability of 1. *)
Remark churnProbability_at_zero : (churnProbability 0 == 1)%Q.
Proof. reflexivity. Qed.


(* ================================================================= *)
(** ** Facts about the time aggregator *)

Definition supported_levels : list string :=
  ["daily"; "weekly"; "monthly"; "quarterly"; "yearly"].

Lemma dateFormat_unsupported aggregationLevel :
  ~ In aggregationLevel supported_levels -> dateFormat aggregationLevel = None.
Proof.
  intros N. unfold dateFormat.
  repeat match goal with
         | |- context [String.eqb ?a ?b] =>
             destruct (String.eqb_spec a b) as [E|_];
             [exfalso; apply N; rewrite E; simpl; auto 10|]
         end.
  reflexivity.
Qed.

(** C8. For an aggregation level outside daily, weekly, monthly, quarterly
    and yearly, and any metric, [generateTimeBasedAggregates] rejects with
    the invalid-level error, a validation error, and sends nothing to the
    store: the world after is the world before. *)
Theorem unsupported_level_is_rejected_without_writes
    metricName aggregationLevel w :
  ~ In aggregationLevel supported_levels ->
  generateTimeBasedAggregates metricName aggregationLevel w
    = (Rejected (InvalidAggregationLevel aggregationLevel), w)
  /\ kind_of (InvalidAggregationLevel aggregationLevel) = ValidationError.
Proof.
  intros N. unfold generateTimeBasedAggregates.
  rewrite (dateFormat_unsupported N). split; reflexivity.
Qed.

Lemma set_time_based_aggregates_same d :
  set_time_based_aggregates (time_based_aggregates d) d = d.
Proof. now destruct d. Qed.

Lemma set_time_based_aggregates_twice t1 t2 d :
  set_time_based_aggregates t2 (set_time_based_aggregates t1 d)
  = set_time_based_aggregates t2 d.
Proof. reflexivity. Qed.

(** No aggregate query reads the aggregates table. *)
Lemma metric_query_ignores_aggregates metricName fmt query t d :
  metric_query metricName fmt = Some query ->
  query (set_time_based_aggregates t d) = query d.
Proof.
  unfold metric_query.
  repeat match goal with
         | |- context [if ?b then _ else _] => destruct b
         end; intros E; inversion E; reflexivity.
Qed.

(** The aggregate row written for a bucket. *)
Definition row_of_bucket (metricName aggregationLevel : string)
    (row : Bucket) (a : Aggregate.t) : Prop :=
  Aggregate.metric_name a = metricName
  /\ Aggregate.aggregation_level a = aggregationLevel
  /\ bucket_start row = Some (Aggregate.period_start a)
  /\ bucket_end row = Some (Aggregate.period_end a)
  /\ Aggregate.value a = bucket_value row
  /\ Aggregate.dimension a = None
  /\ Aggregate.dimension_value a = None.

(** Two aggregate rows that differ at most in their id. *)
Definition same_aggregate (a b : Aggregate.t) : Prop :=
  Aggregate.metric_name a = Aggregate.metric_name b
  /\ Aggregate.aggregation_level a = Aggregate.aggregation_level b
  /\ Aggregate.period_start a = Aggregate.period_start b
  /\ Aggregate.period_end a = Aggregate.period_end b
  /\ Aggregate.value a = Aggregate.value b
  /\ Aggregate.dimension a = Aggregate.dimension b
  /\ Aggregate.dimension_value a = Aggregate.dimension_value b.


(** The aggregate row of a bucket, its id left out. *)
Definition bucket_row (metricName aggregationLevel : string) (row : Bucket)
  : Aggregate.t :=
  {| Aggregate.id := 0;
     Aggregate.metric_name := metricName;
     Aggregate.aggregation_level := aggregationLevel;
     Aggregate.period_start := text (bucket_start row);
     Aggregate.period_end := text (bucket_end row);
     Aggregate.value := bucket_value row;
     Aggregate.dimension := None;
     Aggregate.dimension_value := None |}.

(** An aggregate row with its id left out. *)
Definition unnumbered (a : Aggregate.t) : Aggregate.t :=
  {| Aggregate.id := 0;
     Aggregate.metric_name := Aggregate.metric_name a;
     Aggregate.aggregation_level := Aggregate.aggregation_level a;
     Aggregate.period_start := Aggregate.period_start a;
     Aggregate.period_end := Aggregate.period_end a;
     Aggregate.value := Aggregate.value a;
     Aggregate.dimension := Aggregate.dimension a;
     Aggregate.dimension_value := Aggregate.dimension_value a |}.

Lemma row_of_bucket_unnumbered metricName aggregationLevel row a :
  row_of_bucket metricName aggregationLevel row a ->
  unnumbered a = bucket_row metricName aggregationLevel row.
Proof.
  intros [M [L [S [E [V [D1 D2]]]]]]. unfold unnumbered, bucket_row.
  rewrite M, L, S, E, V, D1, D2. reflexivity.
Qed.

Lemma rows_of_buckets_unnumbered metricName aggregationLevel rows new :
  Forall2 (row_of_bucket metricName aggregationLevel) rows new ->
  map unnumbered new = map (bucket_row metricName aggregationLevel) rows.
Proof.
  induction 1 as [|row a rows new R _ IH]; simpl; [reflexivity|].
  now rewrite IH, (row_of_bucket_unnumbered R).
Qed.

(** What the callback of the INSERT for a bucket receives. *)
Definition answered (metricName aggregationLevel : string) (row : Bucket)
    (r : error + Aggregate.t) : Prop :=
  match r with
  | inl _ => True
  | inr a => row_of_bucket metricName aggregationLevel row a
  end.

Lemma pushed_Permutation {A} (rs rs' : list (error + A)) :
  Permutation rs rs' -> Permutation (pushed rs) (pushed rs').
Proof.
  induction 1 as [| [e|a] l l' _ IH | [e|a] [e'|a'] l | l l' l'' _ IH1 _ IH2];
    simpl; auto.
  - apply perm_swap.
  - now transitivity (pushed l').
Qed.

Lemma pushed_length {A} (rs : list (error + A)) :
  (List.length (pushed rs) <= List.length rs)%nat.
Proof. induction rs as [|[e|a] rs IH]; simpl; lia. Qed.

Lemma first_error_none {A} (rs : list (error + A)) :
  first_error rs = None <-> List.length (pushed rs) = List.length rs.
Proof.
  induction rs as [|[e|a] rs IH]; simpl.
  - split; reflexivity.
  - pose proof (pushed_length rs). split; [discriminate | lia].
  - rewrite IH. split; lia.
Qed.

Lemma all_pushed {A} (rs : list (error + A)) :
  List.length (pushed rs) = List.length rs -> rs = map inr (pushed rs).
Proof.
  induction rs as [|[e|a] rs IH]; simpl; intros L.
  - reflexivity.
  - pose proof (pushed_length rs). lia.
  - f_equal. apply IH. lia.
Qed.

Lemma answered_rows metricName aggregationLevel rows new :
  Forall2 (answered metricName aggregationLevel) rows (map inr new) ->
  Forall2 (row_of_bucket metricName aggregationLevel) rows new.
Proof.
  revert rows. induction new as [|a new IH]; intros rows F; simpl in F;
    inversion F; subst; constructor; auto.
Qed.

(** The INSERTs served one after the other: each callback receives an
    error or the row of its bucket, and the rows inserted stand at the end
    of the table in the order of service. *)
Lemma insert_each_effect metricName aggregationLevel rows : forall w,
  exists rs,
    fst (insert_each metricName aggregationLevel rows w) = Resolved rs
    /\ Forall2 (answered metricName aggregationLevel) rows rs
    /\ store (snd (insert_each metricName aggregationLevel rows w))
       = set_time_based_aggregates
           (time_based_aggregates (store w) ++ pushed rs) (store w).
Proof.
  induction rows as [|row rest IH]; intros w; simpl.
  - exists []. split; [reflexivity|]. split; [constructor|].
    simpl. rewrite app_nil_r. symmetry. apply set_time_based_aggregates_same.
  - unfold bind, db_call.
    destruct (faults (ops w)).
    + match goal with
      | |- context [insert_each _ _ rest ?x] =>
          destruct (IH x) as [rs [R [A St]]];
          destruct (insert_each metricName aggregationLevel rest x)
            as [o w1] eqn:Run
      end.
      simpl in R, St. subst o. simpl.
      exists (inl (StoreError (ops w)) :: rs).
      split; [reflexivity|]. split; [constructor; [exact I | exact A]|].
      simpl. exact St.
    + destruct (insert_aggregate metricName aggregationLevel row (store w))
        as [[a d]|] eqn:Ins.
      * match goal with
        | |- context [insert_each _ _ rest ?x] =>
            destruct (IH x) as [rs [R [A St]]];
            destruct (insert_each metricName aggregationLevel rest x)
              as [o w1] eqn:Run
        end.
        simpl in R, St. subst o. simpl.
        unfold insert_aggregate in Ins.
        destruct (bucket_start row) eqn:Bs; [|discriminate].
        destruct (bucket_end row) eqn:Be; [|discriminate].
        inversion Ins; subst a d; clear Ins.
        eexists (inr _ :: rs).
        split; [reflexivity|]. split.
        -- constructor; [|exact A]. simpl. repeat split; assumption.
        -- rewrite St. simpl. now rewrite <- app_assoc.
      * match goal with
        | |- context [insert_each _ _ rest ?x] =>
            destruct (IH x) as [rs [R [A St]]];
            destruct (insert_each metricName aggregationLevel rest x)
              as [o w1] eqn:Run
        end.
        simpl in R, St. subst o. simpl.
        exists (inl (StoreError (ops w)) :: rs).
        split; [reflexivity|]. split; [constructor; [exact I | exact A]|].
        simpl. exact St.
Qed.

(** All the INSERTs of a run: the buckets are served in some order, the
    rows inserted stand at the end of the table in that order, and the
    promise resolves, with those rows in some order, exactly when every
    bucket got its row. *)
Lemma insert_all_effect metricName aggregationLevel rows w :
  exists served rs,
    Permutation served rows
    /\ Forall2 (answered metricName aggregationLevel) served rs
    /\ store (snd (insert_all metricName aggregationLevel rows w))
       = set_time_based_aggregates
           (time_based_aggregates (store w) ++ pushed rs) (store w)
    /\ (is_resolved (fst (insert_all metricName aggregationLevel rows w))
        = true
        <-> List.length (pushed rs) = List.length rows)
    /\ forall r,
         fst (insert_all metricName aggregationLevel rows w) = Resolved r ->
         Permutation r (pushed rs).
Proof.
  unfold insert_all, bind.
  destruct (insert_each_effect metricName aggregationLevel
              (shuffle (arrival (ops w)) rows) w) as [rs [R [A St]]].
  destruct (insert_each metricName aggregationLevel
              (shuffle (arrival (ops w)) rows) w) as [o w1] eqn:Run.
  simpl in R, St. subst o.
  exists (shuffle (arrival (ops w)) rows), rs.
  split; [apply shuffle_Permutation|]. split; [exact A|].
  assert (L : List.length rs = List.length rows)
    by (rewrite <- (Forall2_length A); apply shuffle_length).
  pose proof (shuffle_Permutation (completion (ops w)) rs) as P.
  pose proof (Permutation_length (pushed_Permutation P)) as Lp.
  pose proof (shuffle_length (completion (ops w)) rs) as Ls.
  pose proof (first_error_none (shuffle (completion (ops w)) rs)) as Fe.
  destruct (first_error (shuffle (completion (ops w)) rs)) as [e|]; simpl.
  - split; [exact St|]. split; [|discriminate].
    split; [discriminate|]. intros E.
    assert (X : Some e = None) by (apply Fe; lia). discriminate X.
  - split; [exact St|]. split.
    + split; [|reflexivity]. intros _.
      assert (List.length (pushed (shuffle (completion (ops w)) rs))
              = List.length (shuffle (completion (ops w)) rs))
        by now apply Fe.
      lia.
    + intros r E. inversion E. now apply pushed_Permutation.
Qed.

Lemma generateTimeBasedAggregates_resolved metricName aggregationLevel w r w' :
  generateTimeBasedAggregates metricName aggregationLevel w = (Resolved r, w') ->
  exists fmt query served new,
    dateFormat aggregationLevel = Some fmt
    /\ metric_query metricName fmt = Some query
    /\ Permutation served (query (store w))
    /\ Forall2 (row_of_bucket metricName aggregationLevel) served new
    /\ Permutation r new
    /\ store w' =
         set_time_based_aggregates
           (time_based_aggregates (store w) ++ new) (store w).
Proof.
  unfold generateTimeBasedAggregates. intros H.
  destruct (dateFormat aggregationLevel) as [fmt|] eqn:Hf; [|discriminate].
  destruct (metric_query metricName fmt) as [query|] eqn:Hq; [|discriminate].
  exists fmt, query.
  unfold bind, db_call, reading, settle in H.
  destruct (faults (ops w)); [discriminate|]. simpl in H.
  match type of H with
  | insert_all _ _ ?rows ?x = _ =>
      destruct (insert_all_effect metricName aggregationLevel rows x)
        as [served [rs [P [A [St [Ok Ret]]]]]]
  end.
  rewrite H in St, Ok, Ret. simpl in St, Ok, Ret.
  assert (L : List.length (pushed rs) = List.length rs).
  { rewrite <- (Forall2_length A), (Permutation_length P). now apply Ok. }
  exists served, (pushed rs).
  split; [reflexivity|]. split; [exact Hq|]. split; [exact P|].
  split; [apply answered_rows; now rewrite <- (all_pushed rs L)|].
  split; [now apply Ret | exact St].
Qed.


(** C7. For a supported metric and level, two runs of
    [generateTimeBasedAggregates] in succession that both resolve see the
    same buckets; each appends one new row per bucket, without looking at the
    rows already there, in the order the store served the INSERTs, and
    resolves with those rows in the order their callbacks fired.  The rows
    of the second run are those of the first up to their ids and their
    order, and the table ends with twice the rows a single run adds. *)
Theorem regenerating_aggregates_appends_duplicates
    metricName aggregationLevel w r1 w1 r2 w2 :
  generateTimeBasedAggregates metricName aggregationLevel w = (Resolved r1, w1) ->
  generateTimeBasedAggregates metricName aggregationLevel w1 = (Resolved r2, w2) ->
  exists fmt query b1 b2 s1 s2,
    dateFormat aggregationLevel = Some fmt
    /\ metric_query metricName fmt = Some query
    /\ query (store w1) = query (store w)
    /\ Permutation b1 (query (store w))
    /\ Forall2 (row_of_bucket metricName aggregationLevel) b1 s1
    /\ Permutation b2 (query (store w))
    /\ Forall2 (row_of_bucket metricName aggregationLevel) b2 s2
    /\ Permutation r1 s1
    /\ Permutation r2 s2
    /\ Permutation (map unnumbered r1) (map unnumbered r2)
    /\ List.length r1 = List.length (query (store w))
    /\ List.length r2 = List.length (query (store w))
    /\ time_based_aggregates (store w1)
       = (time_based_aggregates (store w) ++ s1)%list
    /\ time_based_aggregates (store w2)
       = (time_based_aggregates (store w) ++ s1 ++ s2)%list
    /\ (List.length (time_based_aggregates (store w2))
        = List.length (time_based_aggregates (store w))
          + 2 * List.length r1)%nat.
Proof.
  intros H1 H2.
  apply generateTimeBasedAggregates_resolved in H1.
  apply generateTimeBasedAggregates_resolved in H2.
  destruct H1 as [fmt [query [b1 [s1 [F [Hq [P1 [A1 [R1 St1]]]]]]]]].
  destruct H2 as [fmt' [query' [b2 [s2 [F' [Hq' [P2 [A2 [R2 St2]]]]]]]]].
  rewrite F in F'. inversion F'; subst fmt'.
  rewrite Hq in Hq'. inversion Hq'; subst query'.
  assert (Same : query (store w1) = query (store w)).
  { rewrite St1. now apply (metric_query_ignores_aggregates metricName fmt). }
  rewrite Same in P2.
  assert (L1 : List.length r1 = List.length (query (store w))).
  { rewrite (Permutation_length R1), <- (Forall2_length A1).
    now apply Permutation_length. }
  assert (L2 : List.length r2 = List.length (query (store w))).
  { rewrite (Permutation_length R2), <- (Forall2_length A2).
    now apply Permutation_length. }
  assert (T1 : time_based_aggregates (store w1)
               = (time_based_aggregates (store w) ++ s1)%list)
    by (rewrite St1; reflexivity).
  assert (T2 : time_based_aggregates (store w2)
               = (time_based_aggregates (store w) ++ s1 ++ s2)%list)
    by (rewrite St2; simpl; rewrite T1; now rewrite <- app_assoc).
  exists fmt, query, b1, b2, s1, s2.
  split; [exact F|]. split; [exact Hq|]. split; [exact Same|].
  split; [exact P1|]. split; [exact A1|].
  split; [exact P2|]. split; [exact A2|].
  split; [exact R1|]. split; [exact R2|].
  split.
  { transitivity (map unnumbered s1); [now apply Permutation_map|].
    transitivity (map unnumbered s2); [|now apply Permutation_map, Permutation_sym].
    rewrite (rows_of_buckets_unnumbered A1), (rows_of_buckets_unnumbered A2).
    apply Permutation_map. transitivity (query (store w)); [exact P1|].
    now apply Permutation_sym. }
  split; [exact L1|]. split; [exact L2|].
  split; [exact T1|]. split; [exact T2|].
  rewrite T2, !length_app.
  rewrite <- (Permutation_length R1), <- (Permutation_length R2). lia.
Qed.

(* ================================================================= *)
(** ** Facts about the prediction dispatcher *)

(** The three strategies that first read the entity's prior analytics. *)
Definition named_strategy (modelName predictionType : string) : bool :=
  let key := modelName ++ "_" ++ predictionType in
  (key =? "lead_conversion_model_conversion_probability")
  || (key =? "customer_churn_model_churn_probability")
  || (key =? "project_cost_model_cost_overrun_probability").

(** The estimates of the strategies when no prior analytics is at hand. *)
Definition fallbacks : list (Q * list (string * Z)) :=
  [(0.6%Q, [("basic_lead_info", 1)]);
   (0.6%Q, [("basic_customer_info", 1)]);
   (0.7%Q, [("basic_project_info", 1)])].

Lemma estimate_resolves modelName predictionType entityId w :
  exists e,
    fst (estimate modelName predictionType entityId w) = Resolved e
    /\ store (snd (estimate modelName predictionType entityId w)) = store w
    /\ ops (snd (estimate modelName predictionType entityId w))
       = if named_strategy modelName predictionType then S (ops w) else ops w.
Proof.
  unfold estimate, named_strategy, bind, db_call, reading,
    lead_conversion_estimate, customer_churn_estimate, project_cost_estimate,
    generic_estimate, basic_estimate, Math_random, ret.
  repeat match goal with
         | |- context [String.eqb ?a ?b] => destruct (String.eqb a b)
         end; simpl.
  all: destruct (faults (ops w)); simpl.
  all: try destruct (select_lead_analytics entityId (store w)); simpl.
  all: try destruct (select_customer_analytics entityId (store w)); simpl.
  all: try destruct (select_project_analytics entityId (store w)); simpl.
  all: eexists; repeat split; reflexivity.
Qed.

Lemma estimate_falls_back modelName predictionType entityId w :
  named_strategy modelName predictionType = true ->
  faults (ops w) = true ->
  exists e,
    fst (estimate modelName predictionType entityId w) = Resolved e
    /\ In (confidenceScore e, featuresUsed e) fallbacks.
Proof.
  unfold estimate, named_strategy, bind, db_call, reading,
    lead_conversion_estimate, customer_churn_estimate, project_cost_estimate,
    generic_estimate, basic_estimate, Math_random, ret, fallbacks.
  intros N F.
  repeat match goal with
         | H : context [String.eqb ?a ?b] |- _ => destruct (String.eqb a b)
         end; simpl in *; try discriminate.
  all: rewrite F; simpl.
  all: eexists; split; [reflexivity|]; simpl; auto 10.
Qed.

(** Every statement of [savePrediction] that fails rejects the promise. *)
Lemma savePrediction_propagates m t i p v c f days w n :
  (ops w <= n < ops (snd (savePrediction m t i p v c f days w)))%nat ->
  faults n = true ->
  fst (savePrediction m t i p v c f days w) = Rejected (StoreError n).
Proof.
  unfold savePrediction, bind, db_call, reading, writing, insert_prediction,
    settle, new_Date, ret, reject.
  simpl.
  destruct (faults (ops w)) eqn:F0; simpl.
  - intros R F. f_equal. f_equal. lia.
  - destruct (select_prediction m t i p (store w)); simpl.
    all: destruct (faults (S (ops w))) eqn:F1; simpl.
    all: intros R F.
    all: assert (n = ops w \/ n = S (ops w)) as [E|E] by lia.
    all: subst n; congruence.
Qed.

Lemma savePrediction_resolves m t i p v c f days w :
  faults (ops w) = false -> faults (S (ops w)) = false ->
  is_resolved (fst (savePrediction m t i p v c f days w)) = true.
Proof.
  unfold savePrediction, bind, db_call, reading, writing, insert_prediction,
    settle, new_Date, ret, reject.
  simpl. intros F0 F1. rewrite F0. simpl.
  destruct (select_prediction m t i p (store w)); simpl; rewrite F1; reflexivity.
Qed.

Lemma savePrediction_ops m t i p v c f days w :
  (ops (snd (savePrediction m t i p v c f days w)) <= S (S (ops w)))%nat.
Proof.
  unfold savePrediction, bind, db_call, reading, writing, insert_prediction,
    settle, new_Date, ret, reject.
  simpl. destruct (faults (ops w)); simpl; [lia|].
  destruct (select_prediction m t i p (store w)); simpl;
    destruct (faults (S (ops w))); simpl; lia.
Qed.


(* ================================================================= *)
(** ** One row per key *)

Section Upsert.

Context {T K : Type} (dec : forall a b : K, {a = b} + {a <> b}) (key : T -> K).

(** What check-then-update-or-insert does to a table: nothing when the
    promise does not resolve; otherwise a rewrite of rows that keeps their
    keys, the key being present, or one more row, the key being absent. *)
Inductive upsert (k : K) (t : list T) : bool -> list T -> Prop :=
| upsert_nothing : upsert k t false t
| upsert_update t' :
    In k (map key t) -> map key t' = map key t -> upsert k t true t'
| upsert_insert x :
    ~ In k (map key t) -> key x = k -> upsert k t true (t ++ [x]).

Definition rows_with (k : K) (t : list T) : nat := count_occ dec (map key t) k.

Lemma upsert_NoDup k t b t' :
  upsert k t b t' -> NoDup (map key t) -> NoDup (map key t').
Proof.
  intros U N. destruct U as [| t' I E | x I E]; auto.
  - now rewrite E.
  - rewrite map_app. simpl. rewrite E.
    apply NoDup_app; auto.
    + constructor; [intros []|constructor].
    + intros a Ia [Ek|[]]. subst. contradiction.
Qed.

Lemma upsert_monotone k t b t' k' :
  upsert k t b t' -> (rows_with k' t <= rows_with k' t')%nat.
Proof.
  unfold rows_with. intros U. destruct U as [| t' I E | x I E]; auto.
  - now rewrite E.
  - rewrite map_app, count_occ_app. lia.
Qed.

Lemma upsert_present k t t' :
  upsert k t true t' -> (1 <= rows_with k t')%nat.
Proof.
  unfold rows_with. intros U. apply (count_occ_In dec).
  inversion U as [| t0 I E | x I E]; subst.
  - now rewrite E.
  - rewrite map_app. apply in_or_app. right. now left.
Qed.

Lemma upsert_no_second_row k t b t' :
  upsert k t b t' -> (1 <= rows_with k t)%nat ->
  List.length t' = List.length t.
Proof.
  unfold rows_with. intros U P. apply (count_occ_In dec) in P.
  destruct U as [| t' I E | x I E]; auto.
  - rewrite <- (length_map key t'), E. apply length_map.
  - contradiction.
Qed.

Lemma rows_with_at_most_one k t :
  NoDup (map key t) -> (rows_with k t <= 1)%nat.
Proof. intros N. now apply (NoDup_count_occ dec). Qed.

(** A check [find same t] for the key [k]. *)
Variable same : T -> bool.
Variable k : K.
Hypothesis same_key : forall r, same r = true <-> key r = k.

Lemma found_key t row : find same t = Some row -> In k (map key t).
Proof using same_key.
  intros F. apply find_some in F. destruct F as [I S].
  apply in_map_iff. exists row. split; [now apply same_key | exact I].
Qed.

Lemma missing_key t : find same t = None -> ~ In k (map key t).
Proof using same_key.
  intros F I. apply in_map_iff in I. destruct I as [r [E I]].
  eapply find_none in F; eauto. apply same_key in E. congruence.
Qed.

Lemma rewrite_keeps_keys (g : T -> T) t :
  (forall r, key (g r) = key r) -> map key (map g t) = map key t.
Proof. intros G. rewrite map_map. apply map_ext. exact G. Qed.

End Upsert.

Definition prediction_key (r : Prediction.t) : string * string * Z * string :=
  (Prediction.model_name r, Prediction.entity_type r,
   Prediction.entity_id r, Prediction.prediction_type r).

Definition prediction_key_dec (a b : string * string * Z * string)
  : {a = b} + {a <> b}.
Proof.
  repeat decide equality.
Defined.

Lemma same_prediction_key_spec m t i p r :
  same_prediction_key m t i p r = true <-> prediction_key r = (m, t, i, p).
Proof.
  unfold same_prediction_key, prediction_key.
  rewrite !andb_true_iff, !String.eqb_eq, Z.eqb_eq.
  split.
  - intros [[[A B] C] D]. congruence.
  - intros E. inversion E. auto.
Qed.

(** The calls of the reconcilers and of the dispatcher. *)
Inductive call :=
| ReconcileLead (lead : Lead.t)
| ReconcileProject (project : Project.t)
| ReconcileCustomer (customer : Customer.t)
| ReconcileWeatherEvent (weatherEvent : WeatherEvent.t)
| Predict (modelName entityType : string) (entityId : Z)
          (predictionType : string).

(** One call: whether its promise resolved, and the world it leaves. *)
Definition run_call (c : call) (w : World) : bool * World :=
  match c with
  | ReconcileLead lead =>
      (is_resolved (fst (processLeadData lead w)),
       snd (processLeadData lead w))
  | ReconcileProject project =>
      (is_resolved (fst (processProjectData project w)),
       snd (processProjectData project w))
  | ReconcileCustomer customer =>
      (is_resolved (fst (processCustomerData customer w)),
       snd (processCustomerData customer w))
  | ReconcileWeatherEvent weatherEvent =>
      (is_resolved (fst (processWeatherEventData weatherEvent w)),
       snd (processWeatherEventData weatherEvent w))
  | Predict modelName entityType entityId predictionType =>
      (is_resolved
         (fst (generatePrediction modelName entityType entityId
                                  predictionType w)),
       snd (generatePrediction modelName entityType entityId
                               predictionType w))
  end.

(** Calls made one after the other, whatever each one's outcome. *)
Fixpoint run_calls (cs : list call) (w : World) : World :=
  match cs with
  | [] => w
  | c :: rest => run_calls rest (snd (run_call c w))
  end.

(** The calls of a sequence whose promise resolved. *)
Fixpoint resolved_calls (cs : list call) (w : World) : list call :=
  match cs with
  | [] => []
  | c :: rest =>
      ((if fst (run_call c w) then [c] else [])
       ++ resolved_calls rest (snd (run_call c w)))%list
  end.

(** The number of rows a derived table holds for the key of a call. *)
Definition rows_for (c : call) (d : DB) : nat :=
  match c with
  | ReconcileLead lead =>
      rows_with Z.eq_dec LeadAnalytics.lead_id (Lead.id lead)
        (lead_analytics d)
  | ReconcileProject project =>
      rows_with Z.eq_dec ProjectAnalytics.project_id (Project.id project)
        (project_analytics d)
  | ReconcileCustomer customer =>
      rows_with Z.eq_dec CustomerAnalytics.customer_id (Customer.id customer)
        (customer_analytics d)
  | ReconcileWeatherEvent weatherEvent =>
      rows_with Z.eq_dec WeatherImpactAnalytics.weather_event_id
        (WeatherEvent.id weatherEvent) (weather_impact_analytics d)
  | Predict modelName entityType entityId predictionType =>
      rows_with prediction_key_dec prediction_key
        (modelName, entityType, entityId, predictionType)
        (predictive_model_results d)
  end.

(** The size of the derived table of a call. *)
Definition table_size (c : call) (d : DB) : nat :=
  match c with
  | ReconcileLead _ => List.length (lead_analytics d)
  | ReconcileProject _ => List.length (project_analytics d)
  | ReconcileCustomer _ => List.length (customer_analytics d)
  | ReconcileWeatherEvent _ => List.length (weather_impact_analytics d)
  | Predict _ _ _ _ => List.length (predictive_model_results d)
  end.

Record one_row_per_key (d : DB) : Prop := {
  lead_rows : NoDup (map LeadAnalytics.lead_id (lead_analytics d));
  project_rows : NoDup (map ProjectAnalytics.project_id (project_analytics d));
  customer_rows :
    NoDup (map CustomerAnalytics.customer_id (customer_analytics d));
  weather_rows :
    NoDup (map WeatherImpactAnalytics.weather_event_id
               (weather_impact_analytics d));
  prediction_rows : NoDup (map prediction_key (predictive_model_results d))
}.

Lemma set_project_analytics_same d :
  set_project_analytics (project_analytics d) d = d.
Proof. now destruct d. Qed.

Lemma set_customer_analytics_same d :
  set_customer_analytics (customer_analytics d) d = d.
Proof. now destruct d. Qed.

Lemma set_weather_impact_analytics_same d :
  set_weather_impact_analytics (weather_impact_analytics d) d = d.
Proof. now destruct d. Qed.

Lemma set_predictive_model_results_same d :
  set_predictive_model_results (predictive_model_results d) d = d.
Proof. now destruct d. Qed.

Ltac nothing_written same :=
  eexists; split; [symmetry; apply same | apply upsert_nothing].

Ltac row_rewritten Sel spec :=
  eexists; split;
  [reflexivity
  | apply upsert_update;
    [ eapply found_key; [|exact Sel]; intro; apply spec
    | apply rewrite_keeps_keys; intro;
      match goal with |- context [if ?b then _ else _] => destruct b end;
      reflexivity ]].

Ltac row_added Sel spec :=
  eexists; split;
  [reflexivity
  | apply upsert_insert;
    [ eapply missing_key; [|exact Sel]; intro; apply spec
    | reflexivity ]].

Lemma processLeadData_upsert lead w :
  exists t',
    store (snd (processLeadData lead w)) = set_lead_analytics t' (store w)
    /\ upsert LeadAnalytics.lead_id (Lead.id lead) (lead_analytics (store w))
         (is_resolved (fst (processLeadData lead w))) t'.
Proof.
  pose proof (processLeadData_effect lead w) as E.
  destruct (processLeadData lead w) as [o w']. simpl in *.
  inversion E as [e w0 St | row w0 Sel St | i w0 Sel Hi St]; subst; simpl;
    rewrite St.
  - nothing_written set_lead_analytics_same.
  - row_rewritten Sel Z.eqb_eq.
  - row_added Sel Z.eqb_eq.
Qed.

Lemma processProjectData_upsert project w :
  exists t',
    store (snd (processProjectData project w))
      = set_project_analytics t' (store w)
    /\ upsert ProjectAnalytics.project_id (Project.id project)
         (project_analytics (store w))
         (is_resolved (fst (processProjectData project w))) t'.
Proof.
  pose proof (processProjectData_effect project w) as E.
  destruct (processProjectData project w) as [o w']. simpl in *.
  inversion E as [e w0 St | row w0 Sel St | i w0 Sel St]; subst; simpl;
    rewrite St.
  - nothing_written set_project_analytics_same.
  - row_rewritten Sel Z.eqb_eq.
  - row_added Sel Z.eqb_eq.
Qed.

Lemma processCustomerData_upsert customer w :
  exists t',
    store (snd (processCustomerData customer w))
      = set_customer_analytics t' (store w)
    /\ upsert CustomerAnalytics.customer_id (Customer.id customer)
         (customer_analytics (store w))
         (is_resolved (fst (processCustomerData customer w))) t'.
Proof.
  pose proof (processCustomerData_effect customer w) as E.
  destruct (processCustomerData customer w) as [o w']. simpl in *.
  inversion E as [e w0 St | ps r1 r2 days stamp row w0 Sel St
                  | ps r1 r2 days stamp i w0 Sel St]; subst; simpl;
    rewrite St.
  - nothing_written set_customer_analytics_same.
  - row_rewritten Sel Z.eqb_eq.
  - row_added Sel Z.eqb_eq.
Qed.

Lemma processWeatherEventData_upsert weatherEvent w :
  exists t',
    store (snd (processWeatherEventData weatherEvent w))
      = set_weather_impact_analytics t' (store w)
    /\ upsert WeatherImpactAnalytics.weather_event_id
         (WeatherEvent.id weatherEvent) (weather_impact_analytics (store w))
         (is_resolved (fst (processWeatherEventData weatherEvent w))) t'.
Proof.
  unfold processWeatherEventData, bind, db_call, settle, reading, writing,
    insert_weather_impact_analytics, to_iso, ret, reject, throw.
  destruct (faults (ops w)); simpl;
    [nothing_written set_weather_impact_analytics_same|].
  destruct (select_weather_impact_analytics (WeatherEvent.id weatherEvent)
              (store w)) eqn:Sel; simpl.
  all: destruct (eventDate weatherEvent) as [ms|]; simpl;
    [|nothing_written set_weather_impact_analytics_same].
  all: repeat match goal with
         | |- context [(Z.abs ?x <=? maxTime)%Z] =>
             destruct (Z.abs x <=? maxTime)%Z; simpl
         | |- context [faults (S ?n)] =>
             destruct (faults (S n)); simpl
         end.
  all: try solve [nothing_written set_weather_impact_analytics_same].
  - row_rewritten Sel Z.eqb_eq.
  - row_added Sel Z.eqb_eq.
Qed.

Lemma savePrediction_upsert m t i p v c f days w :
  exists t',
    store (snd (savePrediction m t i p v c f days w))
      = set_predictive_model_results t' (store w)
    /\ upsert prediction_key (m, t, i, p) (predictive_model_results (store w))
         (is_resolved (fst (savePrediction m t i p v c f days w))) t'.
Proof.
  unfold savePrediction, bind, db_call, settle, reading, writing,
    insert_prediction, new_Date, ret, reject.
  simpl.
  destruct (faults (ops w)); simpl;
    [nothing_written set_predictive_model_results_same|].
  destruct (select_prediction m t i p (store w)) eqn:Sel; simpl.
  all: destruct (faults (S (ops w))); simpl;
    [nothing_written set_predictive_model_results_same|].
  - row_rewritten Sel same_prediction_key_spec.
  - row_added Sel same_prediction_key_spec.
Qed.

Lemma generatePrediction_upsert m t i p w :
  exists t',
    store (snd (generatePrediction m t i p w))
      = set_predictive_model_results t' (store w)
    /\ upsert prediction_key (m, t, i, p) (predictive_model_results (store w))
         (is_resolved (fst (generatePrediction m t i p w))) t'.
Proof.
  unfold generatePrediction, bind, db_call, select_entity, settle, ret, reject.
  destruct (faults (ops w)); simpl;
    [nothing_written set_predictive_model_results_same|].
  destruct (table_ids (t ++ "s") (store w)); simpl;
    [|nothing_written set_predictive_model_results_same].
  destruct (existsb (Z.eqb i) l); simpl;
    [|nothing_written set_predictive_model_results_same].
  match goal with
  | |- context [estimate ?a ?b ?c ?x] =>
      destruct (estimate_resolves a b c x) as [e [E1 [E2 E3]]];
      destruct (estimate a b c x) as [o w1] eqn:Est
  end.
  simpl in E1, E2, E3. subst o. simpl in E2. rewrite <- E2.
  apply savePrediction_upsert.
Qed.

Lemma rows_for_at_most_one c d :
  one_row_per_key d -> (rows_for c d <= 1)%nat.
Proof.
  intros [L P C W R]. destruct c; simpl; now apply rows_with_at_most_one.
Qed.

(** What one call does to the derived tables. *)
Lemma run_call_upserts c w :
  (one_row_per_key (store w) -> one_row_per_key (store (snd (run_call c w))))
  /\ (forall c', (rows_for c' (store w)
                  <= rows_for c' (store (snd (run_call c w))))%nat)
  /\ (fst (run_call c w) = true ->
      (1 <= rows_for c (store (snd (run_call c w))))%nat)
  /\ ((1 <= rows_for c (store w))%nat ->
      forall c', table_size c' (store (snd (run_call c w)))
                 = table_size c' (store w)).
Proof.
  destruct c as [lead | project | customer | weatherEvent | m t i p]; simpl.
  - destruct (processLeadData_upsert lead w) as [t' [St U]]. rewrite St.
    split; [|split; [|split]].
    + intros [L P C W R]. constructor; simpl; auto.
      eapply upsert_NoDup; eauto.
    + intros c'. destruct c'; simpl; auto. eapply upsert_monotone; eauto.
    + intros Ok. rewrite Ok in U. simpl. eapply upsert_present; eauto.
    + intros One c'. destruct c'; simpl; auto.
      eapply upsert_no_second_row; eauto.
  - destruct (processProjectData_upsert project w) as [t' [St U]]. rewrite St.
    split; [|split; [|split]].
    + intros [L P C W R]. constructor; simpl; auto.
      eapply upsert_NoDup; eauto.
    + intros c'. destruct c'; simpl; auto. eapply upsert_monotone; eauto.
    + intros Ok. rewrite Ok in U. simpl. eapply upsert_present; eauto.
    + intros One c'. destruct c'; simpl; auto.
      eapply upsert_no_second_row; eauto.
  - destruct (processCustomerData_upsert customer w) as [t' [St U]]. rewrite St.
    split; [|split; [|split]].
    + intros [L P C W R]. constructor; simpl; auto.
      eapply upsert_NoDup; eauto.
    + intros c'. destruct c'; simpl; auto. eapply upsert_monotone; eauto.
    + intros Ok. rewrite Ok in U. simpl. eapply upsert_present; eauto.
    + intros One c'. destruct c'; simpl; auto.
      eapply upsert_no_second_row; eauto.
  - destruct (processWeatherEventData_upsert weatherEvent w) as [t' [St U]].
    rewrite St. split; [|split; [|split]].
    + intros [L P C W R]. constructor; simpl; auto.
      eapply upsert_NoDup; eauto.
    + intros c'. destruct c'; simpl; auto. eapply upsert_monotone; eauto.
    + intros Ok. rewrite Ok in U. simpl. eapply upsert_present; eauto.
    + intros One c'. destruct c'; simpl; auto.
      eapply upsert_no_second_row; eauto.
  - destruct (generatePrediction_upsert m t i p w) as [t' [St U]]. rewrite St.
    split; [|split; [|split]].
    + intros [L P C W R]. constructor; simpl; auto.
      eapply upsert_NoDup; eauto.
    + intros c'. destruct c'; simpl; auto. eapply upsert_monotone; eauto.
    + intros Ok. rewrite Ok in U. simpl. eapply upsert_present; eauto.
    + intros One c'. destruct c'; simpl; auto.
      eapply upsert_no_second_row; eauto.
Qed.

Lemma run_calls_keep_rows cs : forall w c,
  (rows_for c (store w) <= rows_for c (store (run_calls cs w)))%nat.
Proof.
  induction cs as [|c0 rest IH]; intros w c; simpl; [lia|].
  destruct (run_call_upserts c0 w) as [_ [Mono _]].
  specialize (Mono c). specialize (IH (snd (run_call c0 w)) c). lia.
Qed.

Lemma run_calls_one_row_per_key cs : forall w,
  one_row_per_key (store w) -> one_row_per_key (store (run_calls cs w)).
Proof.
  induction cs as [|c0 rest IH]; intros w Inv; simpl; [exact Inv|].
  apply IH. now apply run_call_upserts.
Qed.


(* ================================================================= *)
(** ** Facts about the batch orchestrator *)

Lemma bind_resolved {A B} (m : M A) (k : A -> M B) w b w' :
  bind m k w = (Resolved b, w') ->
  exists a w1, m w = (Resolved a, w1) /\ k a w1 = (Resolved b, w').
Proof.
  unfold bind. destruct (m w) as [[a | e | e] w1]; intros H.
  - eauto.
  - discriminate.
  - discriminate.
Qed.

(** Whatever was processed, a summary reports 20 predictions and 6
    aggregates. *)
Lemma processAllData_summary w s w' :
  processAllData w = (Resolved s, w') ->
  predictionsGenerated s = 20 /\ aggregatesGenerated s = 6.
Proof.
  unfold processAllData. intros H.
  repeat (apply bind_resolved in H; destruct H as [? [? [_ H]]]).
  unfold ret in H. inversion H. split; reflexivity.
Qed.

(* ================================================================= *)
(** ** Further facts about the scoring of leads *)

(** X1. The cap at 100 never applies: a lead score is the plain sum of the
    base and the two bonuses, between 50 and 85, and the conversion
    probability lies between 0.4 and 0.68. *)
Theorem lead_score_never_reaches_cap lead :
  leadScore lead
  = 50 + sourceBonus (Lead.source lead)
       + interestBonus (Lead.service_interest lead)
  /\ 50 <= leadScore lead <= 85
  /\ (0.4 <= conversionProbability lead <= 0.68)%Q.
Proof.
  pose proof (leadScore_range lead) as R.
  pose proof (sourceBonus_range (Lead.source lead)) as S.
  pose proof (interestBonus_range (Lead.service_interest lead)) as I.
  split; [unfold leadScore in *; lia|]. split; [exact R|].
  unfold conversionProbability.
  change (inject_Z (leadScore lead) / 100)%Q
    with (inject_Z (leadScore lead) * (1 # 100))%Q.
  assert (50 <= inject_Z (leadScore lead))%Q
    by (change 50%Q with (inject_Z 50); rewrite <- Zle_Qle; lia).
  assert (inject_Z (leadScore lead) <= 85)%Q
    by (change 85%Q with (inject_Z 85); rewrite <- Zle_Qle; lia).
  lra.
Qed.

(** X2. The two switches on the source agree: a lead earns a source bonus
    exactly when its acquisition cost is not the default 40, and a lead
    without a source is filed under "Unknown" at the default cost. *)
Theorem source_bonus_iff_listed_cost lead :
  (0 < sourceBonus (Lead.source lead) <-> acquisitionCost lead <> 40%Q)
  /\ (truthy (Lead.source lead) = false ->
      acquisitionSource lead = "Unknown" /\ acquisitionCost lead = 40%Q).
Proof.
  unfold sourceBonus, acquisitionCost, acquisitionSource.
  destruct (truthy (Lead.source lead)); simpl.
  - split; [|discriminate].
    repeat match goal with
           | |- context [String.eqb ?a ?b] => destruct (String.eqb a b)
           end; split; intros H; try lia; try discriminate;
      try (exfalso; apply H; reflexivity).
  - split; [|auto]. split; [lia | intros H; exfalso; apply H; reflexivity].
Qed.

(* ================================================================= *)
(** ** Further facts about the scoring of projects *)


Lemma zero_is_zero (c : Q) : (c == 0)%Q -> Qeq_bool c 0 = true.
Proof. intros H. now apply Qeq_bool_iff. Qed.


(** X4. For a contract amount that is null or zero the estimated and the
    actual cost are zero and both quotients are 0/0: cost_variance_percent
    and profit_margin are not numbers. *)
Theorem zero_contract_has_no_margin r1 r2 project :
  (num (Project.contract_amount project) == 0)%Q ->
  (estimatedCost project == 0)%Q
  /\ (actualCost r1 project == 0)%Q
  /\ ProjectAnalytics.cost_variance_percent (projectAnalytics r1 r2 project)
     = None
  /\ ProjectAnalytics.profit_margin (projectAnalytics r1 r2 project) = None.
Proof.
  intros Z0. simpl.
  assert (E0 : (estimatedCost project == 0)%Q)
    by (unfold estimatedCost; rewrite Z0; ring).
  split; [exact E0|].
  split; [unfold actualCost; rewrite E0; ring|].
  unfold costVariancePercent, profitMargin, js_div.
  rewrite (zero_is_zero E0), (zero_is_zero Z0). split; reflexivity.
Qed.

(** X5. Without both dates the duration variance is zero; with both dates
    present, one of which is no date, actual_duration and
    duration_variance_percent are not numbers. *)
Theorem duration_variance_at_the_edges project :
  (truthy (Project.start_date project) = false
   \/ truthy (Project.end_date project) = false ->
   exists v, durationVariancePercent project = Some v /\ (v == 0)%Q)
  /\ (truthy (Project.start_date project) = true ->
      truthy (Project.end_date project) = true ->
      Date_parse (text (Project.start_date project)) = None
      \/ Date_parse (text (Project.end_date project)) = None ->
      actualDuration project = None
      /\ durationVariancePercent project = None).
Proof.
  unfold durationVariancePercent, actualDuration. split.
  - intros A.
    assert (B : truthy (Project.start_date project)
                && truthy (Project.end_date project) = false)
      by (destruct A as [A|A]; rewrite A;
          [reflexivity | apply andb_false_r]).
    rewrite B. simpl. eexists. split; [reflexivity|].
    assert (P : ~ (inject_Z (estimatedDuration project) == 0)%Q).
    { unfold estimatedDuration.
      repeat match goal with
             | |- context [if ?b then _ else _] => destruct b
             end; discriminate. }
    field. exact P.
  - intros Ts Te [P|P]; rewrite Ts, Te; simpl; rewrite P.
    + split; reflexivity.
    + destruct (Date_parse (text (Project.start_date project)));
        split; reflexivity.
Qed.

(** The satisfaction placeholder of a draw in [0,1) lies in [3,5). *)
Lemma satisfaction_range r1 r2 project s :
  (0 <= r2 < 1)%Q ->
  ProjectAnalytics.customer_satisfaction_score (projectAnalytics r1 r2 project)
    = Some s ->
  (3 <= s < 5)%Q.
Proof. simpl. intros R E. inversion E. lra. Qed.

(* ================================================================= *)
(** ** Further facts about the weather reconciler *)

Lemma typeMultiplier_range event_type : (2 <= typeMultiplier event_type <= 10)%Q.
Proof.
  unfold typeMultiplier. destruct (option_map toLowerCase event_type).
  - repeat match goal with
           | |- context [if ?b then _ else _] => destruct b
           end; split; discriminate.
  - split; discriminate.
Qed.

Lemma Qfloor_nonneg (q : Q) : (0 <= q)%Q -> 0 <= Qfloor q.
Proof.
  intros H. change 0 with (Qfloor 0). now apply Qfloor_resp_le.
Qed.

Lemma Qfloor_below (q : Q) (n : Z) : (q < inject_Z n)%Q -> Qfloor q < n.
Proof.
  intros H. rewrite Zlt_Qlt. eapply Qle_lt_trans; [apply Qfloor_le | exact H].
Qed.

(** X6. For a severity that is not negative the impact figures are not
    negative either, the projects created never exceed the leads generated,
    the leads generated never exceed ten per point of severity, and the
    revenue impact is 8500 per project created. *)
Theorem weather_impact_is_bounded e :
  (0 <= num (WeatherEvent.severity e))%Q ->
  0 <= projectsCreated e <= leadsGenerated e
  /\ (inject_Z (leadsGenerated e) <= 10 * num (WeatherEvent.severity e))%Q
  /\ (revenueImpact e == 8500 * inject_Z (projectsCreated e))%Q
  /\ (0 <= revenueImpact e)%Q.
Proof.
  intros S.
  pose proof (typeMultiplier_range (WeatherEvent.event_type e)) as [M1 M2].
  assert (L0 : 0 <= leadsGenerated e).
  { unfold leadsGenerated. apply Qfloor_nonneg. nra. }
  assert (QL0 : (0 <= inject_Z (leadsGenerated e))%Q)
    by (change 0%Q with (inject_Z 0); now rewrite <- Zle_Qle).
  assert (P0 : 0 <= projectsCreated e).
  { unfold projectsCreated. apply Qfloor_nonneg. lra. }
  assert (PL : projectsCreated e <= leadsGenerated e).
  { unfold projectsCreated.
    rewrite <- (Qfloor_Z (leadsGenerated e)) at 2.
    apply Qfloor_resp_le. lra. }
  assert (QP0 : (0 <= inject_Z (projectsCreated e))%Q)
    by (change 0%Q with (inject_Z 0); now rewrite <- Zle_Qle).
  split; [lia|]. split.
  - unfold leadsGenerated.
    eapply Qle_trans; [apply Qfloor_le|]. nra.
  - unfold revenueImpact, avgProjectValue. split; [ring | lra].
Qed.

Definition impactWindow : Z := 30 * 24 * 60 * 60 * 1000.

Inductive weather_effect (e : WeatherEvent.t) (w : World)
  : outcome WeatherImpactAnalytics.t -> World -> Prop :=
| weather_failed err w' :
    store w' = store w ->
    weather_effect e w (Rejected err) w'
| weather_threw w' :
    store w' = store w ->
    weather_effect e w (Threw RangeError) w'
| weather_updated t row w' :
    eventDate e = Some t ->
    select_weather_impact_analytics (WeatherEvent.id e) (store w) = Some row ->
    store w' =
      update_weather_impact_analytics
        (weatherImpactAnalytics e (toISOString t)
           (toISOString (t + impactWindow)))
        (WeatherEvent.id e) (store w) ->
    weather_effect e w
      (Resolved (weatherImpactAnalytics e (toISOString t)
                   (toISOString (t + impactWindow)))) w'
| weather_inserted t i w' :
    eventDate e = Some t ->
    select_weather_impact_analytics (WeatherEvent.id e) (store w) = None ->
    store w' =
      set_weather_impact_analytics
        (weather_impact_analytics (store w)
         ++ [weather_with_id i
               (weatherImpactAnalytics e (toISOString t)
                  (toISOString (t + impactWindow)))])
        (store w) ->
    weather_effect e w
      (Resolved (weather_with_id i
                   (weatherImpactAnalytics e (toISOString t)
                      (toISOString (t + impactWindow))))) w'.

Lemma processWeatherEventData_effect e w :
  weather_effect e w (fst (processWeatherEventData e w))
    (snd (processWeatherEventData e w)).
Proof.
  unfold processWeatherEventData, bind, db_call, settle, reading, writing,
    insert_weather_impact_analytics, to_iso, ret, reject, throw.
  destruct (faults (ops w)); simpl; [now constructor|].
  destruct (select_weather_impact_analytics (WeatherEvent.id e) (store w))
    eqn:Sel; simpl.
  all: destruct (eventDate e) as [ms|] eqn:Ev; simpl; [|now constructor].
  all: repeat match goal with
         | |- context [(Z.abs ?x <=? maxTime)%Z] =>
             destruct (Z.abs x <=? maxTime)%Z; simpl
         | |- context [faults (S ?n)] =>
             destruct (faults (S n)); simpl
         end.
  all: try solve [now constructor].
  all: econstructor; eauto.
Qed.

(** X7. An event date that is no date makes [toISOString] throw inside the
    callback of the first read: the promise neither resolves nor rejects,
    and nothing is written. *)
Theorem invalid_event_date_never_settles e s w :
  WeatherEvent.event_date e = Some s ->
  Date_parse s = None ->
  faults (ops w) = false ->
  fst (processWeatherEventData e w) = Threw RangeError
  /\ store (snd (processWeatherEventData e w)) = store w
  /\ ops (snd (processWeatherEventData e w)) = S (ops w).
Proof.
  intros E P F.
  unfold processWeatherEventData, bind, db_call, settle, reading, to_iso,
    eventDate, ret, throw.
  rewrite F, E, P. simpl. repeat split.
Qed.

(** X8. When the weather reconciler resolves, the impact window starts at
    the event date, the epoch for a null date, and ends thirty days later. *)
Theorem impact_window_is_thirty_days e w a w' :
  processWeatherEventData e w = (Resolved a, w') ->
  exists t,
    eventDate e = Some t
    /\ (WeatherEvent.event_date e = None -> t = 0)
    /\ WeatherImpactAnalytics.impact_start_date a = Some (toISOString t)
    /\ WeatherImpactAnalytics.impact_end_date a
       = Some (toISOString (t + 30 * msPerDay)).
Proof.
  intros H. pose proof (processWeatherEventData_effect e w) as E.
  rewrite H in E. simpl in E.
  inversion E as [| | t row w0 Ev Sel St | t i w0 Ev Sel St]; subst; clear E.
  all: exists t; split; [exact Ev|]; split;
    [intros N; unfold eventDate in Ev; rewrite N in Ev; congruence|].
  all: split; reflexivity.
Qed.

Lemma update_weather_table_fixed a k t :
  (forall r, In r t -> WeatherImpactAnalytics.weather_event_id r = k ->
             update_weather_row a r = r) ->
  map (fun r => if (WeatherImpactAnalytics.weather_event_id r =? k)%Z
                then update_weather_row a r else r) t = t.
Proof.
  intros H. rewrite <- (map_id t) at 2. apply map_ext_in.
  intros r I. destruct (Z.eqb_spec (WeatherImpactAnalytics.weather_event_id r) k);
    auto.
Qed.

(** X9. The weather reconciler reads neither the clock nor a random draw, so
    reconciling an event a second time changes nothing: the store after the
    second run is the store after the first. *)
Theorem weather_reconciliation_is_idempotent e w a w1 a2 w2 :
  processWeatherEventData e w = (Resolved a, w1) ->
  processWeatherEventData e w1 = (Resolved a2, w2) ->
  store w2 = store w1
  /\ WeatherImpactAnalytics.leads_generated a2
     = WeatherImpactAnalytics.leads_generated a
  /\ WeatherImpactAnalytics.revenue_impact a2
     = WeatherImpactAnalytics.revenue_impact a
  /\ WeatherImpactAnalytics.impact_end_date a2
     = WeatherImpactAnalytics.impact_end_date a.
Proof.
  intros H1 H2.
  pose proof (processWeatherEventData_effect e w) as E1.
  pose proof (processWeatherEventData_effect e w1) as E2.
  rewrite H1 in E1. rewrite H2 in E2. simpl in E1, E2.
  inversion E1 as [| | t row w0 Ev Sel St | t i w0 Ev Sel St]; subst; clear E1.
  all: inversion E2 as [| | t' row' w0' Ev' Sel' St' | t' i' w0' Ev' Sel' St'];
    subst; clear E2.
  all: rewrite Ev in Ev'; inversion Ev'; subst t'.
  all: try (split; [|repeat split]).
  - rewrite St'. unfold update_weather_impact_analytics.
    rewrite update_weather_table_fixed;
      [apply set_weather_impact_analytics_same|].
    intros r I K. rewrite St in I. simpl in I.
    apply in_map_iff in I. destruct I as [r0 [E0 I0]].
    destruct (Z.eqb_spec (WeatherImpactAnalytics.weather_event_id r0)
                (WeatherEvent.id e)); subst r; [reflexivity | contradiction].
  - exfalso. rewrite St in Sel'.
    unfold select_weather_impact_analytics, update_weather_impact_analytics
      in Sel'. simpl in Sel'.
    apply find_some in Sel. destruct Sel as [I K].
    eapply find_none in Sel'.
    2:{ apply in_map_iff. exists row. split; [reflexivity | exact I]. }
    simpl in K, Sel'. rewrite K in Sel'. simpl in Sel'. congruence.
  - rewrite St'. unfold update_weather_impact_analytics.
    rewrite update_weather_table_fixed;
      [apply set_weather_impact_analytics_same|].
    intros r I K. rewrite St in I. simpl in I.
    apply in_app_or in I. destruct I as [I | [I | []]].
    + exfalso. eapply find_none in Sel; eauto.
      simpl in Sel. rewrite K, Z.eqb_refl in Sel. discriminate.
    + subst r. reflexivity.
  - exfalso. rewrite St in Sel'.
    unfold select_weather_impact_analytics in Sel'. simpl in Sel'.
    eapply find_none in Sel'.
    2:{ apply in_or_app. right. left. reflexivity. }
    simpl in Sel'. rewrite Z.eqb_refl in Sel'. discriminate.
Qed.

(* ================================================================= *)
(** ** Further facts about the customer reconciler *)

(** What the customer reconciler computes from the world it starts in. *)
Definition customer_projects (customer : Customer.t) (w : World)
  : list Project.t :=
  select_customer_projects (Customer.id customer) (store w).

Definition customer_days (customer : Customer.t) (w : World) : option Z :=
  if truthy (lastProjectDate (customer_projects customer w))
  then daysSinceLastProject (now (ticks w))
         (text (lastProjectDate (customer_projects customer w)))
  else None.

Definition customer_record (customer : Customer.t) (w : World)
  : CustomerAnalytics.t :=
  customerAnalytics customer (customer_projects customer w)
    (random (draws w)) (random (S (draws w))) (customer_days customer w)
    (now (if truthy (lastProjectDate (customer_projects customer w))
          then S (ticks w) else ticks w)).

Lemma processCustomerData_resolved customer w a w' :
  processCustomerData customer w = (Resolved a, w') ->
  a = customer_record customer w
  \/ exists i, a = customer_with_id i (customer_record customer w).
Proof.
  unfold processCustomerData, customer_record, customer_days,
    customer_projects, bind, db_call, settle, reading, writing,
    insert_customer_analytics, Math_random, new_Date, ret, reject.
  destruct (faults (ops w)); simpl; [discriminate|].
  destruct (truthy (lastProjectDate
                      (select_customer_projects (Customer.id customer) (store w))));
    simpl.
  all: destruct (faults (S (ops w))); simpl; [discriminate|].
  all: destruct (select_customer_analytics (Customer.id customer) (store w));
    simpl.
  all: destruct (faults (S (S (ops w)))); simpl; [discriminate|].
  all: intros H; inversion H; eauto.
Qed.

Lemma customer_record_fields customer w a :
  a = customer_record customer w
  \/ (exists i, a = customer_with_id i (customer_record customer w)) ->
  CustomerAnalytics.lifetime_value a
    = CustomerAnalytics.lifetime_value (customer_record customer w)
  /\ CustomerAnalytics.acquisition_cost a
     = CustomerAnalytics.acquisition_cost (customer_record customer w)
  /\ CustomerAnalytics.retention_score a
     = CustomerAnalytics.retention_score (customer_record customer w)
  /\ CustomerAnalytics.churn_probability a
     = CustomerAnalytics.churn_probability (customer_record customer w)
  /\ CustomerAnalytics.referral_count a
     = CustomerAnalytics.referral_count (customer_record customer w)
  /\ CustomerAnalytics.project_count a
     = CustomerAnalytics.project_count (customer_record customer w)
  /\ CustomerAnalytics.average_project_value a
     = CustomerAnalytics.average_project_value (customer_record customer w).
Proof. intros [E | [i E]]; subst a; repeat split. Qed.


(** X10. A customer without projects gets project_count 0, an average
    project value and a lifetime value of 0, the base retention score 50 and
    a churn probability of 0.55, whatever the draws and the clock: the
    returned record holds them, the customer has a stored row, and every
    stored row of the customer holds them. *)
Theorem customer_without_projects customer w a w' :
  customer_projects customer w = [] ->
  processCustomerData customer w = (Resolved a, w') ->
  exists average lifetime churn,
    (average == 0)%Q /\ (lifetime == 0)%Q /\ (churn == 0.55)%Q
    /\ CustomerAnalytics.project_count a = Some 0
    /\ CustomerAnalytics.retention_score a = Some 50
    /\ CustomerAnalytics.average_project_value a = Some average
    /\ CustomerAnalytics.lifetime_value a = Some lifetime
    /\ CustomerAnalytics.churn_probability a = Some churn
    /\ (exists row,
          select_customer_analytics (Customer.id customer) (store w')
          = Some row)
    /\ forall row,
         In row (customer_analytics (store w')) ->
         CustomerAnalytics.customer_id row = Customer.id customer ->
         CustomerAnalytics.project_count row = Some 0
         /\ CustomerAnalytics.retention_score row = Some 50
         /\ CustomerAnalytics.average_project_value row = Some average
         /\ CustomerAnalytics.lifetime_value row = Some lifetime
         /\ CustomerAnalytics.churn_probability row = Some churn.
Proof.
  intros E H. destruct (processCustomerData_rows customer w H) as [Ex Rows].
  apply processCustomerData_resolved in H.
  apply customer_record_fields in H.
  destruct H as [L [_ [R [C [_ [P A]]]]]].
  unfold customer_record, customer_days in L, R, C, P, A.
  rewrite E in L, R, C, P, A. simpl in L, R, C, P, A.
  eexists. eexists. eexists.
  split; [|split; [|split; [|split; [exact P|split; [exact R|split;
    [exact A|split; [exact L|split; [exact C|split; [exact Ex|]]]]]]]]].
  4:{ intros row I K.
      destruct (Rows row I K) as [L' [_ [R' [C' [_ [P' [A' _]]]]]]].
      rewrite L', R', C', P', A'. auto. }
  all: reflexivity.
Qed.


(** X12. For draws in [0,1) the two placeholders are whole numbers in
    range: acquisition_cost between 100 and 399, referral_count 0, 1 or 2. *)
Theorem customer_placeholders_in_range customer w a w' :
  (0 <= random (draws w) < 1)%Q ->
  (0 <= random (S (draws w)) < 1)%Q ->
  processCustomerData customer w = (Resolved a, w') ->
  exists cost referrals,
    CustomerAnalytics.acquisition_cost a = Some (inject_Z cost)
    /\ 100 <= cost <= 399
    /\ CustomerAnalytics.referral_count a = Some referrals
    /\ 0 <= referrals <= 2.
Proof.
  intros R1 R2 H. apply processCustomerData_resolved in H.
  apply customer_record_fields in H.
  destruct H as [_ [A [_ [_ [F _]]]]].
  rewrite A, F. simpl.
  exists (Qfloor (random (draws w) * 300) + 100), (Qfloor (random (S (draws w)) * 3)).
  split; [reflexivity|].
  assert (0 <= Qfloor (random (draws w) * 300)) by (apply Qfloor_nonneg; lra).
  assert (Qfloor (random (draws w) * 300) < 300).
  { apply Qfloor_below. change (inject_Z 300) with 300%Q. lra. }
  assert (0 <= Qfloor (random (S (draws w)) * 3)) by (apply Qfloor_nonneg; lra).
  assert (Qfloor (random (S (draws w)) * 3) < 3).
  { apply Qfloor_below. change (inject_Z 3) with 3%Q. lra. }
  split; [lia|]. split; [reflexivity | lia].
Qed.


(** X13. The clamp of the retention score never applies: the score lies
    between 40 and 100, in the returned record and in every stored row of
    the customer, and the churn probability is 1 - score/100 * 0.9, between
    0.1 and 0.64 up to the rounding of the doubles: within the tolerance of
    10^-9 both as the exact value and as the double the code computes for
    that score. *)
Theorem retention_and_churn_tight_range customer w a w' :
  processCustomerData customer w = (Resolved a, w') ->
  exists s churn,
    40 <= s <= 100
    /\ (churn == 1 - inject_Z s / 100 * 0.9)%Q
    /\ (0.1 - tolerance <= churn <= 0.64 + tolerance)%Q
    /\ Double.within 0.1%float 0.64%float (Double.churnProbability s) = true
    /\ CustomerAnalytics.retention_score a = Some s
    /\ CustomerAnalytics.churn_probability a = Some churn
    /\ (exists row,
          select_customer_analytics (Customer.id customer) (store w')
          = Some row)
    /\ forall row,
         In row (customer_analytics (store w')) ->
         CustomerAnalytics.customer_id row = Customer.id customer ->
         CustomerAnalytics.retention_score row = Some s
         /\ CustomerAnalytics.churn_probability row = Some churn.
Proof.
  intros H. destruct (processCustomerData_rows customer w H) as [Ex Rows].
  apply processCustomerData_resolved in H.
  apply customer_record_fields in H.
  destruct H as [_ [_ [R [C _]]]]. simpl in R, C.
  pose proof (retentionScore_range (customer_projects customer w)
                (customer_days customer w)) as Range.
  destruct (churnProbability_range Range) as [Eq Bounds].
  eexists. eexists.
  split; [exact Range|]. split; [exact Eq|].
  split; [unfold tolerance; lra|].
  split; [now apply double_churn_within|].
  split; [exact R|]. split; [exact C|]. split; [exact Ex|].
  intros row I K. destruct (Rows row I K) as [_ [_ [R' [C' _]]]].
  rewrite R', C'. split; assumption.
Qed.

(** The date of the accumulator of [projects.reduce]. *)
Definition date_of (latest : option Project.t) : option string :=
  match latest with
  | Some l => projectDate l
  | None => None
  end.

Lemma later_spec latest project :
  (truthy (date_of latest) = true ->
   Date_parse (text (date_of latest)) <> None) ->
  (truthy (projectDate project) = true ->
   Date_parse (text (projectDate project)) <> None) ->
  (later latest project = latest \/ later latest project = Some project)
  /\ (truthy (date_of (later latest project)) = true <->
      truthy (date_of latest) = true \/ truthy (projectDate project) = true)
  /\ (truthy (date_of (later latest project)) = true ->
      exists tr,
        Date_parse (text (date_of (later latest project))) = Some tr
        /\ (forall ta, truthy (date_of latest) = true ->
                       Date_parse (text (date_of latest)) = Some ta ->
                       ta <= tr)
        /\ (forall tp, truthy (projectDate project) = true ->
                       Date_parse (text (projectDate project)) = Some tp ->
                       tp <= tr)).
Proof.
  intros PL PP. unfold later. fold (date_of latest).
  destruct (truthy (date_of latest)) eqn:TL; simpl.
  - specialize (PL eq_refl).
    destruct (Date_parse (text (date_of latest))) as [b|] eqn:DL;
      [|congruence].
    destruct (truthy (projectDate project)) eqn:TP; simpl.
    + specialize (PP eq_refl).
      destruct (Date_parse (text (projectDate project))) as [a|] eqn:DP;
        [|congruence].
      destruct (Z.ltb_spec b a).
      * split; [now right|]. simpl. rewrite TP. split; [split; auto|].
        intros _. exists a. rewrite DP. split; [reflexivity|].
        split; intros t _ E; inversion E; lia.
      * split; [now left|]. rewrite TL. split; [split; auto|].
        intros _. exists b. rewrite DL. split; [reflexivity|].
        split; intros t _ E; inversion E; lia.
    + split; [now left|]. rewrite TL. split; [split; auto|].
      intros _. exists b. rewrite DL. split; [reflexivity|].
      split; intros t E; [intros E'; inversion E'; lia | discriminate].
  - split; [now right|]. simpl. split.
    + split; [now right | intros [E|E]; [discriminate | exact E]].
    + intros TP. specialize (PP TP).
      destruct (Date_parse (text (projectDate project))) as [a|] eqn:DP;
        [|congruence].
      exists a. split; [reflexivity|].
      split; [intros t E; discriminate | intros t _ E; inversion E; lia].
Qed.

Lemma fold_later_spec ps : forall latest,
  (forall p, In p ps -> truthy (projectDate p) = true ->
             Date_parse (text (projectDate p)) <> None) ->
  (truthy (date_of latest) = true ->
   Date_parse (text (date_of latest)) <> None) ->
  (fold_left later ps latest = latest
   \/ exists l, fold_left later ps latest = Some l /\ In l ps)
  /\ (truthy (date_of (fold_left later ps latest)) = true <->
      truthy (date_of latest) = true
      \/ exists p, In p ps /\ truthy (projectDate p) = true)
  /\ (truthy (date_of (fold_left later ps latest)) = true ->
      exists tr,
        Date_parse (text (date_of (fold_left later ps latest))) = Some tr
        /\ (forall ta, truthy (date_of latest) = true ->
                       Date_parse (text (date_of latest)) = Some ta ->
                       ta <= tr)
        /\ (forall p tp, In p ps -> truthy (projectDate p) = true ->
                         Date_parse (text (projectDate p)) = Some tp ->
                         tp <= tr)).
Proof.
  induction ps as [|p ps IH]; intros latest All PL; simpl.
  - split; [now left|]. split.
    + split; [now left | intros [E | [p [[] _]]]; exact E].
    + intros T. specialize (PL T).
      destruct (Date_parse (text (date_of latest))) as [b|] eqn:DL;
        [|congruence].
      exists b. split; [reflexivity|].
      split; [intros t _ E; inversion E; lia | intros p tp []].
  - assert (PP : truthy (projectDate p) = true ->
                 Date_parse (text (projectDate p)) <> None)
      by (apply All; now left).
    destruct (later_spec latest p PL PP) as [Which [Truthy Latest]].
    assert (PL' : truthy (date_of (later latest p)) = true ->
                  Date_parse (text (date_of (later latest p))) <> None).
    { intros T. destruct (Latest T) as [tr [E _]]. congruence. }
    assert (All' : forall q, In q ps -> truthy (projectDate q) = true ->
                             Date_parse (text (projectDate q)) <> None)
      by (intros q I; apply All; now right).
    destruct (IH (later latest p) All' PL') as [Which' [Truthy' Latest']].
    split; [|split].
    + destruct Which' as [E | [l [E I]]].
      * rewrite E. destruct Which as [E' | E'];
          [left; exact E' | right; exists p; split; [exact E' | now left]].
      * right. exists l. split; [exact E | now right].
    + rewrite Truthy', Truthy. split.
      * intros [[T|T] | [q [I T]]]; [now left | |].
        -- right. exists p. split; [now left | exact T].
        -- right. exists q. split; [now right | exact T].
      * intros [T | [q [[E|I] T]]]; [left; now left | |].
        -- subst q. left. now right.
        -- right. exists q. split; assumption.
    + intros T. destruct (Latest' T) as [tr [E [Acc Rest]]].
      exists tr. split; [exact E|]. split.
      * intros ta TA DA.
        assert (T1 : truthy (date_of (later latest p)) = true)
          by (apply Truthy; now left).
        destruct (Latest T1) as [t1 [E1 [Acc1 _]]].
        specialize (Acc1 ta TA DA). specialize (Acc t1 T1 E1). lia.
      * intros q tq [Eq|I] TQ DQ.
        -- subst q.
           assert (T1 : truthy (date_of (later latest p)) = true)
             by (apply Truthy; now right).
           destruct (Latest T1) as [t1 [E1 [_ New1]]].
           specialize (New1 tq TQ DQ). specialize (Acc t1 T1 E1). lia.
        -- apply (Rest q tq I TQ DQ).
Qed.

(** X14. [projects.reduce] finds the most recent project.  When every dated
    project of the list bears a date that parses, the last project is one of
    the list, it is dated as soon as some project is, and no project of the
    list is dated later than it; the date of a project is its end date, or
    its start date for want of one. *)
Theorem last_project_is_the_latest ps :
  (forall p, In p ps -> truthy (projectDate p) = true ->
             Date_parse (text (projectDate p)) <> None) ->
  (forall l, lastProject ps = Some l -> In l ps)
  /\ (truthy (lastProjectDate ps) = true <->
      exists p, In p ps /\ truthy (projectDate p) = true)
  /\ (forall p tp,
        In p ps -> truthy (projectDate p) = true ->
        Date_parse (text (projectDate p)) = Some tp ->
        exists tl,
          Date_parse (text (lastProjectDate ps)) = Some tl /\ tp <= tl).
Proof.
  intros All.
  assert (PL : truthy (date_of None) = true ->
               Date_parse (text (date_of None)) <> None) by discriminate.
  destruct (fold_later_spec ps None All PL) as [Which [Truthy Latest]].
  fold (lastProject ps) in Which, Truthy, Latest.
  change (date_of (lastProject ps)) with (lastProjectDate ps) in Truthy, Latest.
  split; [|split].
  - intros l E. destruct Which as [N | [l' [E' I]]]; [congruence|].
    rewrite E in E'. inversion E'. now subst.
  - rewrite Truthy. split; [intros [E|E]; [discriminate | exact E] | now right].
  - intros p tp I T D.
    assert (TL : truthy (lastProjectDate ps) = true)
      by (apply Truthy; right; exists p; split; assumption).
    destruct (Latest TL) as [tl [E [_ Rest]]].
    exists tl. split; [exact E | apply (Rest p tp I T D)].
Qed.

(* ================================================================= *)
(** ** Further facts about the prediction dispatcher *)

Lemma find_map_same {T} (same : T -> bool) (g : T -> T) t :
  (forall r, same (g r) = same r) ->
  find same (map g t) = option_map g (find same t).
Proof.
  intros G. induction t as [|r t IH]; simpl; [reflexivity|].
  rewrite G. destruct (same r); [reflexivity | exact IH].
Qed.

Lemma find_app_new {T} (same : T -> bool) t x :
  find same t = None -> same x = true -> find same (t ++ [x]) = Some x.
Proof.
  intros N S. induction t as [|r t IH]; simpl in *.
  - now rewrite S.
  - destruct (same r); [discriminate | now apply IH].
Qed.

Lemma lastID_is_fresh ids : ~ In (lastID ids) ids.
Proof.
  assert (B : forall i, In i ids -> i <= fold_right Z.max 0 ids).
  { induction ids as [|j ids IH]; simpl; intros i [].
    - subst. lia.
    - specialize (IH i H). lia. }
  intros I. apply B in I. unfold lastID in I. lia.
Qed.

Lemma NoDup_map_injective {T K} (f : T -> K) l x y :
  NoDup (map f l) -> In x l -> In y l -> f x = f y -> x = y.
Proof.
  induction l as [|a l IH]; simpl; intros N Ix Iy E; [contradiction|].
  inversion N as [|? ? Nin N']; subst.
  destruct Ix as [Ex|Ix], Iy as [Ey|Iy]; subst; auto.
  - exfalso. apply Nin. rewrite E. now apply in_map.
  - exfalso. apply Nin. rewrite <- E. now apply in_map.
Qed.

(** The prediction [savePrediction] builds from its arguments and the second
    clock reading. *)
Definition built_prediction (m t : string) (i : Z) (p : string)
    (v : option Q) (c : Q) (f : list (string * Z)) (days : Z) (w : World)
  : Prediction.t :=
  {| Prediction.id := 0;
     Prediction.model_name := m;
     Prediction.entity_type := t;
     Prediction.entity_id := i;
     Prediction.prediction_type := p;
     Prediction.prediction_value := v;
     Prediction.confidence_score := c;
     Prediction.features_used := f;
     Prediction.prediction_date := toISOString (now (S (ticks w)));
     Prediction.expiration_date := toISOString (addDays (now (ticks w)) days) |}.

Inductive save_effect (m t : string) (i : Z) (p : string)
    (v : option Q) (c : Q) (f : list (string * Z)) (days : Z) (w : World)
  : outcome Prediction.t -> World -> Prop :=
| save_failed e w' :
    store w' = store w ->
    save_effect m t i p v c f days w (Rejected e) w'
| save_updated found w' :
    select_prediction m t i p (store w) = Some found ->
    store w' =
      update_prediction (built_prediction m t i p v c f days w)
        (Prediction.id found) (store w) ->
    save_effect m t i p v c f days w
      (Resolved (prediction_with_id (Prediction.id found)
                   (built_prediction m t i p v c f days w))) w'
| save_inserted w' :
    select_prediction m t i p (store w) = None ->
    store w' =
      set_predictive_model_results
        (predictive_model_results (store w)
         ++ [prediction_with_id
               (lastID (map Prediction.id (predictive_model_results (store w))))
               (built_prediction m t i p v c f days w)])
        (store w) ->
    save_effect m t i p v c f days w
      (Resolved (prediction_with_id
                   (lastID (map Prediction.id
                                (predictive_model_results (store w))))
                   (built_prediction m t i p v c f days w))) w'.

Lemma savePrediction_effect m t i p v c f days w :
  save_effect m t i p v c f days w
    (fst (savePrediction m t i p v c f days w))
    (snd (savePrediction m t i p v c f days w)).
Proof.
  unfold savePrediction, bind, db_call, settle, reading, writing,
    insert_prediction, new_Date, ret, reject.
  simpl.
  destruct (faults (ops w)); simpl; [now constructor|].
  destruct (select_prediction m t i p (store w)) eqn:Sel; simpl.
  all: destruct (faults (S (ops w))); simpl; [now constructor|].
  - now apply save_updated.
  - now apply save_inserted.
Qed.

Lemma updated_row_is_built m t i p v c f days w found :
  same_prediction_key m t i p found = true ->
  update_prediction_row (built_prediction m t i p v c f days w) found
  = prediction_with_id (Prediction.id found)
      (built_prediction m t i p v c f days w).
Proof.
  intros S. apply same_prediction_key_spec in S.
  unfold prediction_key in S. inversion S.
  unfold update_prediction_row, prediction_with_id. simpl. reflexivity.
Qed.

(** The run of [generatePrediction] behind a prediction that resolved: the
    entity was found, a strategy gave its estimate without touching the
    store, and [savePrediction] saved it. *)
Lemma generatePrediction_resolved m t i p w pr w' :
  generatePrediction m t i p w = (Resolved pr, w') ->
  exists e w0 w1,
    store w0 = store w /\ ops w0 = S (ops w) /\ draws w0 = draws w
    /\ estimate m p i w0 = (Resolved e, w1)
    /\ store w1 = store w
    /\ savePrediction m t i p (predictionValue e) (confidenceScore e)
         (featuresUsed e) expirationDays w1 = (Resolved pr, w').
Proof.
  unfold generatePrediction, bind, db_call, select_entity, settle, ret, reject.
  destruct (faults (ops w)); simpl; [discriminate|].
  destruct (table_ids (t ++ "s") (store w)); simpl; [|discriminate].
  destruct (existsb (Z.eqb i) l); simpl; [|discriminate].
  match goal with
  | |- context [estimate ?a ?b ?c ?x] =>
      destruct (estimate_resolves a b c x) as [e [E1 [E2 E3]]];
      destruct (estimate a b c x) as [o w1] eqn:Est
  end.
  simpl in E1, E2, E3. subst o. intros H.
  exists e, {| store := store w; ops := S (ops w); draws := draws w;
               ticks := ticks w |}, w1.
  do 3 (split; [reflexivity|]).
  split; [exact Est|]. split; [exact E2 | exact H].
Qed.

(** X15. A prediction for an entity that is not in its table is rejected as
    not found, and one for an entity type that names no table is rejected
    with the error of the store; either way one statement was sent, nothing
    was drawn and nothing was written. *)
Theorem missing_entity_is_rejected m t i p w :
  faults (ops w) = false ->
  let after :=
    {| store := store w; ops := S (ops w); draws := draws w;
       ticks := ticks w |} in
  (forall ids, table_ids (t ++ "s") (store w) = Some ids -> ~ In i ids ->
               generatePrediction m t i p w = (Rejected (NotFound t i), after))
  /\ (table_ids (t ++ "s") (store w) = None ->
      generatePrediction m t i p w = (Rejected (StoreError (ops w)), after)).
Proof.
  intros F. simpl.
  unfold generatePrediction, bind, db_call, select_entity, settle, ret, reject.
  rewrite F. split.
  - intros ids E N. rewrite E.
    assert (X : existsb (Z.eqb i) ids = false).
    { destruct (existsb (Z.eqb i) ids) eqn:B; [|reflexivity].
      apply existsb_exists in B. destruct B as [j [I J]].
      apply Z.eqb_eq in J. subst j. contradiction. }
    rewrite X. reflexivity.
  - intros E. rewrite E. reflexivity.
Qed.

Lemma generatePrediction_lookup m t i p w pr w' :
  generatePrediction m t i p w = (Resolved pr, w') ->
  select_prediction m t i p (store w') = Some pr
  /\ Prediction.model_name pr = m /\ Prediction.entity_type pr = t
  /\ Prediction.entity_id pr = i /\ Prediction.prediction_type pr = p.
Proof.
  intros H. apply generatePrediction_resolved in H.
  destruct H as [e [w0 [w1 [_ [_ [_ [_ [St H]]]]]]]].
  pose proof (savePrediction_effect m t i p (predictionValue e)
                (confidenceScore e) (featuresUsed e) expirationDays w1) as E.
  rewrite H in E. simpl in E.
  inversion E as [| found w2 Sel St' | w2 Sel St']; subst; clear E.
  - split; [|repeat split]. rewrite St'.
    unfold select_prediction, update_prediction. simpl.
    unfold select_prediction in Sel.
    rewrite find_map_same.
    + rewrite Sel. simpl. rewrite Z.eqb_refl. f_equal.
      apply updated_row_is_built. now apply find_some in Sel.
    + intros r. destruct (Prediction.id r =? Prediction.id found)%Z; reflexivity.
  - split; [|repeat split]. rewrite St'.
    unfold select_prediction. simpl. apply find_app_new; [exact Sel|].
    unfold same_prediction_key. simpl.
    now rewrite !String.eqb_refl, Z.eqb_refl.
Qed.

(** X16. What [generatePrediction] returns is what it stored: once it
    resolves, the lookup by (model, entity type, entity id, prediction type)
    finds exactly the returned prediction, id included, whether the row was
    inserted or updated. *)
Theorem stored_prediction_is_the_returned_one m t i p w pr w' :
  generatePrediction m t i p w = (Resolved pr, w') ->
  select_prediction m t i p (store w') = Some pr
  /\ Prediction.model_name pr = m /\ Prediction.entity_type pr = t
  /\ Prediction.entity_id pr = i /\ Prediction.prediction_type pr = p.
Proof. apply generatePrediction_lookup. Qed.

(** X17. A pair of model and prediction type that names none of the three
    strategies gets the generic estimate: with the entity in its table and
    no fault in the three statements of the call, the promise resolves with
    the draw as its value, confidence 0.5 and the single generic feature. *)
Theorem unknown_strategy_gets_generic_estimate m t i p w ids :
  named_strategy m p = false ->
  table_ids (t ++ "s") (store w) = Some ids -> In i ids ->
  faults (ops w) = false -> faults (S (ops w)) = false ->
  faults (S (S (ops w))) = false ->
  exists pr,
    fst (generatePrediction m t i p w) = Resolved pr
    /\ Prediction.prediction_value pr = Some (random (draws w))
    /\ Prediction.confidence_score pr = 0.5%Q
    /\ Prediction.features_used pr = [("generic_features", 1)]
    /\ select_prediction m t i p (store (snd (generatePrediction m t i p w)))
       = Some pr.
Proof.
  intros N E I F0 F1 F2.
  assert (X : existsb (Z.eqb i) ids = true)
    by (apply existsb_exists; exists i; split; [exact I | apply Z.eqb_refl]).
  assert (G : estimate m p i
                {| store := store w; ops := S (ops w); draws := draws w;
                   ticks := ticks w |}
              = generic_estimate
                  {| store := store w; ops := S (ops w); draws := draws w;
                     ticks := ticks w |}).
  { unfold estimate. unfold named_strategy in N.
    repeat match goal with
           | |- context [String.eqb ?a ?b] =>
               destruct (String.eqb a b); [discriminate|]
           end.
    reflexivity. }
  destruct (generatePrediction m t i p w) as [o w'] eqn:Run.
  assert (R : exists pr, o = Resolved pr
                         /\ Prediction.prediction_value pr = Some (random (draws w))
                         /\ Prediction.confidence_score pr = 0.5%Q
                         /\ Prediction.features_used pr = [("generic_features", 1)]).
  { revert Run.
    unfold generatePrediction, bind, db_call, select_entity, settle, ret, reject.
    rewrite F0, E, X. simpl. rewrite G.
    unfold generic_estimate, bind, Math_random, ret. simpl.
    unfold savePrediction, bind, db_call, settle, reading, writing,
      insert_prediction, new_Date, ret, reject. simpl.
    rewrite F1. simpl.
    destruct (select_prediction m t i p (store w)); simpl; rewrite F2; simpl;
      intros H; inversion H; eexists; repeat split. }
  destruct R as [pr [Eo [V [C Fe]]]]. subst o.
  exists pr. simpl. split; [reflexivity|]. repeat (split; [assumption|]).
  apply (generatePrediction_lookup m t i p w Run).
Qed.

(** X18. The batch pipeline in small: once [processLeadData] has resolved
    for a lead of the leads table, a lead-conversion prediction for it that
    meets no fault resolves with the conversion probability just stored,
    lead_score/100 * 0.8, at confidence 0.8. *)
Theorem prediction_uses_reconciled_lead lead w a w1 :
  In (Lead.id lead) (map Lead.id (leads (store w))) ->
  processLeadData lead w = (Resolved a, w1) ->
  faults (ops w1) = false -> faults (S (ops w1)) = false ->
  faults (S (S (ops w1))) = false -> faults (S (S (S (ops w1)))) = false ->
  exists pr,
    fst (generatePrediction "lead_conversion_model" "lead" (Lead.id lead)
           "conversion_probability" w1) = Resolved pr
    /\ Prediction.prediction_value pr
       = Some (inject_Z (leadScore lead) / 100 * 0.8)%Q
    /\ Prediction.confidence_score pr = 0.8%Q.
Proof.
  intros I H F0 F1 F2 F3.
  destruct (processLeadData_rows lead w H) as [[row Sel] All].
  assert (V : LeadAnalytics.conversion_probability row
              = Some (inject_Z (leadScore lead) / 100 * 0.8)%Q).
  { unfold select_lead_analytics in Sel. apply find_some in Sel.
    destruct Sel as [In1 K]. apply Z.eqb_eq in K.
    destruct (All row In1 K) as [[_ [_ [_ C]]] _]. exact C. }
  assert (L : leads (store w1) = leads (store w)).
  { destruct (processLeadData_upsert lead w) as [t' [St _]].
    rewrite H in St. simpl in St. rewrite St. reflexivity. }
  assert (X : existsb (Z.eqb (Lead.id lead)) (map Lead.id (leads (store w1)))
              = true).
  { rewrite L. apply existsb_exists. exists (Lead.id lead).
    split; [exact I | apply Z.eqb_refl]. }
  unfold generatePrediction, bind, db_call, select_entity, settle, ret, reject.
  rewrite F0. simpl. rewrite X. simpl.
  unfold estimate, bind, db_call, reading. simpl. rewrite F1, Sel. simpl.
  unfold savePrediction, bind, db_call, settle, reading, writing,
    insert_prediction, new_Date, ret, reject. simpl.
  rewrite F2. simpl.
  destruct (select_prediction "lead_conversion_model" "lead" (Lead.id lead)
              "conversion_probability" (store w1)); simpl; rewrite F3; simpl.
  all: eexists; split; [reflexivity|]; split; [exact V | reflexivity].
Qed.

Lemma filter_map_fixed {T} (keep : T -> bool) (g : T -> T) t :
  (forall r, In r t -> keep (g r) = keep r /\ (keep r = true -> g r = r)) ->
  filter keep (map g t) = filter keep t.
Proof.
  induction t as [|r t IH]; simpl; intros H; [reflexivity|].
  destruct (H r (or_introl eq_refl)) as [K F].
  rewrite K. destruct (keep r) eqn:E.
  - rewrite (F eq_refl). f_equal. apply IH. intros; apply H; now right.
  - apply IH. intros; apply H; now right.
Qed.

Definition other_prediction (m t : string) (i : Z) (p : string)
    (r : Prediction.t) : bool :=
  negb (same_prediction_key m t i p r).

(** X19. With ids that are unique, as an AUTOINCREMENT key keeps them, a
    prediction that resolves leaves every row of another key as it was (the
    UPDATE by id reaches the one row it looked up) and the ids stay
    unique. *)
Theorem prediction_leaves_other_rows_alone m t i p w pr w' :
  NoDup (map Prediction.id (predictive_model_results (store w))) ->
  generatePrediction m t i p w = (Resolved pr, w') ->
  NoDup (map Prediction.id (predictive_model_results (store w')))
  /\ filter (other_prediction m t i p) (predictive_model_results (store w'))
     = filter (other_prediction m t i p) (predictive_model_results (store w)).
Proof.
  intros N H. apply generatePrediction_resolved in H.
  destruct H as [e [w0 [w1 [_ [_ [_ [_ [St H]]]]]]]].
  pose proof (savePrediction_effect m t i p (predictionValue e)
                (confidenceScore e) (featuresUsed e) expirationDays w1) as E.
  rewrite H in E. simpl in E. rewrite <- St in N |- *.
  inversion E as [| found w2 Sel St' | w2 Sel St']; subst; clear E.
  - rewrite St'. unfold update_prediction. simpl. split.
    + rewrite map_map.
      erewrite map_ext; [exact N|]. intros r.
      destruct (Prediction.id r =? Prediction.id found)%Z; reflexivity.
    + apply filter_map_fixed. intros r I. split.
      * unfold other_prediction, same_prediction_key.
        destruct (Prediction.id r =? Prediction.id found)%Z; reflexivity.
      * intros K.
        destruct (Z.eqb_spec (Prediction.id r) (Prediction.id found)) as [Ei|];
          [|reflexivity].
        exfalso. unfold select_prediction in Sel. apply find_some in Sel.
        destruct Sel as [If Sf].
        assert (r = found)
          by (eapply NoDup_map_injective; [exact N | exact I | exact If | exact Ei]).
        subst r. unfold other_prediction in K. rewrite Sf in K. discriminate.
  - rewrite St'. simpl. split.
    + rewrite map_app. simpl. apply NoDup_app; [exact N | | ].
      * constructor; [intros [] | constructor].
      * intros a Ia [Ea|[]]. subst a. revert Ia. apply lastID_is_fresh.
    + rewrite filter_app. simpl.
      unfold other_prediction at 2, same_prediction_key. simpl.
      rewrite !String.eqb_refl, Z.eqb_refl. simpl. apply app_nil_r.
Qed.

(* ================================================================= *)
(** ** Further facts about the time aggregator *)

Definition supported_metrics : list string :=
  ["revenue"; "profit"; "leads"; "projects"; "lead_conversion_rate";
   "project_profit_margin"].

Lemma dateFormat_supported aggregationLevel :
  In aggregationLevel supported_levels ->
  exists fmt, dateFormat aggregationLevel = Some fmt.
Proof.
  simpl. intros [E|[E|[E|[E|[E|[]]]]]]; subst; eexists; reflexivity.
Qed.

Lemma metric_query_unsupported metricName fmt :
  ~ In metricName supported_metrics -> metric_query metricName fmt = None.
Proof.
  intros N. unfold metric_query.
  repeat match goal with
         | |- context [String.eqb ?a ?b] =>
             destruct (String.eqb_spec a b) as [E|_];
             [exfalso; apply N; rewrite E; simpl; auto 10|]
         end.
  reflexivity.
Qed.

(** X20. For a supported level and a metric that is none of the six, the
    aggregator rejects with the unsupported-metric error, a validation
    error, before any statement is sent: the world is unchanged. *)
Theorem unsupported_metric_is_rejected_without_writes
    metricName aggregationLevel w :
  In aggregationLevel supported_levels ->
  ~ In metricName supported_metrics ->
  generateTimeBasedAggregates metricName aggregationLevel w
    = (Rejected (UnsupportedMetric metricName), w)
  /\ kind_of (UnsupportedMetric metricName) = ValidationError.
Proof.
  intros L N. unfold generateTimeBasedAggregates.
  destruct (dateFormat_supported L) as [fmt E]. rewrite E.
  rewrite (metric_query_unsupported fmt N). split; reflexivity.
Qed.

Definition tagged (metricName aggregationLevel : string) (a : Aggregate.t)
  : Prop :=
  Aggregate.metric_name a = metricName
  /\ Aggregate.aggregation_level a = aggregationLevel.


Lemma answered_tagged metricName aggregationLevel rows rs :
  Forall2 (answered metricName aggregationLevel) rows rs ->
  Forall (tagged metricName aggregationLevel) (pushed rs).
Proof.
  induction 1 as [|row [e|a] rows rs R _ IH]; simpl; auto.
  constructor; [|exact IH]. destruct R as [M [L _]]. now split.
Qed.

Lemma insert_all_appends metricName aggregationLevel rows w :
  exists new,
    store (snd (insert_all metricName aggregationLevel rows w))
    = set_time_based_aggregates
        (time_based_aggregates (store w) ++ new) (store w)
    /\ Forall (tagged metricName aggregationLevel) new
    /\ (List.length new <= List.length rows)%nat
    /\ (is_resolved (fst (insert_all metricName aggregationLevel rows w))
        = true
        <-> List.length new = List.length rows).
Proof.
  destruct (insert_all_effect metricName aggregationLevel rows w)
    as [served [rs [P [A [St [Ok _]]]]]].
  exists (pushed rs). split; [exact St|].
  split; [eapply answered_tagged; eauto|]. split; [|exact Ok].
  pose proof (pushed_length rs).
  rewrite <- (Permutation_length P), (Forall2_length A). assumption.
Qed.

(** X21. Whatever its outcome, the aggregator only appends: the rows that
    were in time_based_aggregates stay, in place and unchanged, the new rows
    carry the metric and the level, no other table changes, and there is at
    most one new row per bucket.  It resolves exactly when the read met no
    fault and every bucket got its row; a rejected run keeps the rows it
    managed to insert. *)
Theorem aggregator_only_appends metricName aggregationLevel w :
  let run := generateTimeBasedAggregates metricName aggregationLevel w in
  exists new,
    store (snd run)
    = set_time_based_aggregates
        (time_based_aggregates (store w) ++ new) (store w)
    /\ Forall (tagged metricName aggregationLevel) new
    /\ forall fmt query,
         dateFormat aggregationLevel = Some fmt ->
         metric_query metricName fmt = Some query ->
         (List.length new <= List.length (query (store w)))%nat
         /\ (is_resolved (fst run) = true
             <-> faults (ops w) = false
                 /\ List.length new = List.length (query (store w))).
Proof.
  simpl. unfold generateTimeBasedAggregates.
  destruct (dateFormat aggregationLevel) as [fmt|].
  2:{ exists []. rewrite app_nil_r. split;
        [symmetry; apply set_time_based_aggregates_same|].
      split; [constructor | discriminate]. }
  destruct (metric_query metricName fmt) as [query|] eqn:Hq.
  2:{ exists []. rewrite app_nil_r. split;
        [symmetry; apply set_time_based_aggregates_same|].
      split; [constructor|]. intros f q E. inversion E; subst f.
      rewrite Hq. discriminate. }
  unfold bind, db_call, reading, settle.
  destruct (faults (ops w)) eqn:F; simpl.
  - exists []. rewrite app_nil_r. split;
      [symmetry; apply set_time_based_aggregates_same|].
    split; [constructor|]. intros f q E Q'. split; [simpl; lia|].
    split; [discriminate | intros [X _]; discriminate].
  - match goal with
    | |- context [insert_all _ _ ?r ?x] =>
        destruct (insert_all_appends metricName aggregationLevel r x)
          as [new [St [Tg [Le Iff]]]]
    end.
    simpl in St. exists new. split; [exact St|]. split; [exact Tg|].
    intros f q E Q'. inversion E; subst f. rewrite Hq in Q'.
    inversion Q'; subst q. split; [exact Le|].
    rewrite Iff. split; [intros L; auto | intros [_ L]; auto].
Qed.

(** X22. period_start and period_end are NOT NULL: when some bucket of the
    query has no lower or no upper date, its insert is refused and the run
    does not resolve. *)
Theorem bucket_without_dates_rejects metricName aggregationLevel fmt query w b :
  dateFormat aggregationLevel = Some fmt ->
  metric_query metricName fmt = Some query ->
  In b (query (store w)) ->
  bucket_start b = None \/ bucket_end b = None ->
  is_resolved (fst (generateTimeBasedAggregates metricName aggregationLevel w))
  = false.
Proof.
  intros F Hq I N.
  destruct (generateTimeBasedAggregates metricName aggregationLevel w)
    as [[r| |] w'] eqn:Run; try reflexivity.
  exfalso. apply generateTimeBasedAggregates_resolved in Run.
  destruct Run as [fmt' [query' [served [new [F' [Hq' [P [A _]]]]]]]].
  rewrite F in F'. inversion F'; subst fmt'.
  rewrite Hq in Hq'. inversion Hq'; subst query'.
  apply (Permutation_in _ (Permutation_sym P)) in I.
  clear - A I N. induction A as [|x y l l' R A IH]; [contradiction|].
  destruct I as [E|I]; [|now apply IH].
  subst x. destruct R as [_ [_ [S [E _]]]].
  destruct N as [N|N]; congruence.
Qed.

(* ================================================================= *)
(** ** The aggregate queries *)

Definition members (gs : list (option string * list Sample)) : list Sample :=
  flat_map snd gs.

Lemma members_cons k xs gs : members ((k, xs) :: gs) = (xs ++ members gs)%list.
Proof. reflexivity. Qed.

Lemma add_to_group_members x gs :
  List.length (members (add_to_group x gs)) = S (List.length (members gs)).
Proof.
  induction gs as [|[k xs] r IH]; [reflexivity|].
  cbn [add_to_group].
  destruct (compare_text (period x) k);
    rewrite ?members_cons, ?length_app, ?IH; simpl; lia.
Qed.

Lemma fold_groups_members xs : forall gs,
  List.length (members (fold_left (fun gs x => add_to_group x gs) xs gs))
  = (List.length xs + List.length (members gs))%nat.
Proof.
  induction xs as [|x xs IH]; intros gs; simpl; [reflexivity|].
  rewrite IH, add_to_group_members. lia.
Qed.

Lemma add_to_group_nonempty x gs :
  Forall (fun g => snd g <> []) gs ->
  Forall (fun g => snd g <> []) (add_to_group x gs).
Proof.
  induction gs as [|[k xs] r IH]; simpl; intros F.
  - constructor; [discriminate | constructor].
  - inversion F; subst.
    destruct (compare_text (period x) k).
    + constructor; [simpl; destruct xs; discriminate | assumption].
    + constructor; [discriminate | assumption].
    + constructor; [assumption | now apply IH].
Qed.

Lemma groups_nonempty xs :
  Forall (fun g => snd g <> []) (group_by_period xs).
Proof.
  unfold group_by_period.
  assert (G : forall gs, Forall (fun g => snd g <> []) gs ->
                         Forall (fun g => snd g <> [])
                           (fold_left (fun gs x => add_to_group x gs) xs gs)).
  { induction xs as [|x xs IH]; intros gs F; simpl; [exact F|].
    apply IH. now apply add_to_group_nonempty. }
  apply G. constructor.
Qed.

(** The sum of the values of the buckets, NULL counting as zero. *)
Definition sum_values (bs : list Bucket) : Q :=
  fold_right (fun b acc => (num (bucket_value b) + acc)%Q) 0%Q bs.

Lemma count_buckets_add_up gs :
  (sum_values (map (bucket_of CountOfRows) gs)
   == inject_Z (Z.of_nat (List.length (members gs))))%Q.
Proof.
  induction gs as [|[k xs] gs IH]; [reflexivity|].
  rewrite members_cons. cbn [map sum_values fold_right].
  fold (sum_values (map (bucket_of CountOfRows) gs)). rewrite IH.
  cbn [bucket_of bucket_value aggregate_value snd num]. unfold COUNT.
  rewrite length_app, Nat2Z.inj_add, inject_Z_plus. reflexivity.
Qed.

Lemma count_query_adds_up xs :
  (sum_values (run_query CountOfRows xs)
   == inject_Z (Z.of_nat (List.length xs)))%Q.
Proof.
  unfold run_query. rewrite count_buckets_add_up.
  unfold group_by_period. rewrite fold_groups_members. simpl.
  now rewrite Nat.add_0_r.
Qed.

(** X23. The counts of the buckets add up: over the buckets of the leads
    metric the values sum to the number of leads, and over those of the
    projects metric to the number of projects, whatever the level. *)
Theorem bucket_counts_add_up fmt d :
  (exists query,
     metric_query "leads" fmt = Some query
     /\ (sum_values (query d)
         == inject_Z (Z.of_nat (List.length (leads d))))%Q)
  /\ (exists query,
        metric_query "projects" fmt = Some query
        /\ (sum_values (query d)
            == inject_Z (Z.of_nat (List.length (projects d))))%Q).
Proof.
  split; eexists; (split; [reflexivity|]); rewrite count_query_adds_up;
    now rewrite length_map.
Qed.

Lemma filter_length_le {T} (f : T -> bool) l :
  (List.length (filter f l) <= List.length l)%nat.
Proof.
  induction l as [|x l IH]; simpl; [lia|]. destruct (f x); simpl; lia.
Qed.

(** X24. Every bucket of the lead_conversion_rate metric carries a value
    between 0 and 100. *)
Theorem conversion_rate_is_a_percentage fmt d b :
  exists query,
    metric_query "lead_conversion_rate" fmt = Some query
    /\ (In b (query d) ->
        exists v, bucket_value b = Some v /\ (0 <= v <= 100)%Q).
Proof.
  eexists. split; [reflexivity|]. intros I.
  unfold run_query in I. apply in_map_iff in I. destruct I as [g [E I]].
  subst b. simpl. eexists. split; [reflexivity|].
  pose proof (groups_nonempty (conversion_samples fmt d)) as NE.
  rewrite Forall_forall in NE. specialize (NE g I).
  unfold COUNT.
  pose proof (filter_length_le converted (snd g)) as Le.
  assert (P : (0 < List.length (snd g))%nat)
    by (destruct (snd g); [contradiction | simpl; lia]).
  assert (QP : (0 < inject_Z (Z.of_nat (List.length (snd g))))%Q)
    by (change 0%Q with (inject_Z 0); rewrite <- Zlt_Qlt; lia).
  assert (Q0 : (0 <= inject_Z (Z.of_nat (List.length (filter converted (snd g)))))%Q)
    by (change 0%Q with (inject_Z 0); rewrite <- Zle_Qle; lia).
  assert (QL : (inject_Z (Z.of_nat (List.length (filter converted (snd g))))
                <= inject_Z (Z.of_nat (List.length (snd g))))%Q)
    by (rewrite <- Zle_Qle; lia).
  split.
  - apply Qle_shift_div_l; [exact QP|]. lra.
  - apply Qle_shift_div_r; [exact QP|]. lra.
Qed.

(** Strings in bytewise order. *)
Lemma ascii_compare_trans a b c :
  Ascii.compare a b = Lt -> Ascii.compare b c = Lt -> Ascii.compare a c = Lt.
Proof.
  unfold Ascii.compare. rewrite !N.compare_lt_iff. apply N.lt_trans.
Qed.

Lemma string_compare_trans a : forall b c,
  String.compare a b = Lt -> String.compare b c = Lt ->
  String.compare a c = Lt.
Proof.
  induction a as [|x a IH]; intros [|y b] [|z c]; simpl; try discriminate;
    try reflexivity.
  destruct (Ascii.compare x y) eqn:XY; try discriminate;
    destruct (Ascii.compare y z) eqn:YZ; try discriminate; intros H1 H2.
  - apply Ascii.compare_eq_iff in XY, YZ. subst.
    rewrite (proj2 (N.compare_eq_iff _ _) eq_refl : Ascii.compare z z = Eq).
    now apply (IH b c).
  - apply Ascii.compare_eq_iff in XY. subst. now rewrite YZ.
  - apply Ascii.compare_eq_iff in YZ. subst. now rewrite XY.
  - now rewrite (ascii_compare_trans _ _ _ XY YZ).
Qed.

Definition before (a b : option string) : Prop := compare_text a b = Lt.

Lemma before_trans a b c : before a b -> before b c -> before a c.
Proof.
  unfold before. destruct a, b, c; simpl; try discriminate; auto.
  apply string_compare_trans.
Qed.

Lemma before_irrefl a : ~ before a a.
Proof.
  unfold before. destruct a; simpl; [|discriminate].
  intros H. pose proof (String.compare_antisym s s) as A.
  rewrite H in A. discriminate.
Qed.

Lemma after_is_before a b : compare_text a b = Gt -> before b a.
Proof.
  unfold before. destruct a, b; simpl; try discriminate; auto.
  intros H. rewrite String.compare_antisym, H. reflexivity.
Qed.

Lemma compare_text_eq a b : compare_text a b = Eq -> a = b.
Proof.
  destruct a, b; simpl; try discriminate; auto.
  intros H. apply String.compare_eq_iff in H. now subst.
Qed.

Lemma add_to_group_periods x gs k :
  In k (map fst (add_to_group x gs)) <-> k = period x \/ In k (map fst gs).
Proof.
  induction gs as [|[k0 xs] r IH]; simpl.
  - split; intros [E|E]; auto.
  - destruct (compare_text (period x) k0) eqn:C; simpl.
    + apply compare_text_eq in C. subst k0.
      split; [intros [E|E]; auto | intros [E|[E|E]]; auto].
    + split; [intros [E|[E|E]]; auto | intros [E|[E|E]]; auto].
    + rewrite IH.
      split; [intros [E|[E|E]]; auto | intros [E|[E|E]]; auto].
Qed.

Lemma add_to_group_sorted x gs :
  StronglySorted before (map fst gs) ->
  StronglySorted before (map fst (add_to_group x gs)).
Proof.
  induction gs as [|[k0 xs] r IH]; simpl; intros S.
  - constructor; constructor.
  - inversion S as [|? ? S' F]; subst.
    destruct (compare_text (period x) k0) eqn:C; simpl.
    + exact S.
    + constructor; [exact S|]. constructor; [exact C|].
      rewrite Forall_forall in F |- *. intros k I.
      eapply before_trans; [exact C | now apply F].
    + constructor; [now apply IH|].
      rewrite Forall_forall in F |- *. intros k I.
      apply add_to_group_periods in I. destruct I as [E|I].
      * subst k. now apply after_is_before.
      * now apply F.
Qed.

Lemma sorted_before_NoDup ks : StronglySorted before ks -> NoDup ks.
Proof.
  induction 1 as [|k ks S IH F]; constructor; [|exact IH].
  intros I. rewrite Forall_forall in F. apply (before_irrefl (F k I)).
Qed.

Lemma group_periods xs : forall gs k,
  In k (map fst (fold_left (fun gs x => add_to_group x gs) xs gs))
  <-> In k (map period xs) \/ In k (map fst gs).
Proof.
  induction xs as [|x xs IH]; intros gs k; simpl.
  - split; [auto | intros [[]|E]; exact E].
  - rewrite IH, add_to_group_periods.
    split; [intros [E|[E|E]]; auto | intros [[E|E]|E]; auto].
Qed.

Lemma group_sorted xs : forall gs,
  StronglySorted before (map fst gs) ->
  StronglySorted before
    (map fst (fold_left (fun gs x => add_to_group x gs) xs gs)).
Proof.
  induction xs as [|x xs IH]; intros gs S; simpl; [exact S|].
  apply IH. now apply add_to_group_sorted.
Qed.

Lemma groups_count gs :
  Forall (fun g => snd g <> []) gs ->
  (List.length gs <= List.length (members gs))%nat.
Proof.
  induction 1 as [|[k xs] gs N NE IH]; simpl; [lia|].
  rewrite length_app. fold (members gs).
  destruct xs; [contradiction | simpl; lia].
Qed.

Lemma bucket_periods how gs :
  map bucket_period (map (bucket_of how) gs) = map fst gs.
Proof. rewrite map_map. reflexivity. Qed.

(** X25. GROUP BY period ORDER BY period: the buckets of a query come in
    strictly ascending order of period, NULL first, so no two buckets share
    a period; their periods are exactly the periods of the source rows; and
    there are no more buckets than source rows. *)
Theorem one_bucket_per_period how xs :
  StronglySorted before (map bucket_period (run_query how xs))
  /\ NoDup (map bucket_period (run_query how xs))
  /\ (forall k, In k (map bucket_period (run_query how xs))
                <-> In k (map period xs))
  /\ (List.length (run_query how xs) <= List.length xs)%nat.
Proof.
  unfold run_query, group_by_period. rewrite bucket_periods.
  assert (S : StronglySorted before
                (map fst (fold_left (fun gs x => add_to_group x gs) xs [])))
    by (apply group_sorted; constructor).
  split; [exact S|]. split; [now apply sorted_before_NoDup|]. split.
  - intros k. rewrite group_periods. simpl.
    split; [intros [E|[]]; exact E | auto].
  - rewrite length_map.
    pose proof (groups_nonempty xs) as NE.
    pose proof (fold_groups_members xs []) as L. simpl in L.
    rewrite Nat.add_0_r in L. rewrite <- L.
    unfold group_by_period in NE. now apply groups_count.
Qed.

(* ================================================================= *)
(** ** Further facts about the project reconciler *)

(** What an UPDATE of the project reconciler leaves alone in a row. *)
Definition project_frame (r r' : ProjectAnalytics.t) : Prop :=
  ProjectAnalytics.id r' = ProjectAnalytics.id r
  /\ ProjectAnalytics.project_id r' = ProjectAnalytics.project_id r
  /\ ProjectAnalytics.weather_impact_score r'
     = ProjectAnalytics.weather_impact_score r
  /\ ProjectAnalytics.created_at r' = ProjectAnalytics.created_at r.

Lemma update_project_table_frame a k t :
  Forall2
    (fun r r' =>
       project_frame r r' /\ (ProjectAnalytics.project_id r <> k -> r' = r))
    t
    (map (fun r => if (ProjectAnalytics.project_id r =? k)%Z
                   then update_project_row a r else r) t).
Proof.
  induction t as [|r t IH]; simpl; constructor; auto.
  destruct (Z.eqb_spec (ProjectAnalytics.project_id r) k) as [E|N].
  - split; [repeat split | intros; congruence].
  - split; [repeat split | reflexivity].
Qed.

(** X26. When the project already has an analytics row, a reconciliation
    that resolves adds no row, leaves the rows of other projects untouched,
    and in the project's row keeps the id, the project_id, the
    weather_impact_score and created_at: the UPDATE does not write them. *)
Theorem reconciling_project_keeps_unwritten_columns project w a w' :
  select_project_analytics (Project.id project) (store w) <> None ->
  processProjectData project w = (Resolved a, w') ->
  Forall2
    (fun r r' =>
       project_frame r r'
       /\ (ProjectAnalytics.project_id r <> Project.id project -> r' = r))
    (project_analytics (store w)) (project_analytics (store w')).
Proof.
  intros Found H. pose proof (processProjectData_effect project w) as E.
  rewrite H in E. simpl in E.
  inversion E as [| row w0 Sel St | i w0 Sel St]; subst; clear E.
  - rewrite St. simpl. apply update_project_table_frame.
  - congruence.
Qed.

(* ================================================================= *)
(** ** What no call does *)

(** The entity tables. *)
Definition same_entities (d d' : DB) : Prop :=
  leads d' = leads d
  /\ projects d' = projects d
  /\ customers d' = customers d
  /\ weather_events d' = weather_events d
  /\ business_metrics d' = business_metrics d.

(** The store [d'] comes after [d]: the entity tables are the same, no
    derived table has lost a row of any key, and one row per key has stayed
    one row per key. *)
Definition evolves (d d' : DB) : Prop :=
  same_entities d d'
  /\ (forall c, (rows_for c d <= rows_for c d')%nat)
  /\ (one_row_per_key d -> one_row_per_key d').

Lemma evolves_refl d : evolves d d.
Proof. split; [repeat split | split; [intros; lia | auto]]. Qed.

Lemma evolves_eq d d' : d' = d -> evolves d d'.
Proof. intros ->. apply evolves_refl. Qed.

Lemma evolves_trans d1 d2 d3 : evolves d1 d2 -> evolves d2 d3 -> evolves d1 d3.
Proof.
  intros [[A1 [A2 [A3 [A4 A5]]]] [M1 I1]] [[B1 [B2 [B3 [B4 B5]]]] [M2 I2]].
  split; [|split].
  - repeat split; congruence.
  - intros c. specialize (M1 c). specialize (M2 c). lia.
  - auto.
Qed.

(** A computation all of whose runs leave a store that comes after the one
    they started from. *)
Definition tame {A} (m : M A) : Prop :=
  forall w, evolves (store w) (store (snd (m w))).

Lemma tame_ret {A} (a : A) : tame (ret a).
Proof. intros w. apply evolves_refl. Qed.

Lemma tame_reject {A} e : tame (@reject A e).
Proof. intros w. apply evolves_refl. Qed.

Lemma tame_settle {A} (r : error + A) : tame (settle r).
Proof. destruct r; [apply tame_reject | apply tame_ret]. Qed.

Lemma tame_reading {A} (q : DB -> A) : tame (db_call (reading q)).
Proof.
  intros w. unfold db_call, reading.
  destruct (faults (ops w)); apply evolves_refl.
Qed.

Lemma tame_bind {A B} (m : M A) (k : A -> M B) :
  tame m -> (forall a, tame (k a)) -> tame (bind m k).
Proof.
  intros Tm Tk w. unfold bind. specialize (Tm w).
  destruct (m w) as [[a | e | e] w1]; simpl in *; [|exact Tm|exact Tm].
  eapply evolves_trans; [exact Tm | apply Tk].
Qed.

Lemma tame_for_each {A B} (f : A -> M B) xs :
  (forall x, tame (f x)) -> tame (for_each f xs).
Proof.
  intros Tf. induction xs as [|x xs IH]; simpl; [apply tame_ret|].
  apply tame_bind; [apply Tf | intros _; exact IH].
Qed.

Lemma run_call_evolves c w : evolves (store w) (store (snd (run_call c w))).
Proof.
  destruct (run_call_upserts c w) as [Inv [Mono _]].
  split; [|split; [exact Mono | exact Inv]].
  destruct c as [lead | project | customer | weatherEvent | m t i p]; simpl.
  - destruct (processLeadData_upsert lead w) as [t' [St _]].
    rewrite St. repeat split.
  - destruct (processProjectData_upsert project w) as [t' [St _]].
    rewrite St. repeat split.
  - destruct (processCustomerData_upsert customer w) as [t' [St _]].
    rewrite St. repeat split.
  - destruct (processWeatherEventData_upsert weatherEvent w) as [t' [St _]].
    rewrite St. repeat split.
  - destruct (generatePrediction_upsert m t i p w) as [t' [St _]].
    rewrite St. repeat split.
Qed.

Lemma tame_processLeadData lead : tame (processLeadData lead).
Proof using All. intros w. apply (run_call_evolves (ReconcileLead lead)). Qed.

Lemma tame_processProjectData project : tame (processProjectData project).
Proof using All. intros w. apply (run_call_evolves (ReconcileProject project)). Qed.

Lemma tame_processCustomerData customer : tame (processCustomerData customer).
Proof using All. intros w. apply (run_call_evolves (ReconcileCustomer customer)). Qed.

Lemma tame_processWeatherEventData e : tame (processWeatherEventData e).
Proof using All. intros w. apply (run_call_evolves (ReconcileWeatherEvent e)). Qed.

Lemma tame_generatePrediction m t i p : tame (generatePrediction m t i p).
Proof using All. intros w. apply (run_call_evolves (Predict m t i p)). Qed.

Lemma generateTimeBasedAggregates_appends metricName aggregationLevel w :
  exists new,
    store (snd (generateTimeBasedAggregates metricName aggregationLevel w))
    = set_time_based_aggregates
        (time_based_aggregates (store w) ++ new) (store w).
Proof.
  unfold generateTimeBasedAggregates.
  destruct (dateFormat aggregationLevel) as [fmt|].
  2:{ exists []. rewrite app_nil_r. symmetry.
      apply set_time_based_aggregates_same. }
  destruct (metric_query metricName fmt) as [query|].
  2:{ exists []. rewrite app_nil_r. symmetry.
      apply set_time_based_aggregates_same. }
  unfold bind, db_call, reading, settle.
  destruct (faults (ops w)); simpl.
  - exists []. rewrite app_nil_r. symmetry.
    apply set_time_based_aggregates_same.
  - match goal with
    | |- context [insert_all _ _ ?r ?x] =>
        destruct (insert_all_appends metricName aggregationLevel r x)
          as [new [St _]]
    end.
    exists new. exact St.
Qed.

Lemma tame_generateTimeBasedAggregates metricName aggregationLevel :
  tame (generateTimeBasedAggregates metricName aggregationLevel).
Proof.
  intros w.
  destruct (generateTimeBasedAggregates_appends metricName aggregationLevel w)
    as [new St].
  rewrite St. split; [repeat split|]. split.
  - intros c. destruct c; simpl; lia.
  - intros [L P C W R]. constructor; assumption.
Qed.

Create HintDb tame.

#[local] Hint Resolve tame_ret tame_reject tame_settle tame_reading tame_bind
  tame_for_each tame_processLeadData tame_processProjectData
  tame_processCustomerData tame_processWeatherEventData
  tame_generatePrediction tame_generateTimeBasedAggregates : tame.

Lemma tame_processAllData : tame processAllData.
Proof.
  unfold processAllData.
  repeat (apply tame_bind; [auto with tame | intros]).
  apply tame_ret.
Qed.

(** X27. No call writes to the entity store: whatever their outcome, the
    reconcilers, the dispatcher, the aggregator and the batch leave leads,
    projects, customers, weather_events and business_metrics as they
    were. *)
Theorem entity_tables_are_never_written w :
  (forall c, same_entities (store w) (store (snd (run_call c w))))
  /\ (forall metricName aggregationLevel,
        same_entities (store w)
          (store (snd (generateTimeBasedAggregates metricName
                         aggregationLevel w))))
  /\ same_entities (store w) (store (snd (processAllData w))).
Proof.
  split; [|split].
  - intros c. apply run_call_evolves.
  - intros m l. apply tame_generateTimeBasedAggregates.
  - apply tame_processAllData.
Qed.

(* ================================================================= *)
(** ** Further facts about the batch orchestrator *)

Lemma read_resolved {A B} (q : DB -> A) (k : A -> M B) w b w' :
  (r <- db_call (reading q) ;; x <- settle r ;; k x) w = (Resolved b, w') ->
  exists w1, store w1 = store w /\ k (q (store w)) w1 = (Resolved b, w').
Proof.
  unfold bind, db_call, reading, settle, ret, reject.
  destruct (faults (ops w)); simpl; [discriminate|].
  intros H. eexists. split; [|exact H]. reflexivity.
Qed.

Lemma resolved_call_has_row c w :
  fst (run_call c w) = true ->
  (1 <= rows_for c (store (snd (run_call c w))))%nat.
Proof. apply run_call_upserts. Qed.

Lemma for_each_rows {A B} (f : A -> M B) (c : A -> call) xs :
  (forall x, tame (f x)) ->
  (forall x w0 a w1, f x w0 = (Resolved a, w1) ->
                     (1 <= rows_for (c x) (store w1))%nat) ->
  forall w u w',
    for_each f xs w = (Resolved u, w') ->
    forall x, In x xs -> (1 <= rows_for (c x) (store w'))%nat.
Proof.
  intros Tf Row. induction xs as [|y xs IH]; intros w u w' H x I;
    [contradiction|].
  simpl in H. apply bind_resolved in H. destruct H as [a [w1 [Hy H]]].
  destruct I as [E|I].
  - subst y. specialize (Row x w a w1 Hy).
    pose proof (tame_for_each f xs Tf w1) as [_ [Mono _]].
    rewrite H in Mono. simpl in Mono. specialize (Mono (c x)). lia.
  - eapply IH; eauto.
Qed.

Ltac evolved Hm E :=
  match type of Hm with
  | ?m ?w0 = (_, ?w1) =>
      let T := fresh "T" in
      assert (T : tame m) by auto with tame;
      pose proof (T w0) as E; rewrite Hm in E; simpl in E; clear T
  end.

Ltac call_has_row c :=
  let x := fresh in
  let w0 := fresh in
  let a := fresh in
  let w1 := fresh in
  let H := fresh in
  intros x w0 a w1 H;
  pose proof (resolved_call_has_row (c x) w0) as R;
  simpl in R; rewrite H in R; apply R; reflexivity.

Definition lead_prediction (lead : Lead.t) : call :=
  Predict "lead_conversion_model" "lead" (Lead.id lead)
    "conversion_probability".

Definition customer_prediction (customer : Customer.t) : call :=
  Predict "customer_churn_model" "customer" (Customer.id customer)
    "churn_probability".

Definition project_prediction (project : Project.t) : call :=
  Predict "project_cost_model" "project" (Project.id project)
    "cost_overrun_probability".

(** What a batch that resolved has done. *)
Lemma processAllData_resolved w s w' :
  processAllData w = (Resolved s, w') ->
  evolves (store w) (store w')
  /\ leadsProcessed s = Z.of_nat (List.length (leads (store w)))
  /\ projectsProcessed s = Z.of_nat (List.length (projects (store w)))
  /\ customersProcessed s = Z.of_nat (List.length (customers (store w)))
  /\ weatherEventsProcessed s
     = Z.of_nat (List.length (weather_events (store w)))
  /\ (forall c,
        (exists x, In x (leads (store w)) /\ c = ReconcileLead x)
        \/ (exists x, In x (projects (store w)) /\ c = ReconcileProject x)
        \/ (exists x, In x (customers (store w)) /\ c = ReconcileCustomer x)
        \/ (exists x, In x (weather_events (store w))
                      /\ c = ReconcileWeatherEvent x)
        \/ (exists x, In x (firstn 10 (leads (store w)))
                      /\ c = lead_prediction x)
        \/ (exists x, In x (firstn 5 (customers (store w)))
                      /\ c = customer_prediction x)
        \/ (exists x, In x (firstn 5 (projects (store w)))
                      /\ c = project_prediction x) ->
        (1 <= rows_for c (store w'))%nat).
Proof.
  intros H. unfold processAllData in H.
  apply read_resolved in H. destruct H as [w1 [S1 H]].
  apply bind_resolved in H. destruct H as [u2 [w2 [HL H]]].
  evolved HL E2. rewrite S1 in E2.
  apply read_resolved in H. destruct H as [w3 [S3 H]].
  assert (Q2 : projects (store w2) = projects (store w)) by apply E2.
  rewrite Q2 in H.
  apply bind_resolved in H. destruct H as [u4 [w4 [HP H]]].
  evolved HP E4. rewrite S3 in E4.
  apply read_resolved in H. destruct H as [w5 [S5 H]].
  pose proof (evolves_trans E2 E4) as E04.
  assert (Q4 : customers (store w4) = customers (store w)) by apply E04.
  rewrite Q4 in H.
  apply bind_resolved in H. destruct H as [u6 [w6 [HC H]]].
  evolved HC E6. rewrite S5 in E6.
  apply read_resolved in H. destruct H as [w7 [S7 H]].
  pose proof (evolves_trans E04 E6) as E06.
  assert (Q6 : weather_events (store w6) = weather_events (store w))
    by apply E06.
  rewrite Q6 in H.
  apply bind_resolved in H. destruct H as [u8 [w8 [HW H]]].
  evolved HW E8. rewrite S7 in E8.
  apply bind_resolved in H. destruct H as [u9 [w9 [HPL H]]]. evolved HPL E9.
  apply bind_resolved in H. destruct H as [u10 [w10 [HPC H]]]. evolved HPC E10.
  apply bind_resolved in H. destruct H as [u11 [w11 [HPP H]]]. evolved HPP E11.
  apply bind_resolved in H. destruct H as [u12 [w12 [G1 H]]]. evolved G1 E12.
  apply bind_resolved in H. destruct H as [u13 [w13 [G2 H]]]. evolved G2 E13.
  apply bind_resolved in H. destruct H as [u14 [w14 [G3 H]]]. evolved G3 E14.
  apply bind_resolved in H. destruct H as [u15 [w15 [G4 H]]]. evolved G4 E15.
  apply bind_resolved in H. destruct H as [u16 [w16 [G5 H]]]. evolved G5 E16.
  apply bind_resolved in H. destruct H as [u17 [w17 [G6 H]]]. evolved G6 E17.
  unfold ret in H. inversion H; subst s w'; clear H. simpl.
  pose proof (evolves_trans E16 E17) as T16.
  pose proof (evolves_trans E15 T16) as T15.
  pose proof (evolves_trans E14 T15) as T14.
  pose proof (evolves_trans E13 T14) as T13.
  pose proof (evolves_trans E12 T13) as T12.
  pose proof (evolves_trans E11 T12) as T11.
  pose proof (evolves_trans E10 T11) as T10.
  pose proof (evolves_trans E9 T10) as T9.
  pose proof (evolves_trans E8 T9) as T8.
  pose proof (evolves_trans E6 T8) as T6.
  pose proof (evolves_trans E4 T6) as T4.
  pose proof (evolves_trans E2 T4) as T2.
  split; [exact T2|]. do 4 (split; [reflexivity|]).
  intros c [[x [I E]] | [[x [I E]] | [[x [I E]] | [[x [I E]] | [[x [I E]]
            | [[x [I E]] | [x [I E]]]]]]]]; subst c.
  - assert (R : (1 <= rows_for (ReconcileLead x) (store w2))%nat).
    { eapply (for_each_rows processLeadData ReconcileLead);
        [auto with tame | call_has_row ReconcileLead | exact HL | exact I]. }
    destruct T4 as [_ [Mono _]]. specialize (Mono (ReconcileLead x)). lia.
  - assert (R : (1 <= rows_for (ReconcileProject x) (store w4))%nat).
    { eapply (for_each_rows processProjectData ReconcileProject);
        [auto with tame | call_has_row ReconcileProject | exact HP | exact I]. }
    destruct T6 as [_ [Mono _]]. specialize (Mono (ReconcileProject x)). lia.
  - assert (R : (1 <= rows_for (ReconcileCustomer x) (store w6))%nat).
    { eapply (for_each_rows processCustomerData ReconcileCustomer);
        [auto with tame | call_has_row ReconcileCustomer | exact HC | exact I]. }
    destruct T8 as [_ [Mono _]]. specialize (Mono (ReconcileCustomer x)). lia.
  - assert (R : (1 <= rows_for (ReconcileWeatherEvent x) (store w8))%nat).
    { eapply (for_each_rows processWeatherEventData ReconcileWeatherEvent);
        [auto with tame | call_has_row ReconcileWeatherEvent | exact HW
        | exact I]. }
    destruct T9 as [_ [Mono _]].
    specialize (Mono (ReconcileWeatherEvent x)). lia.
  - assert (R : (1 <= rows_for (lead_prediction x) (store w9))%nat).
    { eapply (for_each_rows
                (fun lead => generatePrediction "lead_conversion_model" "lead"
                                   (Lead.id lead) "conversion_probability")
                lead_prediction);
        [intros; auto with tame | call_has_row lead_prediction | exact HPL | exact I]. }
    destruct T10 as [_ [Mono _]]. specialize (Mono (lead_prediction x)). lia.
  - assert (R : (1 <= rows_for (customer_prediction x) (store w10))%nat).
    { eapply (for_each_rows
                (fun customer => generatePrediction "customer_churn_model"
                                   "customer" (Customer.id customer) "churn_probability")
                customer_prediction);
        [intros; auto with tame | call_has_row customer_prediction | exact HPC | exact I]. }
    destruct T11 as [_ [Mono _]].
    specialize (Mono (customer_prediction x)). lia.
  - assert (R : (1 <= rows_for (project_prediction x) (store w11))%nat).
    { eapply (for_each_rows
                (fun project => generatePrediction "project_cost_model"
                                   "project" (Project.id project) "cost_overrun_probability")
                project_prediction);
        [intros; auto with tame | call_has_row project_prediction | exact HPP | exact I]. }
    destruct T12 as [_ [Mono _]].
    specialize (Mono (project_prediction x)). lia.
Qed.

(** X28. The four counts of the summary are the sizes of the entity tables
    at the start of the batch, which the batch leaves as they were. *)
Theorem summary_counts_the_entity_tables w s w' :
  processAllData w = (Resolved s, w') ->
  leadsProcessed s = Z.of_nat (List.length (leads (store w)))
  /\ projectsProcessed s = Z.of_nat (List.length (projects (store w)))
  /\ customersProcessed s = Z.of_nat (List.length (customers (store w)))
  /\ weatherEventsProcessed s
     = Z.of_nat (List.length (weather_events (store w)))
  /\ same_entities (store w) (store w').
Proof.
  intros H. apply processAllData_resolved in H.
  destruct H as [[E _] [L [P [C [W _]]]]]. auto.
Qed.

(** X29. A batch that resolves leaves the analytics complete: starting with
    at most one row per key, afterwards every lead, project, customer and
    weather event has exactly one analytics row, and each of the first ten
    leads, first five customers and first five projects has exactly one
    prediction of its model. *)
Theorem batch_leaves_one_row_per_entity w s w' :
  one_row_per_key (store w) ->
  processAllData w = (Resolved s, w') ->
  one_row_per_key (store w')
  /\ (forall x, In x (leads (store w)) ->
                rows_for (ReconcileLead x) (store w') = 1%nat)
  /\ (forall x, In x (projects (store w)) ->
                rows_for (ReconcileProject x) (store w') = 1%nat)
  /\ (forall x, In x (customers (store w)) ->
                rows_for (ReconcileCustomer x) (store w') = 1%nat)
  /\ (forall x, In x (weather_events (store w)) ->
                rows_for (ReconcileWeatherEvent x) (store w') = 1%nat)
  /\ (forall x, In x (firstn 10 (leads (store w))) ->
                rows_for (lead_prediction x) (store w') = 1%nat)
  /\ (forall x, In x (firstn 5 (customers (store w))) ->
                rows_for (customer_prediction x) (store w') = 1%nat)
  /\ (forall x, In x (firstn 5 (projects (store w))) ->
                rows_for (project_prediction x) (store w') = 1%nat).
Proof.
  intros Inv H. apply processAllData_resolved in H.
  destruct H as [[_ [_ Keep]] [_ [_ [_ [_ Rows]]]]].
  specialize (Keep Inv).
  assert (One : forall c, (1 <= rows_for c (store w'))%nat ->
                          rows_for c (store w') = 1%nat).
  { intros c G. pose proof (rows_for_at_most_one c Keep). lia. }
  split; [exact Keep|].
  repeat split; intros x I; apply One, Rows; eauto 12.
Qed.


(** X30. A batch that is cut short loses nothing: whatever its outcome,
    and whichever statements fail, no derived table has fewer rows of any key
    after the batch than before, and a store with one row per key still has
    one row per key. *)
Theorem interrupted_batch_keeps_rows_and_keys w :
  let after := store (snd (processAllData w)) in
  (forall c, (rows_for c (store w) <= rows_for c after)%nat)
  /\ (one_row_per_key (store w) -> one_row_per_key after).
Proof.
  destruct (tame_processAllData w) as [_ [Mono Keep]].
  split; [exact Mono | exact Keep].
Qed.


(* ================================================================= *)
(** ** Rows rewritten in place *)

(** What the UPDATE statements write, as a stored row [r] holds it for the
    record [a] of the call, and what they leave alone from the row [r] as
    it was to the row [r'] as it is. *)
Definition lead_written (a r : LeadAnalytics.t) : Prop :=
  LeadAnalytics.acquisition_source r = LeadAnalytics.acquisition_source a
  /\ LeadAnalytics.acquisition_cost r = LeadAnalytics.acquisition_cost a
  /\ LeadAnalytics.lead_score r = LeadAnalytics.lead_score a
  /\ LeadAnalytics.conversion_probability r
     = LeadAnalytics.conversion_probability a.

Definition customer_frame (r r' : CustomerAnalytics.t) : Prop :=
  CustomerAnalytics.id r' = CustomerAnalytics.id r
  /\ CustomerAnalytics.customer_id r' = CustomerAnalytics.customer_id r.

Definition weather_frame (r r' : WeatherImpactAnalytics.t) : Prop :=
  WeatherImpactAnalytics.id r' = WeatherImpactAnalytics.id r
  /\ WeatherImpactAnalytics.weather_event_id r'
     = WeatherImpactAnalytics.weather_event_id r.

Definition weather_written (a r : WeatherImpactAnalytics.t) : Prop :=
  WeatherImpactAnalytics.leads_generated r
  = WeatherImpactAnalytics.leads_generated a
  /\ WeatherImpactAnalytics.projects_created r
     = WeatherImpactAnalytics.projects_created a
  /\ WeatherImpactAnalytics.revenue_impact r
     = WeatherImpactAnalytics.revenue_impact a
  /\ WeatherImpactAnalytics.affected_zip_codes r
     = WeatherImpactAnalytics.affected_zip_codes a
  /\ WeatherImpactAnalytics.impact_start_date r
     = WeatherImpactAnalytics.impact_start_date a
  /\ WeatherImpactAnalytics.impact_end_date r
     = WeatherImpactAnalytics.impact_end_date a.

Definition prediction_frame (r r' : Prediction.t) : Prop :=
  Prediction.id r' = Prediction.id r
  /\ Prediction.model_name r' = Prediction.model_name r
  /\ Prediction.entity_type r' = Prediction.entity_type r
  /\ Prediction.entity_id r' = Prediction.entity_id r
  /\ Prediction.prediction_type r' = Prediction.prediction_type r.

Definition prediction_written (a r : Prediction.t) : Prop :=
  Prediction.prediction_value r = Prediction.prediction_value a
  /\ Prediction.confidence_score r = Prediction.confidence_score a
  /\ Prediction.features_used r = Prediction.features_used a
  /\ Prediction.prediction_date r = Prediction.prediction_date a
  /\ Prediction.expiration_date r = Prediction.expiration_date a.

(** The table [t'] is the table [t] with the rows of the key [k] rewritten
    where they stood: no row added, removed or moved, every row keeps what
    [frame] names, the rows of [k] now hold what was written, and the other
    rows are as they were. *)
Definition rewritten {T} (key : T -> Z) (k : Z) (frame : T -> T -> Prop)
    (written : T -> Prop) (t t' : list T) : Prop :=
  Forall2
    (fun r r' =>
       frame r r' /\ (key r = k -> written r') /\ (key r <> k -> r' = r))
    t t'.

Lemma rewritten_by_update {T} (key : T -> Z) (k : Z) (g : T -> T)
    (frame : T -> T -> Prop) (written : T -> Prop) t :
  (forall r, frame r r) -> (forall r, frame r (g r)) ->
  (forall r, written (g r)) ->
  rewritten key k frame written t
    (map (fun r => if (key r =? k)%Z then g r else r) t).
Proof.
  intros Fr Fg Wg. apply table_after_update.
  - intros r K. split; [apply Fg|]. split; [intros _; apply Wg|].
    intros N. contradiction.
  - intros r N. split; [apply Fr|]. split; [intros K; contradiction|].
    reflexivity.
Qed.

Lemma processLeadData_updates lead w a w' found :
  select_lead_analytics (Lead.id lead) (store w) = Some found ->
  processLeadData lead w = (Resolved a, w') ->
  rewritten LeadAnalytics.lead_id (Lead.id lead) lead_frame (lead_written a)
    (lead_analytics (store w)) (lead_analytics (store w')).
Proof.
  intros Found H. pose proof (processLeadData_effect lead w) as E.
  rewrite H in E. simpl in E.
  inversion E as [| row w0 Sel St | i w0 Sel Hi St]; subst; clear E.
  - rewrite St. simpl.
    apply rewritten_by_update; intros r; repeat split.
  - congruence.
Qed.

Lemma processProjectData_updates project w a w' found :
  select_project_analytics (Project.id project) (store w) = Some found ->
  processProjectData project w = (Resolved a, w') ->
  rewritten ProjectAnalytics.project_id (Project.id project) project_frame
    (project_written a)
    (project_analytics (store w)) (project_analytics (store w')).
Proof.
  intros Found H. pose proof (processProjectData_effect project w) as E.
  rewrite H in E. simpl in E.
  inversion E as [| row w0 Sel St | i w0 Sel St]; subst; clear E.
  - rewrite St. simpl.
    apply rewritten_by_update; intros r; repeat split.
  - congruence.
Qed.

Lemma processCustomerData_updates customer w a w' found :
  select_customer_analytics (Customer.id customer) (store w) = Some found ->
  processCustomerData customer w = (Resolved a, w') ->
  rewritten CustomerAnalytics.customer_id (Customer.id customer)
    customer_frame (customer_written a)
    (customer_analytics (store w)) (customer_analytics (store w')).
Proof.
  intros Found H. pose proof (processCustomerData_effect customer w) as E.
  rewrite H in E. simpl in E.
  inversion E as [| ps r1 r2 days stamp row w0 Sel St
                  | ps r1 r2 days stamp i w0 Sel St]; subst; clear E.
  - rewrite St. simpl.
    apply rewritten_by_update; intros r; repeat split.
  - congruence.
Qed.

Lemma processWeatherEventData_updates e w a w' found :
  select_weather_impact_analytics (WeatherEvent.id e) (store w) = Some found ->
  processWeatherEventData e w = (Resolved a, w') ->
  rewritten WeatherImpactAnalytics.weather_event_id (WeatherEvent.id e)
    weather_frame (weather_written a)
    (weather_impact_analytics (store w)) (weather_impact_analytics (store w')).
Proof.
  intros Found H. pose proof (processWeatherEventData_effect e w) as E.
  rewrite H in E. simpl in E.
  inversion E as [| | t row w0 Ev Sel St | t i w0 Ev Sel St]; subst; clear E.
  - rewrite St. simpl.
    apply rewritten_by_update; intros r; repeat split.
  - congruence.
Qed.

(** The UPDATE of [savePrediction] goes by the id of the row it found. *)
Lemma generatePrediction_updates m t i p w pr w' found :
  select_prediction m t i p (store w) = Some found ->
  generatePrediction m t i p w = (Resolved pr, w') ->
  Prediction.id pr = Prediction.id found
  /\ select_prediction m t i p (store w') = Some pr
  /\ rewritten Prediction.id (Prediction.id found) prediction_frame
       (prediction_written pr)
       (predictive_model_results (store w))
       (predictive_model_results (store w')).
Proof.
  intros Found H.
  destruct (generatePrediction_lookup m t i p w H) as [Look _].
  apply generatePrediction_resolved in H.
  destruct H as [e [w0 [w1 [_ [_ [_ [_ [St H]]]]]]]].
  pose proof (savePrediction_effect m t i p (predictionValue e)
                (confidenceScore e) (featuresUsed e) expirationDays w1) as E.
  rewrite H in E. simpl in E. rewrite <- St in Found |- *.
  inversion E as [| row w2 Sel St' | w2 Sel St']; subst; clear E.
  - rewrite Found in Sel. inversion Sel; subst row.
    split; [reflexivity|]. split; [exact Look|].
    rewrite St'. simpl.
    apply rewritten_by_update; intros r; repeat split.
  - congruence.
Qed.

(** A call that resolves where its key already has a row rewrites that row
    in place. *)
Definition updated_in_place (c : call) (w : World) : Prop :=
  match c with
  | ReconcileLead lead =>
      forall a found,
        fst (processLeadData lead w) = Resolved a ->
        select_lead_analytics (Lead.id lead) (store w) = Some found ->
        rewritten LeadAnalytics.lead_id (Lead.id lead) lead_frame
          (lead_written a) (lead_analytics (store w))
          (lead_analytics (store (snd (processLeadData lead w))))
  | ReconcileProject project =>
      forall a found,
        fst (processProjectData project w) = Resolved a ->
        select_project_analytics (Project.id project) (store w) = Some found ->
        rewritten ProjectAnalytics.project_id (Project.id project)
          project_frame (project_written a) (project_analytics (store w))
          (project_analytics (store (snd (processProjectData project w))))
  | ReconcileCustomer customer =>
      forall a found,
        fst (processCustomerData customer w) = Resolved a ->
        select_customer_analytics (Customer.id customer) (store w)
        = Some found ->
        rewritten CustomerAnalytics.customer_id (Customer.id customer)
          customer_frame (customer_written a) (customer_analytics (store w))
          (customer_analytics (store (snd (processCustomerData customer w))))
  | ReconcileWeatherEvent weatherEvent =>
      forall a found,
        fst (processWeatherEventData weatherEvent w) = Resolved a ->
        select_weather_impact_analytics (WeatherEvent.id weatherEvent)
          (store w) = Some found ->
        rewritten WeatherImpactAnalytics.weather_event_id
          (WeatherEvent.id weatherEvent) weather_frame (weather_written a)
          (weather_impact_analytics (store w))
          (weather_impact_analytics
             (store (snd (processWeatherEventData weatherEvent w))))
  | Predict m t i p =>
      forall pr found,
        fst (generatePrediction m t i p w) = Resolved pr ->
        select_prediction m t i p (store w) = Some found ->
        Prediction.id pr = Prediction.id found
        /\ select_prediction m t i p
             (store (snd (generatePrediction m t i p w))) = Some pr
        /\ rewritten Prediction.id (Prediction.id found) prediction_frame
             (prediction_written pr) (predictive_model_results (store w))
             (predictive_model_results
                (store (snd (generatePrediction m t i p w))))
  end.

Lemma run_call_updates_in_place c w : updated_in_place c w.
Proof.
  destruct c as [lead | project | customer | weatherEvent | m t i p]; simpl.
  - destruct (processLeadData lead w) as [o w'] eqn:Run. simpl.
    intros a found E Sel. subst o. eapply processLeadData_updates; eauto.
  - destruct (processProjectData project w) as [o w'] eqn:Run. simpl.
    intros a found E Sel. subst o. eapply processProjectData_updates; eauto.
  - destruct (processCustomerData customer w) as [o w'] eqn:Run. simpl.
    intros a found E Sel. subst o. eapply processCustomerData_updates; eauto.
  - destruct (processWeatherEventData weatherEvent w) as [o w'] eqn:Run.
    simpl. intros a found E Sel. subst o.
    eapply processWeatherEventData_updates; eauto.
  - destruct (generatePrediction m t i p w) as [o w'] eqn:Run. simpl.
    intros pr found E Sel. subst o. eapply generatePrediction_updates; eauto.
Qed.

(** C2. From a store with at most one row per key, any sequence of calls of
    the four reconcilers and of [generatePrediction], whatever their
    outcomes, leaves at most one row per key in lead_analytics,
    project_analytics, customer_analytics, weather_impact_analytics and
    predictive_model_results; every call that resolved has exactly one row
    for its key at the end; a call whose key already has a row adds no row
    to any table; and when it resolves it rewrites the existing row where
    it stands: that row holds what the call computed, it keeps its id and
    its key, and every other row of the table is as it was. *)
Theorem one_row_per_key_after_any_calls cs w :
  one_row_per_key (store w) ->
  one_row_per_key (store (run_calls cs w))
  /\ (forall c, In c (resolved_calls cs w) ->
                rows_for c (store (run_calls cs w)) = 1%nat)
  /\ (forall c, (1 <= rows_for c (store w))%nat ->
                forall c', table_size c' (store (snd (run_call c w)))
                           = table_size c' (store w))
  /\ (forall c, updated_in_place c w).
Proof.
  intros Inv. split; [now apply run_calls_one_row_per_key|]. split; [|split].
  - intros c I.
    assert (rows_for c (store (run_calls cs w)) <= 1)%nat as Le
      by (apply rows_for_at_most_one; now apply run_calls_one_row_per_key).
    assert (1 <= rows_for c (store (run_calls cs w)))%nat as Ge; [|lia].
    clear Le. revert w Inv I.
    induction cs as [|c0 rest IH]; intros w Inv I; simpl in *; [contradiction|].
    destruct (run_call_upserts c0 w) as [Keep [_ [Present _]]].
    apply in_app_or in I. destruct I as [I|I].
    + destruct (fst (run_call c0 w)) eqn:Ok; [|contradiction].
      destruct I as [E|[]]. subst c0.
      specialize (Present eq_refl).
      pose proof (run_calls_keep_rows rest (snd (run_call c w)) c). lia.
    + apply IH; auto.
  - intros c One. now apply run_call_upserts.
  - intros c. apply run_call_updates_in_place.
Qed.

(* ================================================================= *)
(** ** Store errors in the prediction dispatcher *)

(** The fallback of each named strategy: the scale and the offset applied
    to the random draw, the confidence and the single feature. *)
Definition fallback_of (modelName predictionType : string)
  : option (Q * Q * Q * string) :=
  let key := modelName ++ "_" ++ predictionType in
  if key =? "lead_conversion_model_conversion_probability"
  then Some (0.7%Q, 0.1%Q, 0.6%Q, "basic_lead_info")
  else if key =? "customer_churn_model_churn_probability"
  then Some (0.4%Q, 0.1%Q, 0.6%Q, "basic_customer_info")
  else if key =? "project_cost_model_cost_overrun_probability"
  then Some (0.5%Q, 0.2%Q, 0.7%Q, "basic_project_info")
  else None.

Lemma fallback_of_named m p x :
  fallback_of m p = Some x -> named_strategy m p = true.
Proof.
  unfold fallback_of, named_strategy.
  repeat match goal with
         | |- context [String.eqb ?a ?b] => destruct (String.eqb a b)
         end; simpl; intros E; try reflexivity; discriminate.
Qed.

(** A strategy whose read of the prior analytics fails answers with its
    fallback, from the next draw. *)
Lemma estimate_fallback m p i w scale offset confidence feature :
  fallback_of m p = Some (scale, offset, confidence, feature) ->
  faults (ops w) = true ->
  fst (estimate m p i w)
  = Resolved {| predictionValue := Some (random (draws w) * scale + offset)%Q;
                confidenceScore := confidence;
                featuresUsed := [(feature, 1)] |}.
Proof.
  unfold fallback_of, estimate, bind, db_call, reading,
    lead_conversion_estimate, customer_churn_estimate, project_cost_estimate,
    basic_estimate, Math_random, ret.
  intros Fb F.
  repeat match goal with
         | H : context [String.eqb ?a ?b] |- _ => destruct (String.eqb a b)
         end; try discriminate.
  all: inversion Fb; subst; rewrite F; reflexivity.
Qed.

Lemma savePrediction_fields m t i p v c f days w pr w' :
  savePrediction m t i p v c f days w = (Resolved pr, w') ->
  Prediction.prediction_value pr = v
  /\ Prediction.confidence_score pr = c
  /\ Prediction.features_used pr = f.
Proof.
  intros H. pose proof (savePrediction_effect m t i p v c f days w) as E.
  rewrite H in E. simpl in E. inversion E; subst; repeat split.
Qed.

Lemma generatePrediction_survives_analytics_fault m t i p w :
  named_strategy m p = true ->
  select_entity (t ++ "s") i (store w) = Some (true, store w) ->
  (forall n, faults n = true -> n = S (ops w)) ->
  is_resolved (fst (generatePrediction m t i p w)) = true.
Proof.
  intros Named Sel Only.
  unfold generatePrediction, bind, db_call.
  destruct (faults (ops w)) eqn:F0.
  { apply Only in F0. lia. }
  rewrite Sel. simpl.
  match goal with
  | |- context [estimate ?a ?b ?c ?x] =>
      destruct (estimate_resolves a b c x) as [e [E1 [E2 E3]]];
      destruct (estimate a b c x) as [o w1] eqn:Est
  end.
  simpl in E1, E2, E3. subst o. rewrite Named in E3.
  apply savePrediction_resolves.
  + rewrite E3. destruct (faults (S (S (ops w)))) eqn:F2; [|reflexivity].
    apply Only in F2. lia.
  + rewrite E3. destruct (faults (S (S (S (ops w))))) eqn:F3; [|reflexivity].
    apply Only in F3. lia.
Qed.

(** C4, as the code has it.  A failure of the entity read, of the read
    that looks for an earlier prediction, or of the write rejects the promise
    with that error.  A failure of a named strategy's read of the prior
    analytics is not passed on: the strategy answers with its fallback
    estimate, and when nothing else fails the promise resolves with the
    fallback of that strategy (the next draw times 0.7 plus 0.1 at confidence
    0.6 on basic_lead_info for the lead model, times 0.4 plus 0.1 at 0.6 on
    basic_customer_info for the customer model, times 0.5 plus 0.2 at 0.7 on
    basic_project_info for the project model), and that prediction is the
    one stored. *)
Theorem store_errors_propagate_except_prior_analytics_read
    modelName entityType entityId predictionType w :
  let run := generatePrediction modelName entityType entityId predictionType w in
  (forall n,
     (ops w <= n < ops (snd run))%nat ->
     faults n = true ->
     ~ (named_strategy modelName predictionType = true /\ n = S (ops w)) ->
     fst run = Rejected (StoreError n))
  /\ (forall w0,
        named_strategy modelName predictionType = true ->
        faults (ops w0) = true ->
        exists e,
          fst (estimate modelName predictionType entityId w0) = Resolved e
          /\ In (confidenceScore e, featuresUsed e) fallbacks)
  /\ (named_strategy modelName predictionType = true ->
      select_entity (entityType ++ "s") entityId (store w)
        = Some (true, store w) ->
      (forall n, faults n = true -> n = S (ops w)) ->
      is_resolved (fst run) = true)
  /\ (forall scale offset confidence feature,
        fallback_of modelName predictionType
        = Some (scale, offset, confidence, feature) ->
        select_entity (entityType ++ "s") entityId (store w)
          = Some (true, store w) ->
        faults (S (ops w)) = true ->
        (forall n, faults n = true -> n = S (ops w)) ->
        exists pr,
          fst run = Resolved pr
          /\ Prediction.prediction_value pr
             = Some (random (draws w) * scale + offset)%Q
          /\ Prediction.confidence_score pr = confidence
          /\ Prediction.features_used pr = [(feature, 1)]
          /\ select_prediction modelName entityType entityId predictionType
               (store (snd run)) = Some pr).
Proof.
  simpl. split; [|split; [|split]].
  - intros n R F Not. revert R.
    unfold generatePrediction, bind, db_call.
    destruct (faults (ops w)) eqn:F0; simpl.
    { intros R. f_equal. f_equal. lia. }
    destruct (select_entity (entityType ++ "s") entityId (store w))
      as [[found d]|] eqn:Sel; simpl.
    2:{ intros R. assert (n = ops w) by lia. subst n. congruence. }
    destruct found; simpl.
    2:{ intros R. assert (n = ops w) by lia. subst n. congruence. }
    match goal with
    | |- context [estimate ?a ?b ?c ?x] =>
        destruct (estimate_resolves a b c x) as [e [E1 [E2 E3]]];
        destruct (estimate a b c x) as [o w1] eqn:Est
    end.
    simpl in E1, E2, E3. subst o. intros R.
    apply savePrediction_propagates; [|exact F].
    split; [|apply R].
    rewrite E3. simpl.
    destruct (named_strategy modelName predictionType) eqn:Named.
    + assert (n <> ops w) by congruence.
      assert (n <> S (ops w)) by (intros E; apply Not; split; auto).
      lia.
    + assert (n <> ops w) by congruence. lia.
  - intros w0. apply estimate_falls_back.
  - apply generatePrediction_survives_analytics_fault.
  - intros scale offset confidence feature Fb Sel F Only.
    pose proof (generatePrediction_survives_analytics_fault
                  modelName entityType entityId predictionType w
                  (fallback_of_named _ _ Fb) Sel Only) as Ok.
    destruct (generatePrediction modelName entityType entityId
                predictionType w) as [[pr| |] w'] eqn:Run;
      try discriminate.
    simpl. exists pr. split; [reflexivity|].
    destruct (generatePrediction_lookup _ _ _ _ _ Run) as [Look _].
    apply generatePrediction_resolved in Run.
    destruct Run as [e [w0 [w1 [_ [O0 [D0 [Est [_ Save]]]]]]]].
    pose proof (estimate_fallback modelName predictionType entityId w0 Fb)
      as Fall.
    rewrite O0, D0, Est in Fall. simpl in Fall.
    specialize (Fall F). inversion Fall; subst e. simpl in Save.
    destruct (savePrediction_fields _ _ _ _ _ _ _ _ _ Save) as [V [C Fs]].
    repeat split; assumption.
Qed.

End Processor.

(* ================================================================= *)
(** ** The processor on a sample store *)

Definition sample_lead (i : Z) (source service_interest created_at : string)
  : Lead.t :=
  {| Lead.id := i;
     Lead.source := Some source;
     Lead.service_interest := Some service_interest;
     Lead.created_at := Some created_at |}.

Definition lead1 : Lead.t :=
  sample_lead 1 "Referral" "Roof Replacement" "2024-01-05 10:00:00".

(** A project whose end date precedes its start date by two days. *)
Definition project1 : Project.t :=
  {| Project.id := 1;
     Project.customer_id := Some 1;
     Project.project_type := Some "Roof Replacement";
     Project.start_date := Some "2024-05-03";
     Project.end_date := Some "2024-05-01";
     Project.contract_amount := Some 12500%Q;
     Project.created_at := Some "2024-04-20 08:00:00" |}.

Definition customer1 : Customer.t :=
  {| Customer.id := 1; Customer.name := "John Smith" |}.

Definition customer2 : Customer.t :=
  {| Customer.id := 2; Customer.name := "Jane Doe" |}.

Definition hail : WeatherEvent.t :=
  {| WeatherEvent.id := 1;
     WeatherEvent.event_type := Some "Hail Storm";
     WeatherEvent.severity := Some 4.2%Q;
     WeatherEvent.zip := Some "62701";
     WeatherEvent.event_date := Some "2024-04-01" |}.

(** Three leads, two customers, one project, one weather event, and no
    derived row yet. *)
Definition sample_store : DB :=
  {| leads := [lead1;
               sample_lead 2 "Google" "Leak repair" "2024-01-20 09:30:00";
               sample_lead 3 "Flyer" "Gutter cleaning" "2024-02-02 14:00:00"];
     projects := [project1];
     customers := [customer1; customer2];
     weather_events := [hail];
     business_metrics := [];
     lead_analytics := [];
     project_analytics := [];
     customer_analytics := [];
     weather_impact_analytics := [];
     predictive_model_results := [];
     time_based_aggregates := [];
     other_tables := fun _ => None |}.

(** The same store once lead 1 has an analytics row that records its
    conversion. *)
Definition converted_row : LeadAnalytics.t :=
  {| LeadAnalytics.id := 7;
     LeadAnalytics.lead_id := 1;
     LeadAnalytics.acquisition_source := Some "Website";
     LeadAnalytics.acquisition_cost := Some 25%Q;
     LeadAnalytics.lead_score := Some 65;
     LeadAnalytics.conversion_probability := Some 0.52%Q;
     LeadAnalytics.days_to_conversion := Some 12;
     LeadAnalytics.converted_to_customer := true;
     LeadAnalytics.conversion_date := Some "2024-01-17" |}.

Definition converted_store : DB :=
  set_lead_analytics [converted_row] sample_store.

Definition start (d : DB) : World :=
  {| store := d; ops := 0; draws := 0; ticks := 0 |}.

Definition no_faults (n : nat) : bool := false.

(** Orders of service: as sent, and the second of a pair first whenever an
    odd number of statements has been sent. *)
Definition in_order (n : nat) : list nat := [].
Definition second_first (n : nat) : list nat :=
  if Nat.odd n then [1%nat] else [].
Definition only_fault (k n : nat) : bool := Nat.eqb n k.
Definition half (n : nat) : Q := 0.5%Q.

(** A clock that starts on 2024-06-10 06:13:20 UTC and advances by a second
    at each reading. *)
Definition clock (n : nat) : Z := 1718000000000 + 1000 * Z.of_nat n.

(** The value of a promise that resolved. *)
Definition settled {A} (o : outcome A) (otherwise : A) : A :=
  match o with
  | Resolved a => a
  | _ => otherwise
  end.

Definition batch : outcome Summary * World :=
  processAllData no_faults half clock iso_date_parse utc_toISOString
    utc_addDays utc_current_timestamp iso_strftime in_order in_order (start sample_store).

(** C5 on the code.  With 3 leads, 2 customers and 1 project the batch
    resolves, having generated 6 predictions (the predictions table goes from
    empty to 6 rows) and run 6 aggregate regenerations, and its summary
    reports predictionsGenerated = 20. *)
Theorem batch_summary_overcounts_predictions :
  predictive_model_results sample_store = []
  /\ fst batch
     = Resolved {| leadsProcessed := 3;
                   projectsProcessed := 1;
                   customersProcessed := 2;
                   weatherEventsProcessed := 1;
                   predictionsGenerated := 20;
                   aggregatesGenerated := 6 |}
  /\ List.length (predictive_model_results (store (snd batch))) = 6%nat
  /\ (List.length (firstn 10 (leads sample_store))
      + List.length (firstn 5 (customers sample_store))
      + List.length (firstn 5 (projects sample_store)) = 6)%nat.
Proof. vm_compute. repeat split. Qed.

(** The scoring functions on the sample rows. *)

Example lead1_score : leadScore lead1 = 85.
Proof. reflexivity. Qed.

Example lead1_conversion : (conversionProbability lead1 == 0.68)%Q.
Proof. reflexivity. Qed.

Example unknown_source_cost :
  acquisitionCost (sample_lead 3 "Flyer" "Gutter cleaning" "2024-02-02") = 40%Q.
Proof. reflexivity. Qed.

Example project1_estimates :
  (estimatedCost project1 == 7500)%Q /\ estimatedDuration project1 = 21.
Proof. split; reflexivity. Qed.

Example hail_impact :
  leadsGenerated hail = 21
  /\ projectsCreated hail = 8
  /\ (revenueImpact hail == 68000)%Q.
Proof. repeat split. Qed.

Example no_projects_no_value :
  (averageProjectValue [] == 0)%Q /\ (lifetimeValue [] == 0)%Q.
Proof. split; reflexivity. Qed.

Example unknown_strategy_is_generic :
  named_strategy "some_model" "some_prediction" = false.
Proof. reflexivity. Qed.

(* ================================================================= *)
(** ** The theorems at the sample store *)

Definition lead1_run : outcome LeadAnalytics.t * World :=
  processLeadData no_faults lead1 (start sample_store).

Lemma sample_lead_is_scored :
  lead1_run
  = (Resolved (settled (fst lead1_run) converted_row), snd lead1_run)
  /\ leadScore lead1 = 85
  /\ 0 <= leadScore lead1 <= 100
  /\ LeadAnalytics.conversion_probability (settled (fst lead1_run) converted_row)
     = Some (inject_Z (leadScore lead1) / 100 * 0.8)%Q.
Proof.
  assert (H : lead1_run
              = (Resolved (settled (fst lead1_run) converted_row),
                 snd lead1_run)) by reflexivity.
  split; [exact H|].
  destruct (lead_score_and_conversion_probability no_faults lead1
              (start sample_store) H) as [_ [R [_ [C _]]]].
  split; [reflexivity|]. split; [exact R | exact C].
Defined.

Definition lead1_again : outcome LeadAnalytics.t * World :=
  processLeadData no_faults lead1 (start converted_store).

Lemma converted_lead_stays_converted :
  select_lead_analytics (Lead.id lead1) (store (start converted_store)) <> None
  /\ lead1_again
     = (Resolved (settled (fst lead1_again) converted_row), snd lead1_again)
  /\ Forall2
       (fun r r' =>
          lead_frame r r'
          /\ (LeadAnalytics.lead_id r = Lead.id lead1 ->
              lead_recomputed lead1 r')
          /\ (LeadAnalytics.lead_id r <> Lead.id lead1 -> r' = r))
       (lead_analytics (store (start converted_store)))
       (lead_analytics (store (snd lead1_again)))
  /\ forall a2 w2,
       processLeadData no_faults lead1 (snd lead1_again) = (Resolved a2, w2) ->
       store w2 = store (snd lead1_again).
Proof.
  assert (F : select_lead_analytics (Lead.id lead1)
                (store (start converted_store)) <> None)
    by (vm_compute; discriminate).
  assert (H : lead1_again
              = (Resolved (settled (fst lead1_again) converted_row),
                 snd lead1_again)) by reflexivity.
  split; [exact F|]. split; [exact H|].
  exact (reconciling_lead_keeps_conversion_tracking no_faults lead1
           (start converted_store) F H).
Defined.

Definition project1_run : outcome ProjectAnalytics.t * World :=
  processProjectData no_faults half clock iso_date_parse utc_current_timestamp
    project1 (start sample_store).

Definition project1_analytics : ProjectAnalytics.t :=
  settled (fst project1_run) (projectAnalytics iso_date_parse 0 0 project1).





Lemma sample_project_duration :
  project1_run = (Resolved project1_analytics, snd project1_run)
  /\ truthy (Project.start_date project1) = true
  /\ truthy (Project.end_date project1) = true
  /\ iso_date_parse (text (Project.start_date project1)) = Some 1714694400000
  /\ iso_date_parse (text (Project.end_date project1)) = Some 1714521600000
  /\ 0 <= ceil_days (Z.abs (1714521600000 - 1714694400000))
  /\ ProjectAnalytics.actual_duration project1_analytics
     = Some (ceil_days (Z.abs (1714521600000 - 1714694400000)))
  /\ forall row,
       In row (project_analytics (store (snd project1_run))) ->
       ProjectAnalytics.project_id row = Project.id project1 ->
       ProjectAnalytics.actual_duration row
       = Some (ceil_days (Z.abs (1714521600000 - 1714694400000))).
Proof.
  assert (H : project1_run = (Resolved project1_analytics, snd project1_run))
    by reflexivity.
  split; [exact H|].
  do 4 (split; [reflexivity|]).
  exact (proj1 (proj2 (actual_duration_is_absolute_difference no_faults half
                         clock iso_date_parse utc_current_timestamp project1
                         (start sample_store) H))
           1714694400000 1714521600000 eq_refl eq_refl eq_refl eq_refl).
Defined.
Lemma actual_duration_drops_the_sign :
  project1_run = (Resolved project1_analytics, snd project1_run)
  /\ ProjectAnalytics.actual_duration project1_analytics = Some 2
  /\ option_map ProjectAnalytics.actual_duration
       (select_project_analytics (Project.id project1)
          (store (snd project1_run)))
     = Some (Some 2)
  /\ spec_actual_duration iso_date_parse project1 = Some (-2)
  /\ ProjectAnalytics.actual_duration project1_analytics
     <> spec_actual_duration iso_date_parse project1.
Proof.
  split; [reflexivity|]. split; [reflexivity|]. split; [reflexivity|].
  split; [reflexivity|]. vm_compute. discriminate.
Qed.

Definition customer1_run : outcome CustomerAnalytics.t * World :=
  processCustomerData no_faults half clock iso_date_parse utc_toISOString
    customer1 (start sample_store).

Definition customer1_analytics : CustomerAnalytics.t :=
  settled (fst customer1_run)
    (customerAnalytics utc_toISOString customer1 [] 0 0 None 0).


Lemma fortnightly_is_rejected :
  ~ In "fortnightly" supported_levels
  /\ generateTimeBasedAggregates no_faults iso_strftime in_order in_order "revenue" "fortnightly"
       (start sample_store)
     = (Rejected (InvalidAggregationLevel "fortnightly"), start sample_store)
  /\ kind_of (InvalidAggregationLevel "fortnightly") = ValidationError.
Proof.
  assert (N : ~ In "fortnightly" supported_levels).
  { simpl. intros [E|[E|[E|[E|[E|[]]]]]]; discriminate. }
  split; [exact N|].
  exact (unsupported_level_is_rejected_without_writes no_faults iso_strftime in_order in_order
           "revenue" (start sample_store) N).
Defined.

Definition leads_monthly : M (list Aggregate.t) :=
  generateTimeBasedAggregates no_faults iso_strftime second_first in_order "leads" "monthly".

Definition first_run : outcome (list Aggregate.t) * World :=
  leads_monthly (start sample_store).

Definition second_run : outcome (list Aggregate.t) * World :=
  leads_monthly (snd first_run).

Lemma leads_monthly_twice :
  leads_monthly (start sample_store)
  = (Resolved (settled (fst first_run) []), snd first_run)
  /\ leads_monthly (snd first_run)
     = (Resolved (settled (fst second_run) []), snd second_run)
  /\ List.length (settled (fst first_run) []) = 2%nat
  /\ List.length (time_based_aggregates (store (snd second_run))) = 4%nat
  /\ Permutation (map unnumbered (settled (fst first_run) []))
       (map unnumbered (settled (fst second_run) []))
  /\ map unnumbered (settled (fst first_run) [])
     <> map unnumbered (settled (fst second_run) []).
Proof.
  assert (H1 : leads_monthly (start sample_store)
               = (Resolved (settled (fst first_run) []), snd first_run))
    by reflexivity.
  assert (H2 : leads_monthly (snd first_run)
               = (Resolved (settled (fst second_run) []), snd second_run))
    by reflexivity.
  split; [exact H1|]. split; [exact H2|].
  destruct (regenerating_aggregates_appends_duplicates no_faults iso_strftime
              second_first in_order "leads" "monthly" (start sample_store)
              H1 H2)
    as [fmt [query [b1 [b2 [s1 [s2
         [_ [_ [_ [_ [_ [_ [_ [_ [_ [Same [_ [_ [_ [_ Len]]]]]]]]]]]]]]]]]]]].
  split; [reflexivity|]. split; [rewrite Len; reflexivity|].
  split; [exact Same|]. vm_compute. discriminate.
Defined.


(** The lead-conversion prediction for lead 1, whose analytics row exists,
    under a given fault schedule. *)
Definition predict_lead1 (faults : nat -> bool) : outcome Prediction.t * World :=
  generatePrediction faults half clock utc_toISOString utc_addDays
    "lead_conversion_model" "lead" 1 "conversion_probability"
    (start converted_store).

(** C4 as stated fails on the code: the second statement of the call, the
    read of the lead's prior analytics, fails, and the promise resolves all
    the same, with the fallback estimate in place of the stored conversion
    probability. *)
Lemma failed_analytics_read_is_replaced_by_fallback :
  (ops (start converted_store) <= 1
   < ops (snd (predict_lead1 (only_fault 1))))%nat
  /\ only_fault 1 1 = true
  /\ is_rejected (fst (predict_lead1 (only_fault 1))) = false
  /\ exists p,
       fst (predict_lead1 (only_fault 1)) = Resolved p
       /\ Prediction.confidence_score p = 0.6%Q
       /\ Prediction.features_used p = [("basic_lead_info", 1)]
       /\ Prediction.prediction_value p = Some (0.5 * 0.7 + 0.1)%Q.
Proof.
  split; [vm_compute; lia|]. split; [reflexivity|]. split; [reflexivity|].
  eexists. split; [vm_compute; reflexivity|].
  split; [reflexivity|]. split; reflexivity.
Qed.


(** Every reconciler twice, the prediction for lead 1 twice, and a prediction
    for a customer that does not exist. *)
(** The churn prediction for customer 1 when the read of the customer's
    analytics fails. *)
Definition predict_customer1 : outcome Prediction.t * World :=
  generatePrediction (only_fault 1) half clock utc_toISOString utc_addDays
    "customer_churn_model" "customer" 1 "churn_probability"
    (start sample_store).

Lemma sample_prediction_under_faults :
  ((ops (start converted_store) <= 2
    < ops (snd (predict_lead1 (only_fault 2))))%nat
   /\ only_fault 2 2 = true
   /\ ~ (named_strategy "lead_conversion_model" "conversion_probability" = true
         /\ 2%nat = S (ops (start converted_store)))
   /\ fst (predict_lead1 (only_fault 2)) = Rejected (StoreError 2))
  /\ (named_strategy "lead_conversion_model" "conversion_probability" = true
      /\ select_entity ("lead" ++ "s") 1 (store (start converted_store))
         = Some (true, store (start converted_store))
      /\ (forall n, only_fault 1 n = true -> n = S (ops (start converted_store)))
      /\ is_resolved (fst (predict_lead1 (only_fault 1))) = true)
  /\ (fallback_of "customer_churn_model" "churn_probability"
      = Some (0.4%Q, 0.1%Q, 0.6%Q, "basic_customer_info")
      /\ select_entity ("customer" ++ "s") 1 (store (start sample_store))
         = Some (true, store (start sample_store))
      /\ only_fault 1 (S (ops (start sample_store))) = true
      /\ (forall n, only_fault 1 n = true -> n = S (ops (start sample_store)))
      /\ exists pr,
           fst predict_customer1 = Resolved pr
           /\ Prediction.prediction_value pr
              = Some (half (draws (start sample_store)) * 0.4 + 0.1)%Q
           /\ Prediction.confidence_score pr = 0.6%Q
           /\ Prediction.features_used pr = [("basic_customer_info", 1)]
           /\ select_prediction "customer_churn_model" "customer" 1
                "churn_probability" (store (snd predict_customer1))
              = Some pr).
Proof.
  assert (R : (ops (start converted_store) <= 2
               < ops (snd (predict_lead1 (only_fault 2))))%nat)
    by (vm_compute; lia).
  assert (F : only_fault 2 2 = true) by reflexivity.
  assert (N : ~ (named_strategy "lead_conversion_model" "conversion_probability"
                 = true
                 /\ 2%nat = S (ops (start converted_store))))
    by (intros [_ E]; discriminate E).
  assert (Named : named_strategy "lead_conversion_model" "conversion_probability"
                  = true) by reflexivity.
  assert (Sel : select_entity ("lead" ++ "s") 1 (store (start converted_store))
                = Some (true, store (start converted_store))) by reflexivity.
  assert (Only : forall n, only_fault 1 n = true ->
                           n = S (ops (start converted_store)))
    by (intros n E; apply Nat.eqb_eq in E; exact E).
  assert (Fb : fallback_of "customer_churn_model" "churn_probability"
               = Some (0.4%Q, 0.1%Q, 0.6%Q, "basic_customer_info"))
    by reflexivity.
  assert (Sel' : select_entity ("customer" ++ "s") 1
                   (store (start sample_store))
                 = Some (true, store (start sample_store))) by reflexivity.
  assert (F' : only_fault 1 (S (ops (start sample_store))) = true)
    by reflexivity.
  assert (Only' : forall n, only_fault 1 n = true ->
                            n = S (ops (start sample_store)))
    by (intros n E; apply Nat.eqb_eq in E; exact E).
  split; [|split].
  - split; [exact R|]. split; [exact F|]. split; [exact N|].
    exact (proj1 (store_errors_propagate_except_prior_analytics_read
                    (only_fault 2) half clock utc_toISOString utc_addDays
                    "lead_conversion_model" "lead" 1 "conversion_probability"
                    (start converted_store)) 2%nat R F N).
  - split; [exact Named|]. split; [exact Sel|]. split; [exact Only|].
    exact (proj1 (proj2 (proj2
             (store_errors_propagate_except_prior_analytics_read
                (only_fault 1) half clock utc_toISOString
                utc_addDays "lead_conversion_model" "lead" 1
                "conversion_probability" (start converted_store))))
             Named Sel Only).
  - split; [exact Fb|]. split; [exact Sel'|]. split; [exact F'|].
    split; [exact Only'|].
    exact (proj2 (proj2 (proj2
             (store_errors_propagate_except_prior_analytics_read
                (only_fault 1) half clock utc_toISOString
                utc_addDays "customer_churn_model" "customer" 1
                "churn_probability" (start sample_store))))
             0.4%Q 0.1%Q 0.6%Q "basic_customer_info" Fb Sel' F' Only').
Defined.

Definition sample_calls : list call :=
  [ReconcileLead lead1; ReconcileProject project1; ReconcileCustomer customer1;
   ReconcileWeatherEvent hail;
   Predict "lead_conversion_model" "lead" 1 "conversion_probability";
   Predict "customer_churn_model" "customer" 9 "churn_probability";
   ReconcileLead lead1; ReconcileProject project1; ReconcileCustomer customer1;
   ReconcileWeatherEvent hail;
   Predict "lead_conversion_model" "lead" 1 "conversion_probability"].

Definition after_sample_calls : World :=
  run_calls no_faults half clock iso_date_parse utc_toISOString utc_addDays
    utc_current_timestamp sample_calls (start sample_store).


(** Lead 1 reconciled where it already has a row. *)
Definition lead1_over_converted : outcome LeadAnalytics.t * World :=
  processLeadData no_faults lead1 (start converted_store).

Lemma sample_calls_keep_one_row :
  one_row_per_key (store (start sample_store))
  /\ one_row_per_key (store after_sample_calls)
  /\ rows_for (ReconcileLead lead1) (store after_sample_calls) = 1%nat
  /\ rows_for (ReconcileWeatherEvent hail) (store after_sample_calls) = 1%nat
  /\ rows_for (Predict "lead_conversion_model" "lead" 1 "conversion_probability")
       (store after_sample_calls) = 1%nat
  /\ one_row_per_key (store (start converted_store))
  /\ fst lead1_over_converted
     = Resolved (settled (fst lead1_over_converted) converted_row)
  /\ select_lead_analytics (Lead.id lead1) (store (start converted_store))
     = Some converted_row
  /\ rewritten LeadAnalytics.lead_id (Lead.id lead1) lead_frame
       (lead_written (settled (fst lead1_over_converted) converted_row))
       (lead_analytics (store (start converted_store)))
       (lead_analytics (store (snd lead1_over_converted))).
Proof.
  assert (H : one_row_per_key (store (start sample_store)))
    by (constructor; simpl; constructor).
  assert (H' : one_row_per_key (store (start converted_store)))
    by (constructor; simpl; repeat constructor; intros []).
  destruct (one_row_per_key_after_any_calls no_faults half clock iso_date_parse
              utc_toISOString utc_addDays utc_current_timestamp sample_calls
              (start sample_store) H) as [Inv [One _]].
  destruct (one_row_per_key_after_any_calls no_faults half clock iso_date_parse
              utc_toISOString utc_addDays utc_current_timestamp []
              (start converted_store) H') as [_ [_ [_ Upd]]].
  split; [exact H|]. split; [exact Inv|].
  split; [apply One; vm_compute; auto 12|].
  split; [apply One; vm_compute; auto 12|].
  split; [apply One; vm_compute; auto 12|].
  split; [exact H'|]. split; [reflexivity|]. split; [reflexivity|].
  exact (Upd (ReconcileLead lead1) _ converted_row eq_refl eq_refl).
Defined.

(* ================================================================= *)
(** ** The further facts at the sample store *)


(** A project entered without amount or dates. *)
Definition draft_project : Project.t :=
  {| Project.id := 2;
     Project.customer_id := Some 2;
     Project.project_type := Some "Leak repair";
     Project.start_date := Some "2024-06-01";
     Project.end_date := None;
     Project.contract_amount := None;
     Project.created_at := Some "2024-05-28 09:00:00" |}.

(** A project whose end date is no date. *)
Definition vague_project : Project.t :=
  {| Project.id := 3;
     Project.customer_id := Some 2;
     Project.project_type := Some "Inspection";
     Project.start_date := Some "2024-06-01";
     Project.end_date := Some "next week";
     Project.contract_amount := Some 300%Q;
     Project.created_at := Some "2024-05-28 09:00:00" |}.

Lemma draft_project_has_no_margin :
  (num (Project.contract_amount draft_project) == 0)%Q
  /\ (estimatedCost draft_project == 0)%Q
  /\ (actualCost 0.5 draft_project == 0)%Q
  /\ ProjectAnalytics.cost_variance_percent
       (projectAnalytics iso_date_parse 0.5 0.5 draft_project) = None
  /\ ProjectAnalytics.profit_margin
       (projectAnalytics iso_date_parse 0.5 0.5 draft_project) = None.
Proof.
  assert (Z0 : (num (Project.contract_amount draft_project) == 0)%Q)
    by reflexivity.
  split; [exact Z0|].
  exact (zero_contract_has_no_margin iso_date_parse 0.5 0.5 draft_project Z0).
Defined.

Lemma draft_and_vague_durations :
  (truthy (Project.start_date draft_project) = false
   \/ truthy (Project.end_date draft_project) = false)
  /\ (exists v, durationVariancePercent iso_date_parse draft_project = Some v
                /\ (v == 0)%Q)
  /\ truthy (Project.start_date vague_project) = true
  /\ truthy (Project.end_date vague_project) = true
  /\ (iso_date_parse (text (Project.start_date vague_project)) = None
      \/ iso_date_parse (text (Project.end_date vague_project)) = None)
  /\ actualDuration iso_date_parse vague_project = None
  /\ durationVariancePercent iso_date_parse vague_project = None.
Proof.
  assert (A : truthy (Project.start_date draft_project) = false
              \/ truthy (Project.end_date draft_project) = false)
    by (right; reflexivity).
  assert (P : iso_date_parse (text (Project.start_date vague_project)) = None
              \/ iso_date_parse (text (Project.end_date vague_project)) = None)
    by (right; reflexivity).
  split; [exact A|].
  split; [exact (proj1 (duration_variance_at_the_edges iso_date_parse
                          draft_project) A)|].
  split; [reflexivity|]. split; [reflexivity|]. split; [exact P|].
  exact (proj2 (duration_variance_at_the_edges iso_date_parse vague_project)
           eq_refl eq_refl P).
Defined.

Lemma hail_impact_is_bounded :
  (0 <= num (WeatherEvent.severity hail))%Q
  /\ 0 <= projectsCreated hail <= leadsGenerated hail
  /\ (inject_Z (leadsGenerated hail) <= 10 * num (WeatherEvent.severity hail))%Q
  /\ (revenueImpact hail == 8500 * inject_Z (projectsCreated hail))%Q
  /\ (0 <= revenueImpact hail)%Q.
Proof.
  assert (S : (0 <= num (WeatherEvent.severity hail))%Q) by discriminate.
  split; [exact S|]. exact (weather_impact_is_bounded hail S).
Defined.

(** A weather event whose date is no date. *)
Definition undated_storm : WeatherEvent.t :=
  {| WeatherEvent.id := 2;
     WeatherEvent.event_type := Some "Tornado";
     WeatherEvent.severity := Some 3%Q;
     WeatherEvent.zip := None;
     WeatherEvent.event_date := Some "last spring" |}.

Definition storm_run : outcome WeatherImpactAnalytics.t * World :=
  processWeatherEventData no_faults iso_date_parse utc_toISOString
    undated_storm (start sample_store).

Lemma undated_storm_never_settles :
  WeatherEvent.event_date undated_storm = Some "last spring"
  /\ iso_date_parse "last spring" = None
  /\ no_faults (ops (start sample_store)) = false
  /\ fst storm_run = Threw RangeError
  /\ store (snd storm_run) = store (start sample_store)
  /\ ops (snd storm_run) = S (ops (start sample_store)).
Proof.
  do 3 (split; [reflexivity|]).
  exact (invalid_event_date_never_settles no_faults iso_date_parse
           utc_toISOString undated_storm (start sample_store)
           eq_refl eq_refl eq_refl).
Defined.

Definition hail_run : outcome WeatherImpactAnalytics.t * World :=
  processWeatherEventData no_faults iso_date_parse utc_toISOString hail
    (start sample_store).

Definition hail_again : outcome WeatherImpactAnalytics.t * World :=
  processWeatherEventData no_faults iso_date_parse utc_toISOString hail
    (snd hail_run).

Definition hail_analytics (run : outcome WeatherImpactAnalytics.t * World)
  : WeatherImpactAnalytics.t :=
  settled (fst run) (weatherImpactAnalytics hail "" "").

Lemma hail_window :
  hail_run = (Resolved (hail_analytics hail_run), snd hail_run)
  /\ exists t,
       eventDate iso_date_parse hail = Some t
       /\ (WeatherEvent.event_date hail = None -> t = 0)
       /\ WeatherImpactAnalytics.impact_start_date (hail_analytics hail_run)
          = Some (utc_toISOString t)
       /\ WeatherImpactAnalytics.impact_end_date (hail_analytics hail_run)
          = Some (utc_toISOString (t + 30 * msPerDay)).
Proof.
  assert (H : hail_run = (Resolved (hail_analytics hail_run), snd hail_run))
    by reflexivity.
  split; [exact H|].
  exact (impact_window_is_thirty_days no_faults iso_date_parse utc_toISOString
           hail (start sample_store) H).
Defined.

Lemma hail_twice :
  hail_run = (Resolved (hail_analytics hail_run), snd hail_run)
  /\ hail_again = (Resolved (hail_analytics hail_again), snd hail_again)
  /\ store (snd hail_again) = store (snd hail_run)
  /\ WeatherImpactAnalytics.leads_generated (hail_analytics hail_again)
     = WeatherImpactAnalytics.leads_generated (hail_analytics hail_run)
  /\ WeatherImpactAnalytics.revenue_impact (hail_analytics hail_again)
     = WeatherImpactAnalytics.revenue_impact (hail_analytics hail_run)
  /\ WeatherImpactAnalytics.impact_end_date (hail_analytics hail_again)
     = WeatherImpactAnalytics.impact_end_date (hail_analytics hail_run).
Proof.
  assert (H1 : hail_run = (Resolved (hail_analytics hail_run), snd hail_run))
    by reflexivity.
  assert (H2 : hail_again
               = (Resolved (hail_analytics hail_again), snd hail_again))
    by reflexivity.
  split; [exact H1|]. split; [exact H2|].
  exact (weather_reconciliation_is_idempotent no_faults iso_date_parse
           utc_toISOString hail (start sample_store) H1 H2).
Defined.

Definition customer2_run : outcome CustomerAnalytics.t * World :=
  processCustomerData no_faults half clock iso_date_parse utc_toISOString
    customer2 (start sample_store).

Definition customer2_analytics : CustomerAnalytics.t :=
  settled (fst customer2_run)
    (customerAnalytics utc_toISOString customer2 [] 0 0 None 0).


Lemma customer2_has_no_projects :
  customer_projects customer2 (start sample_store) = []
  /\ customer2_run = (Resolved customer2_analytics, snd customer2_run)
  /\ exists average lifetime churn,
       (average == 0)%Q /\ (lifetime == 0)%Q /\ (churn == 0.55)%Q
       /\ CustomerAnalytics.project_count customer2_analytics = Some 0
       /\ CustomerAnalytics.retention_score customer2_analytics = Some 50
       /\ CustomerAnalytics.average_project_value customer2_analytics
          = Some average
       /\ CustomerAnalytics.lifetime_value customer2_analytics = Some lifetime
       /\ CustomerAnalytics.churn_probability customer2_analytics = Some churn
       /\ (exists row,
             select_customer_analytics (Customer.id customer2)
               (store (snd customer2_run)) = Some row)
       /\ forall row,
            In row (customer_analytics (store (snd customer2_run))) ->
            CustomerAnalytics.customer_id row = Customer.id customer2 ->
            CustomerAnalytics.project_count row = Some 0
            /\ CustomerAnalytics.retention_score row = Some 50
            /\ CustomerAnalytics.average_project_value row = Some average
            /\ CustomerAnalytics.lifetime_value row = Some lifetime
            /\ CustomerAnalytics.churn_probability row = Some churn.
Proof.
  assert (E : customer_projects customer2 (start sample_store) = [])
    by reflexivity.
  assert (H : customer2_run = (Resolved customer2_analytics, snd customer2_run))
    by reflexivity.
  split; [exact E|]. split; [exact H|].
  exact (customer_without_projects no_faults half clock iso_date_parse
           utc_toISOString customer2 (start sample_store) E H).
Defined.


Lemma customer1_placeholders :
  (0 <= half (draws (start sample_store)) < 1)%Q
  /\ (0 <= half (S (draws (start sample_store))) < 1)%Q
  /\ customer1_run = (Resolved customer1_analytics, snd customer1_run)
  /\ exists cost referrals,
       CustomerAnalytics.acquisition_cost customer1_analytics
         = Some (inject_Z cost)
       /\ 100 <= cost <= 399
       /\ CustomerAnalytics.referral_count customer1_analytics = Some referrals
       /\ 0 <= referrals <= 2.
Proof.
  assert (R1 : (0 <= half (draws (start sample_store)) < 1)%Q)
    by (split; [discriminate | reflexivity]).
  assert (R2 : (0 <= half (S (draws (start sample_store))) < 1)%Q)
    by (split; [discriminate | reflexivity]).
  assert (H : customer1_run = (Resolved customer1_analytics, snd customer1_run))
    by reflexivity.
  split; [exact R1|]. split; [exact R2|]. split; [exact H|].
  exact (customer_placeholders_in_range no_faults half clock iso_date_parse
           utc_toISOString customer1 (start sample_store) R1 R2 H).
Defined.



Lemma customer1_retention :
  customer1_run = (Resolved customer1_analytics, snd customer1_run)
  /\ exists s churn,
       40 <= s <= 100
       /\ (churn == 1 - inject_Z s / 100 * 0.9)%Q
       /\ (0.1 - tolerance <= churn <= 0.64 + tolerance)%Q
       /\ Double.within 0.1%float 0.64%float (Double.churnProbability s) = true
       /\ CustomerAnalytics.retention_score customer1_analytics = Some s
       /\ CustomerAnalytics.churn_probability customer1_analytics = Some churn
       /\ (exists row,
             select_customer_analytics (Customer.id customer1)
               (store (snd customer1_run)) = Some row)
       /\ forall row,
            In row (customer_analytics (store (snd customer1_run))) ->
            CustomerAnalytics.customer_id row = Customer.id customer1 ->
            CustomerAnalytics.retention_score row = Some s
            /\ CustomerAnalytics.churn_probability row = Some churn.
Proof.
  assert (H : customer1_run = (Resolved customer1_analytics, snd customer1_run))
    by reflexivity.
  split; [exact H|].
  exact (retention_and_churn_tight_range no_faults half clock iso_date_parse
           utc_toISOString customer1 (start sample_store) H).
Defined.

(** Three projects: one that ended in March, one that only started, in May,
    and one without dates. *)
Definition dated (i : Z) (start_date end_date : option string) : Project.t :=
  {| Project.id := i;
     Project.customer_id := Some 1;
     Project.project_type := None;
     Project.start_date := start_date;
     Project.end_date := end_date;
     Project.contract_amount := None;
     Project.created_at := None |}.

Definition three_projects : list Project.t :=
  [dated 1 (Some "2024-03-01") (Some "2024-03-20");
   dated 2 (Some "2024-05-02") None;
   dated 3 None None].

Lemma latest_of_three_projects :
  (forall p, In p three_projects -> truthy (projectDate p) = true ->
             iso_date_parse (text (projectDate p)) <> None)
  /\ lastProjectDate iso_date_parse three_projects = Some "2024-05-02"
  /\ (forall l, lastProject iso_date_parse three_projects = Some l ->
                In l three_projects)
  /\ (truthy (lastProjectDate iso_date_parse three_projects) = true <->
      exists p, In p three_projects /\ truthy (projectDate p) = true)
  /\ (forall p tp,
        In p three_projects -> truthy (projectDate p) = true ->
        iso_date_parse (text (projectDate p)) = Some tp ->
        exists tl,
          iso_date_parse (text (lastProjectDate iso_date_parse three_projects))
          = Some tl
          /\ tp <= tl).
Proof.
  assert (All : forall p, In p three_projects ->
                          truthy (projectDate p) = true ->
                          iso_date_parse (text (projectDate p)) <> None).
  { intros p [E|[E|[E|[]]]] T; subst p; vm_compute; discriminate. }
  split; [exact All|]. split; [reflexivity|].
  exact (last_project_is_the_latest iso_date_parse three_projects All).
Defined.

Lemma absent_customer_and_unknown_table :
  no_faults (ops (start sample_store)) = false
  /\ table_ids ("customer" ++ "s") (store (start sample_store)) = Some [1; 2]
  /\ ~ In 9 [1; 2]
  /\ generatePrediction no_faults half clock utc_toISOString utc_addDays
       "customer_churn_model" "customer" 9 "churn_probability"
       (start sample_store)
     = (Rejected (NotFound "customer" 9),
        {| store := sample_store; ops := 1; draws := 0; ticks := 0 |})
  /\ table_ids ("gadget" ++ "s") (store (start sample_store)) = None
  /\ generatePrediction no_faults half clock utc_toISOString utc_addDays
       "customer_churn_model" "gadget" 9 "churn_probability"
       (start sample_store)
     = (Rejected (StoreError 0),
        {| store := sample_store; ops := 1; draws := 0; ticks := 0 |}).
Proof.
  assert (F : no_faults (ops (start sample_store)) = false) by reflexivity.
  assert (N : ~ In 9 [1; 2]) by (intros [E|[E|[]]]; discriminate).
  split; [exact F|]. split; [reflexivity|]. split; [exact N|].
  split; [|split; [reflexivity|]].
  - exact (proj1 (missing_entity_is_rejected no_faults half clock
                    utc_toISOString utc_addDays "customer_churn_model"
                    "customer" 9 "churn_probability" (start sample_store) F)
             [1; 2] eq_refl N).
  - exact (proj2 (missing_entity_is_rejected no_faults half clock
                    utc_toISOString utc_addDays "customer_churn_model"
                    "gadget" 9 "churn_probability" (start sample_store) F)
             eq_refl).
Defined.

Definition lead1_prediction : Prediction.t :=
  settled (fst (predict_lead1 no_faults))
    (built_prediction clock utc_toISOString utc_addDays "" "" 0 "" None 0 [] 0
       (start converted_store)).

Lemma lead1_prediction_is_stored :
  predict_lead1 no_faults
  = (Resolved lead1_prediction, snd (predict_lead1 no_faults))
  /\ select_prediction "lead_conversion_model" "lead" 1
       "conversion_probability" (store (snd (predict_lead1 no_faults)))
     = Some lead1_prediction
  /\ Prediction.model_name lead1_prediction = "lead_conversion_model"
  /\ Prediction.entity_type lead1_prediction = "lead"
  /\ Prediction.entity_id lead1_prediction = 1
  /\ Prediction.prediction_type lead1_prediction = "conversion_probability".
Proof.
  assert (H : predict_lead1 no_faults
              = (Resolved lead1_prediction, snd (predict_lead1 no_faults)))
    by reflexivity.
  split; [exact H|].
  exact (stored_prediction_is_the_returned_one no_faults half clock
           utc_toISOString utc_addDays "lead_conversion_model" "lead" 1
           "conversion_probability" (start converted_store) H).
Defined.

Definition guess_lead1 : outcome Prediction.t * World :=
  generatePrediction no_faults half clock utc_toISOString utc_addDays
    "some_model" "lead" 1 "some_prediction" (start sample_store).

Lemma unknown_model_for_lead1 :
  named_strategy "some_model" "some_prediction" = false
  /\ table_ids ("lead" ++ "s") (store (start sample_store)) = Some [1; 2; 3]
  /\ In 1 [1; 2; 3]
  /\ exists pr,
       fst guess_lead1 = Resolved pr
       /\ Prediction.prediction_value pr
          = Some (half (draws (start sample_store)))
       /\ Prediction.confidence_score pr = 0.5%Q
       /\ Prediction.features_used pr = [("generic_features", 1)]
       /\ select_prediction "some_model" "lead" 1 "some_prediction"
            (store (snd guess_lead1)) = Some pr.
Proof.
  assert (I : In 1 [1; 2; 3]) by (left; reflexivity).
  split; [reflexivity|]. split; [reflexivity|]. split; [exact I|].
  exact (unknown_strategy_gets_generic_estimate no_faults half clock
           utc_toISOString utc_addDays "some_model" "lead" 1 "some_prediction"
           (start sample_store) eq_refl eq_refl I eq_refl eq_refl eq_refl).
Defined.

Lemma lead1_reconciled_then_predicted :
  In (Lead.id lead1) (map Lead.id (leads (store (start sample_store))))
  /\ lead1_run
     = (Resolved (settled (fst lead1_run) converted_row), snd lead1_run)
  /\ exists pr,
       fst (generatePrediction no_faults half clock utc_toISOString utc_addDays
              "lead_conversion_model" "lead" (Lead.id lead1)
              "conversion_probability" (snd lead1_run)) = Resolved pr
       /\ Prediction.prediction_value pr
          = Some (inject_Z (leadScore lead1) / 100 * 0.8)%Q
       /\ Prediction.confidence_score pr = 0.8%Q.
Proof.
  assert (I : In (Lead.id lead1)
                (map Lead.id (leads (store (start sample_store)))))
    by (left; reflexivity).
  assert (H : lead1_run
              = (Resolved (settled (fst lead1_run) converted_row),
                 snd lead1_run)) by reflexivity.
  split; [exact I|]. split; [exact H|].
  exact (prediction_uses_reconciled_lead no_faults half clock utc_toISOString
           utc_addDays lead1 (start sample_store) I H
           eq_refl eq_refl eq_refl eq_refl).
Defined.

(** The world the batch leaves behind, with its six predictions, and the
    prediction for lead 1 asked once more in it. *)
Definition after_batch : World := Eval vm_compute in snd batch.

Definition predict_after_batch : outcome Prediction.t * World :=
  generatePrediction no_faults half clock utc_toISOString utc_addDays
    "lead_conversion_model" "lead" 1 "conversion_probability" after_batch.

Lemma prediction_after_batch_updates_one_row :
  after_batch = snd batch
  /\ NoDup (map Prediction.id (predictive_model_results (store after_batch)))
  /\ predict_after_batch
     = (Resolved (settled (fst predict_after_batch) lead1_prediction),
        snd predict_after_batch)
  /\ NoDup (map Prediction.id
              (predictive_model_results (store (snd predict_after_batch))))
  /\ filter (other_prediction "lead_conversion_model" "lead" 1
               "conversion_probability")
       (predictive_model_results (store (snd predict_after_batch)))
     = filter (other_prediction "lead_conversion_model" "lead" 1
                 "conversion_probability")
         (predictive_model_results (store after_batch)).
Proof.
  assert (N : NoDup (map Prediction.id
                       (predictive_model_results (store after_batch)))).
  { change (map Prediction.id (predictive_model_results (store after_batch)))
      with [1; 2; 3; 4; 5; 6].
    repeat (constructor; [simpl; lia|]). constructor. }
  assert (H : predict_after_batch
              = (Resolved (settled (fst predict_after_batch) lead1_prediction),
                 snd predict_after_batch)) by reflexivity.
  split; [vm_compute; reflexivity|]. split; [exact N|]. split; [exact H|].
  exact (prediction_leaves_other_rows_alone no_faults half clock
           utc_toISOString utc_addDays "lead_conversion_model" "lead" 1
           "conversion_probability" after_batch N H).
Defined.

Lemma visits_is_no_metric :
  In "monthly" supported_levels
  /\ ~ In "visits" supported_metrics
  /\ generateTimeBasedAggregates no_faults iso_strftime in_order in_order "visits" "monthly"
       (start sample_store)
     = (Rejected (UnsupportedMetric "visits"), start sample_store)
  /\ kind_of (UnsupportedMetric "visits") = ValidationError.
Proof.
  assert (L : In "monthly" supported_levels) by (simpl; auto).
  assert (N : ~ In "visits" supported_metrics).
  { simpl. intros [E|[E|[E|[E|[E|[E|[]]]]]]]; discriminate. }
  split; [exact L|]. split; [exact N|].
  exact (unsupported_metric_is_rejected_without_writes no_faults iso_strftime in_order in_order
           (start sample_store) L N).
Defined.

(** The sample store with a fourth lead that has no created_at. *)
Definition undated_lead : Lead.t :=
  {| Lead.id := 4;
     Lead.source := None;
     Lead.service_interest := None;
     Lead.created_at := None |}.

Definition store_with_undated_lead : DB :=
  {| leads := leads sample_store ++ [undated_lead];
     projects := projects sample_store;
     customers := customers sample_store;
     weather_events := weather_events sample_store;
     business_metrics := [];
     lead_analytics := [];
     project_analytics := [];
     customer_analytics := [];
     weather_impact_analytics := [];
     predictive_model_results := [];
     time_based_aggregates := [];
     other_tables := fun _ => None |}.

Definition undated_bucket : Bucket :=
  {| bucket_period := None;
     bucket_start := None;
     bucket_end := None;
     bucket_value := Some 1%Q |}.

Definition leads_by_month (d : DB) : list Bucket :=
  run_query CountOfRows
    (map (fun l => created_sample iso_strftime "%Y-%m" (Lead.created_at l) None)
         (leads d)).

Lemma undated_lead_rejects_the_run :
  dateFormat "monthly" = Some "%Y-%m"
  /\ metric_query iso_strftime "leads" "%Y-%m" = Some leads_by_month
  /\ In undated_bucket
       (leads_by_month (store (start store_with_undated_lead)))
  /\ (bucket_start undated_bucket = None \/ bucket_end undated_bucket = None)
  /\ is_resolved
       (fst (generateTimeBasedAggregates no_faults iso_strftime in_order in_order "leads"
               "monthly" (start store_with_undated_lead)))
     = false.
Proof.
  assert (I : In undated_bucket
                (leads_by_month (store (start store_with_undated_lead))))
    by (left; reflexivity).
  assert (N : bucket_start undated_bucket = None
              \/ bucket_end undated_bucket = None) by (left; reflexivity).
  split; [reflexivity|]. split; [reflexivity|]. split; [exact I|].
  split; [exact N|].
  exact (bucket_without_dates_rejects no_faults iso_strftime in_order in_order "leads" "monthly"
           (start store_with_undated_lead) undated_bucket
           eq_refl eq_refl I N).
Defined.

(** Project 1 reconciled once more after the batch. *)
Definition project1_again : outcome ProjectAnalytics.t * World :=
  processProjectData no_faults half clock iso_date_parse utc_current_timestamp
    project1 after_batch.

Lemma project1_keeps_unwritten_columns :
  select_project_analytics (Project.id project1) (store after_batch) <> None
  /\ project1_again
     = (Resolved (settled (fst project1_again) project1_analytics),
        snd project1_again)
  /\ Forall2
       (fun r r' =>
          project_frame r r'
          /\ (ProjectAnalytics.project_id r <> Project.id project1 -> r' = r))
       (project_analytics (store after_batch))
       (project_analytics (store (snd project1_again))).
Proof.
  assert (F : select_project_analytics (Project.id project1)
                (store after_batch) <> None) by (vm_compute; discriminate).
  assert (H : project1_again
              = (Resolved (settled (fst project1_again) project1_analytics),
                 snd project1_again)) by reflexivity.
  split; [exact F|]. split; [exact H|].
  exact (reconciling_project_keeps_unwritten_columns no_faults half clock
           iso_date_parse utc_current_timestamp project1 after_batch F H).
Defined.

Definition batch_summary : Summary :=
  {| leadsProcessed := 3;
     projectsProcessed := 1;
     customersProcessed := 2;
     weatherEventsProcessed := 1;
     predictionsGenerated := 20;
     aggregatesGenerated := 6 |}.

Lemma batch_counts :
  batch = (Resolved batch_summary, after_batch)
  /\ leadsProcessed batch_summary
     = Z.of_nat (List.length (leads (store (start sample_store))))
  /\ projectsProcessed batch_summary
     = Z.of_nat (List.length (projects (store (start sample_store))))
  /\ customersProcessed batch_summary
     = Z.of_nat (List.length (customers (store (start sample_store))))
  /\ weatherEventsProcessed batch_summary
     = Z.of_nat (List.length (weather_events (store (start sample_store))))
  /\ same_entities (store (start sample_store)) (store after_batch).
Proof.
  assert (H : processAllData no_faults half clock iso_date_parse
                utc_toISOString utc_addDays utc_current_timestamp iso_strftime in_order in_order
                (start sample_store)
              = (Resolved batch_summary, after_batch))
    by (vm_compute; reflexivity).
  split; [exact H|].
  exact (summary_counts_the_entity_tables no_faults half clock iso_date_parse
           utc_toISOString utc_addDays utc_current_timestamp iso_strftime in_order in_order
           (start sample_store) H).
Defined.

Lemma batch_is_complete :
  one_row_per_key (store (start sample_store))
  /\ batch = (Resolved batch_summary, after_batch)
  /\ one_row_per_key (store after_batch)
  /\ rows_for (ReconcileLead lead1) (store after_batch) = 1%nat
  /\ rows_for (ReconcileCustomer customer2) (store after_batch) = 1%nat
  /\ rows_for (lead_prediction lead1) (store after_batch) = 1%nat
  /\ rows_for (project_prediction project1) (store after_batch) = 1%nat.
Proof.
  assert (Inv : one_row_per_key (store (start sample_store)))
    by (constructor; simpl; constructor).
  assert (H : processAllData no_faults half clock iso_date_parse
                utc_toISOString utc_addDays utc_current_timestamp iso_strftime in_order in_order
                (start sample_store)
              = (Resolved batch_summary, after_batch))
    by (vm_compute; reflexivity).
  destruct (batch_leaves_one_row_per_entity no_faults half clock
              iso_date_parse utc_toISOString utc_addDays utc_current_timestamp
              iso_strftime in_order in_order (start sample_store) Inv H)
    as [Keep [L [_ [C [_ [PL [_ PP]]]]]]].
  split; [exact Inv|]. split; [exact H|]. split; [exact Keep|].
  split; [apply L; left; reflexivity|].
  split; [apply C; right; left; reflexivity|].
  split; [apply PL; left; reflexivity | apply PP; left; reflexivity].
Defined.

Lemma lead_without_source_is_unknown :
  truthy (Lead.source undated_lead) = false
  /\ acquisitionSource undated_lead = "Unknown"
  /\ acquisitionCost undated_lead = 40%Q.
Proof.
  split; [reflexivity|].
  exact (proj2 (source_bonus_iff_listed_cost undated_lead) eq_refl).
Defined.

Lemma leads_monthly_only_appends :
  dateFormat "monthly" = Some "%Y-%m"
  /\ metric_query iso_strftime "leads" "%Y-%m" = Some leads_by_month
  /\ exists new,
       store (snd first_run)
       = set_time_based_aggregates
           (time_based_aggregates (store (start sample_store)) ++ new)
           (store (start sample_store))
       /\ Forall (tagged "leads" "monthly") new
       /\ (List.length new
           <= List.length (leads_by_month (store (start sample_store))))%nat
       /\ (is_resolved (fst first_run) = true
           <-> no_faults (ops (start sample_store)) = false
               /\ List.length new
                  = List.length (leads_by_month (store (start sample_store)))).
Proof.
  split; [reflexivity|]. split; [reflexivity|].
  destruct (aggregator_only_appends no_faults iso_strftime second_first
              in_order "leads" "monthly"
              (start sample_store)) as [new [St [Tg K]]].
  exists new. split; [exact St|]. split; [exact Tg|].
  exact (K "%Y-%m" leads_by_month eq_refl eq_refl).
Defined.

Definition january_rate : Bucket :=
  {| bucket_period := Some "2024-01";
     bucket_start := Some "2024-01-17";
     bucket_end := Some "2024-01-17";
     bucket_value := Some 100%Q |}.

Lemma january_rate_is_a_percentage :
  In january_rate
    (run_query ConversionRate
       (conversion_samples iso_strftime "%Y-%m" converted_store))
  /\ exists v, bucket_value january_rate = Some v /\ (0 <= v <= 100)%Q.
Proof.
  assert (I : In january_rate
                (run_query ConversionRate
                   (conversion_samples iso_strftime "%Y-%m" converted_store)))
    by (left; reflexivity).
  split; [exact I|].
  destruct (conversion_rate_is_a_percentage iso_strftime "%Y-%m"
              converted_store january_rate) as [query [E K]].
  apply K. injection E as <-. exact I.
Defined.


(** The batch on the sample store, cut short by a fault at its eighth
    statement. *)
Definition interrupted_batch : outcome Summary * World :=
  processAllData (only_fault 7) half clock iso_date_parse utc_toISOString
    utc_addDays utc_current_timestamp iso_strftime in_order in_order (start sample_store).

Lemma interrupted_sample_batch :
  one_row_per_key (store (start sample_store))
  /\ is_resolved (fst interrupted_batch) = false
  /\ rows_for (ReconcileLead lead1) (store (snd interrupted_batch)) = 1%nat
  /\ one_row_per_key (store (snd interrupted_batch)).
Proof.
  assert (Inv : one_row_per_key (store (start sample_store)))
    by (constructor; simpl; constructor).
  split; [exact Inv|]. split; [vm_compute; reflexivity|].
  split; [vm_compute; reflexivity|].
  exact (proj2 (interrupted_batch_keeps_rows_and_keys (only_fault 7) half
                  clock iso_date_parse utc_toISOString utc_addDays
                  utc_current_timestamp iso_strftime in_order in_order (start sample_store))
           Inv).
Defined.
